(** * Linear convolution (veles.simd, src/convolve.c)

    A shallow embedding of the convolution engine: the direct convolver
    [convolve_simd], the single-shot transform convolver [convolve_fft], the
    overlap-save convolver [convolve_overlap_save] and the selector
    [convolve_initialize].

    Conventions of the embedding.
    - A [float] sample is an exact rational ([Qc], canonical rationals with
      Leibniz equality): the arithmetic is the ideal one, without rounding.
      What is stated of the values of sums and products is therefore stated
      over exact arithmetic, and holds of the binary32 arithmetic of the
      code up to its rounding only; what is stated of indices, lengths,
      aborts and undefined behaviour does not depend on the arithmetic.
    - A [size_t] is a [Z] reduced modulo 2^64, an [int] a [Z] wrapped into
      [-2^31, 2^31) (LP64 target, two's complement conversions).
    - An array is a [list sample]; a read or a write outside of it is
      undefined behaviour, which the embedding renders as [None].
    - A loop whose counter wraps around (and so never reaches its bound
      within its fuel) is rendered as [None] as well.
    - Host memory and the transform backend are external collaborators.
      [convolve_overlap_save_initialize], [convolve_fft_initialize] and
      [convolve_initialize] are the initializers on a host with resources
      to spare: an allocation within the largest object and the creation
      of a plan succeed, so that the assertions on their results
      ([assert(handle.H)], [assert(handle.fft_plan)], ...) do not fire.
      The initializers on a host that may refuse a request are embedded
      beside them ([convolve_overlap_save_initialize_on],
      [convolve_fft_initialize_on]).
    - [convolve_fft], [convolve_overlap_save] and [convolve] are those of
      the build without [SIMD], whose spectral product is the scalar loop
      over all M/2 + 1 pairs. The build with [SIMD] is embedded beside
      them ([convolve_fft_simd], [convolve_overlap_save_simd]), for any
      width of the vectors, and compared with them. *)

From Stdlib Require Import ZArith List Lia Bool QArith Qcanon.
Import ListNotations.

Local Open Scope Z_scope.

(** ** Machine integers *)

Module Machine.

Definition size_t_modulus : Z := 2 ^ 64.
Definition INT_MAX : Z := 2 ^ 31 - 1.
Definition INT_MIN : Z := - 2 ^ 31.

(** Conversion to [size_t] and arithmetic carried out in [size_t]. *)
Definition to_size_t (z : Z) : Z := z mod size_t_modulus.

(** Conversion to [int] (also the result of [int] arithmetic). *)
Definition to_int (z : Z) : Z := (z + 2 ^ 31) mod 2 ^ 32 - 2 ^ 31.

Definition fits_int (z : Z) : Prop := INT_MIN <= z <= INT_MAX.
Definition fits_size_t (z : Z) : Prop := 0 <= z < size_t_modulus.

End Machine.
Import Machine.

(** ** Arrays of samples *)

Abbreviation sample := Qc.
Definition farray : Type := list sample.

Definition len (a : farray) : Z := Z.of_nat (length a).

(** [a[i]]: undefined outside of the array. *)
Definition rd (a : farray) (i : Z) : option sample :=
  if i <? 0 then None else nth_error a (Z.to_nat i).

Fixpoint set_nth (a : farray) (k : nat) (v : sample) : option farray :=
  match a, k with
  | [], _ => None
  | _ :: t, O => Some (v :: t)
  | u :: t, S k' =>
      match set_nth t k' v with
      | Some t' => Some (u :: t')
      | None => None
      end
  end.

(** [a[i] = v]: undefined outside of the array. *)
Definition wr (a : farray) (i : Z) (v : sample) : option farray :=
  if i <? 0 then None else set_nth a (Z.to_nat i) v.

(** Sequencing of steps that may be undefined. *)
Definition bind {A B : Type} (c : option A) (k : A -> option B) : option B :=
  match c with
  | Some a => k a
  | None => None
  end.

Notation "x <- c ;; k" := (bind c (fun x => k))
  (at level 61, c at next level, right associativity).

(** [for (int m = start; m < stop; m += stride) body], the counter an [int].
    The fuel bounds the number of iterations. *)
Fixpoint loop {S : Type} (fuel : nat) (m stop stride : Z)
    (body : Z -> S -> option S) (s : S) : option S :=
  if m <? stop then
    match fuel with
    | O => None
    | Datatypes.S fuel' =>
        s' <- body m s ;;
        loop fuel' (to_int (m + stride)) stop stride body s'
    end
  else Some s.

(** With a stride of at least one, [stop - start] iterations suffice unless
    the counter wraps around. *)
Definition for_int {S : Type} (start stop stride : Z)
    (body : Z -> S -> option S) (s : S) : option S :=
  loop (Z.to_nat (stop - start)) start stop stride body s.

(** ** Vector registers and the intrinsics used by the direct convolver

    The intrinsics are those of the instruction sets (<immintrin.h>,
    <arm_neon.h>), lane by lane. *)

Local Open Scope Qc_scope.

Record m256 : Type := M256
  { a0 : sample; a1 : sample; a2 : sample; a3 : sample;
    a4 : sample; a5 : sample; a6 : sample; a7 : sample }.

Definition mm256_setzero_ps : m256 := M256 0 0 0 0 0 0 0 0.

(** Unaligned load of eight consecutive floats starting at [a + off]. *)
Definition mm256_loadu_ps (a : farray) (off : Z) : option m256 :=
  v0 <- rd a off ;; v1 <- rd a (off + 1)%Z ;;
  v2 <- rd a (off + 2)%Z ;; v3 <- rd a (off + 3)%Z ;;
  v4 <- rd a (off + 4)%Z ;; v5 <- rd a (off + 5)%Z ;;
  v6 <- rd a (off + 6)%Z ;; v7 <- rd a (off + 7)%Z ;;
  Some (M256 v0 v1 v2 v3 v4 v5 v6 v7).

(** [_mm256_permute2f128_ps(v, v, 1)]: the two 128-bit halves swapped. *)
Definition mm256_permute2f128_ps_1 (v : m256) : m256 :=
  M256 (a4 v) (a5 v) (a6 v) (a7 v) (a0 v) (a1 v) (a2 v) (a3 v).

(** [_mm256_permute_ps(v, 27)]: each 128-bit half reversed. *)
Definition mm256_permute_ps_27 (v : m256) : m256 :=
  M256 (a3 v) (a2 v) (a1 v) (a0 v) (a7 v) (a6 v) (a5 v) (a4 v).

Definition mm256_mul_ps (u v : m256) : m256 :=
  M256 (a0 u * a0 v) (a1 u * a1 v) (a2 u * a2 v) (a3 u * a3 v)
       (a4 u * a4 v) (a5 u * a5 v) (a6 u * a6 v) (a7 u * a7 v).

Definition mm256_add_ps (u v : m256) : m256 :=
  M256 (a0 u + a0 v) (a1 u + a1 v) (a2 u + a2 v) (a3 u + a3 v)
       (a4 u + a4 v) (a5 u + a5 v) (a6 u + a6 v) (a7 u + a7 v).

(** Horizontal add of adjacent pairs, per 128-bit half. *)
Definition mm256_hadd_ps (u v : m256) : m256 :=
  M256 (a0 u + a1 u) (a2 u + a3 u) (a0 v + a1 v) (a2 v + a3 v)
       (a4 u + a5 u) (a6 u + a7 u) (a4 v + a5 v) (a6 v + a7 v).

(** Lane extraction; the code uses lanes 0 and 4 only. *)
Definition mm256_get_ps (v : m256) (i : Z) : sample :=
  if (i =? 0)%Z then a0 v else if (i =? 1)%Z then a1 v
  else if (i =? 2)%Z then a2 v else if (i =? 3)%Z then a3 v
  else if (i =? 4)%Z then a4 v else if (i =? 5)%Z then a5 v
  else if (i =? 6)%Z then a6 v else a7 v.

Record float32x2 : Type := F2 { d0 : sample; d1 : sample }.
Record float32x4 : Type := F4
  { q0 : sample; q1 : sample; q2 : sample; q3 : sample }.

Definition vdupq_n_f32 (c : sample) : float32x4 := F4 c c c c.

Definition vld1q_f32 (a : farray) (off : Z) : option float32x4 :=
  v0 <- rd a off ;; v1 <- rd a (off + 1)%Z ;;
  v2 <- rd a (off + 2)%Z ;; v3 <- rd a (off + 3)%Z ;;
  Some (F4 v0 v1 v2 v3).

(** Reverses the floats within each 64-bit half. *)
Definition vrev64q_f32 (v : float32x4) : float32x4 :=
  F4 (q1 v) (q0 v) (q3 v) (q2 v).

Definition vget_low_f32 (v : float32x4) : float32x2 := F2 (q0 v) (q1 v).
Definition vget_high_f32 (v : float32x4) : float32x2 := F2 (q2 v) (q3 v).

Definition vcombine_f32 (lo hi : float32x2) : float32x4 :=
  F4 (d0 lo) (d1 lo) (d0 hi) (d1 hi).

(** Multiply-accumulate: [acc + u * v] lane by lane. *)
Definition vmlaq_f32 (acc u v : float32x4) : float32x4 :=
  F4 (q0 acc + q0 u * q0 v) (q1 acc + q1 u * q1 v)
     (q2 acc + q2 u * q2 v) (q3 acc + q3 u * q3 v).

(** Pairwise add. *)
Definition vpadd_f32 (u v : float32x2) : float32x2 :=
  F2 (d0 u + d1 u) (d0 v + d1 v).

Definition vget_lane_f32 (v : float32x2) (i : Z) : sample :=
  if (i =? 0)%Z then d0 v else d1 v.

(** ** The direct convolver *)

(** The instruction set the file is compiled for: [__AVX__],
    [__ARM_NEON__], or neither. *)
Inductive target : Type := AVX | NEON | Generic.

(** [for (int m = from; m < end; m++) sum += h[m] * x[n - m];] *)
Definition scalar_body (x h : farray) (n m : Z) (sum : sample)
  : option sample :=
  hm <- rd h m ;; xnm <- rd x (n - m)%Z ;; Some (sum + hm * xnm).

Definition scalar_loop (x h : farray) (n from stop : Z) (sum : sample)
  : option sample :=
  for_int from stop 1 (scalar_body x h n) sum.

(** One step of the AVX loop: eight products added to the accumulator. *)
Definition avx_body (x h : farray) (n m : Z) (accum : m256) : option m256 :=
  xvec <- mm256_loadu_ps x (n - m - 7)%Z ;;
  hvec <- mm256_loadu_ps h m ;;
  let xvec := mm256_permute2f128_ps_1 xvec in
  let xvec := mm256_permute_ps_27 xvec in
  let mulres := mm256_mul_ps xvec hvec in
  Some (mm256_add_ps accum mulres).

(** One step of the NEON loop: four products added to the accumulator. *)
Definition neon_body (x h : farray) (n m : Z) (accum : float32x4)
  : option float32x4 :=
  xvec <- vld1q_f32 x (n - m - 3)%Z ;;
  hvec <- vld1q_f32 h m ;;
  let xvec := vrev64q_f32 xvec in
  let xvec := vcombine_f32 (vget_high_f32 xvec) (vget_low_f32 xvec) in
  Some (vmlaq_f32 accum xvec hvec).

Definition avx_sum (x h : farray) (n beg stop : Z) : option sample :=
  let simdEnd := to_int (beg + Z.land (to_int (stop - beg)) (Z.lnot 7)) in
  accum <- for_int beg simdEnd 8 (avx_body x h n) mm256_setzero_ps ;;
  let accum := mm256_hadd_ps accum accum in
  let accum := mm256_hadd_ps accum accum in
  let sum := mm256_get_ps accum 0 + mm256_get_ps accum 4 in
  scalar_loop x h n simdEnd stop sum.

Definition neon_sum (x h : farray) (n beg stop : Z) : option sample :=
  let simdEnd := to_int (beg + Z.land (to_int (stop - beg)) (Z.lnot 3)) in
  accum <- for_int beg simdEnd 4 (neon_body x h n) (vdupq_n_f32 0) ;;
  let accum2 := vpadd_f32 (vget_high_f32 accum) (vget_low_f32 accum) in
  let sum := vget_lane_f32 accum2 0 + vget_lane_f32 accum2 1 in
  scalar_loop x h n simdEnd stop sum.

(** The body of the outer loop up to the store: the window [beg, end) of
    the kernel index and the windowed sum. *)
Definition window_beg (n xLength : Z) : Z :=
  if (n <? to_int xLength)%Z then 0%Z
  else to_int (to_size_t (n - xLength + 1)).

Definition window_end (n hLength : Z) : Z :=
  let e := to_int (n + 1) in
  if (e >? to_int hLength)%Z then to_int hLength else e.

Definition inner_sum (t : target) (simd : bool) (x h : farray)
    (n beg stop : Z) : option sample :=
  match t, simd with
  | AVX, true => avx_sum x h n beg stop
  | NEON, true => neon_sum x h n beg stop
  | _, _ => scalar_loop x h n beg stop 0
  end.

(** [convolve_simd(simd, x, xLength, h, hLength, result)]; the value is the
    final content of [result]. The assertions on the lengths abort. *)
Definition convolve_simd (t : target) (simd : bool)
    (x : farray) (xLength : Z) (h : farray) (hLength : Z)
    (result : farray) : option farray :=
  if ((xLength >? 0) && (hLength >? 0))%Z then
    for_int 0 (to_int (to_size_t (xLength + hLength - 1))) 1
      (fun n result =>
         let beg := window_beg n xLength in
         let stop := window_end n hLength in
         sum <- inner_sum t simd x h n beg stop ;;
         wr result n sum)
      result
  else None.

(** ** Reference: the windowed sum of the contract *)

(** [sum_from f lo cnt] is [f lo + f (lo+1) + ... + f (lo+cnt-1)]. *)
Fixpoint sum_from (f : Z -> sample) (lo : Z) (cnt : nat) : sample :=
  match cnt with
  | O => 0
  | S c => f lo + sum_from f (lo + 1)%Z c
  end.

(** The sample at an index, zero outside of the array. *)
Definition at0 (a : farray) (i : Z) : sample :=
  match rd a i with
  | Some v => v
  | None => 0
  end.

Definition term (x h : farray) (n m : Z) : sample := at0 h m * at0 x (n - m)%Z.

(** The sum over m in [max(0, n-N+1), min(n, M-1)] of h[m]*x[n-m]. *)
Definition direct_sum (x h : farray) (n : Z) : sample :=
  let lo := Z.max 0 (n - len x + 1) in
  let hi := Z.min n (len h - 1) in
  sum_from (term x h n) lo (Z.to_nat (hi - lo + 1)).

(** The whole output of the direct convolution, as a list. *)
Definition direct_convolution (x h : farray) : farray :=
  map (fun k => direct_sum x h (Z.of_nat k))
      (seq 0 (length x + length h - 1)).

(** Unit-stride and strided iteration without a machine counter. *)
Fixpoint iter_stride {S : Type} (cnt : nat) (m stride : Z)
    (body : Z -> S -> option S) (s : S) : option S :=
  match cnt with
  | O => Some s
  | Datatypes.S c =>
      s' <- body m s ;; iter_stride c (m + stride)%Z stride body s'
  end.


(** ** Memory helpers (inc/simd/memory.h)

    The header is not among the sources at hand. *)

(** Modelled from the spec: [mallocf(length)], the allocation of [length]
    floats ("host memory allocation" is an external collaborator). The
    block is uninitialised: it holds whatever the heap held, [heap k] at
    offset [k]. A request beyond the largest object (2^61 floats) returns
    the null pointer, rendered as [None]; exhaustion of the memory is not
    modelled. *)
Definition MAX_FLOATS : Z := 2 ^ 61.

Definition mallocf (heap : nat -> sample) (length : Z) : option farray :=
  if (length <=? MAX_FLOATS)%Z
  then Some (map heap (seq 0 (Z.to_nat length)))
  else None.

(** Modelled from the spec: [memsetf(ptr + off, value, length)] stores
    [value] into [length] consecutive floats ("zero-padding"); it is
    undefined when they do not all lie inside the block. *)
Definition memsetf (a : farray) (off : Z) (value : sample) (length : Z)
  : option farray :=
  if ((0 <=? off) && (0 <=? length) && (off + length <=? len a))%Z then
    Some (firstn (Z.to_nat off) a ++ repeat value (Z.to_nat length)
          ++ skipn (Z.to_nat (off + length)) a)
  else None.

(** [memcpy(dst + doff, src + soff, length * sizeof(float))]: undefined
    unless both ranges lie inside their arrays. *)
Definition memcpy (dst : farray) (doff : Z) (src : farray) (soff : Z)
    (length : Z) : option farray :=
  if ((0 <=? doff) && (0 <=? soff) && (0 <=? length)
      && (doff + length <=? len dst) && (soff + length <=? len src))%Z then
    Some (firstn (Z.to_nat doff) dst
          ++ firstn (Z.to_nat length) (skipn (Z.to_nat soff) src)
          ++ skipn (Z.to_nat (doff + length)) dst)
  else None.

(** Modelled from the spec: [rmemcpyf(dst, src, length)] copies [length]
    floats in reverse order, dst[i] = src[length-1-i] ("reverses the sample
    order of the copied kernel"). *)
Definition rmemcpyf (dst : farray) (src : farray) (length : Z)
  : option farray :=
  if ((0 <=? length) && (length <=? len dst) && (length <=? len src))%Z then
    Some (rev (firstn (Z.to_nat length) src)
          ++ skipn (Z.to_nat length) dst)
  else None.

(** ** Outcome of an initializer *)

Inductive outcome (A : Type) : Type :=
| Ok (a : A)            (* returns normally *)
| AssertionFailed       (* an [assert] aborts the process *)
| Undefined.            (* undefined behaviour, or no termination *)

Arguments Ok {A} a.
Arguments AssertionFailed {A}.
Arguments Undefined {A}.

Definition obind {A B : Type} (c : outcome A) (k : A -> outcome B)
  : outcome B :=
  match c with
  | Ok a => k a
  | AssertionFailed => AssertionFailed
  | Undefined => Undefined
  end.

Notation "x <-- c ;; k" := (obind c (fun x => k))
  (at level 61, c at next level, right associativity).

(** [assert(cond)] *)
Definition assert (cond : bool) : outcome unit :=
  if cond then Ok tt else AssertionFailed.

(** A step that is undefined when it yields nothing. *)
Definition defined {A : Type} (c : option A) : outcome A :=
  match c with
  | Some a => Ok a
  | None => Undefined
  end.

(** [p = mallocf(n); assert(p);] *)
Definition mallocf_checked (heap : nat -> sample) (length : Z)
  : outcome farray :=
  match mallocf heap length with
  | Some a => Ok a
  | None => AssertionFailed
  end.

(** ** Transform plans (fftf/api.h, an external collaborator)

    A plan records the direction and the size it was made for; the buffers
    it is bound to are those of the handle that owns it. *)
Inductive FFTFDirection : Type :=
| FFTF_DIRECTION_FORWARD
| FFTF_DIRECTION_BACKWARD.

Record FFTFInstance : Type := MkPlan
  { plan_direction : FFTFDirection;
    plan_length : Z;
    plan_batch : Z }.

Definition fftf_init (d : FFTFDirection) (length : Z) : FFTFInstance :=
  MkPlan d length 1.

Definition fftf_init_batch (d : FFTFDirection) (length : Z) (batch : Z)
  : FFTFInstance :=
  MkPlan d length batch.

(** ** Handles *)

Record ConvolutionOverlapSaveHandle : Type := MkOS
  { os_x_length : Z;
    os_h_length : Z;
    os_reverse : bool;
    os_L : Z;
    os_H : farray;
    os_fft_boiler_plate : farray;
    os_fft_plan : FFTFInstance;
    os_fft_inverse_plan : FFTFInstance }.

Record ConvolutionFFTHandle : Type := MkFFT
  { fft_x_length : Z;
    fft_h_length : Z;
    fft_reverse : bool;
    fft_M : Z;
    fft_inputs0 : farray;
    fft_inputs1 : farray;
    fft_fft_plan : FFTFInstance;
    fft_fft_inverse_plan : FFTFInstance }.

Inductive ConvolutionAlgorithm : Type :=
| kConvolutionAlgorithmBruteForce
| kConvolutionAlgorithmFFT
| kConvolutionAlgorithmOverlapSave.

(** The union of the per-algorithm handles; nothing is stored in it for
    the brute-force algorithm. *)
Inductive handle_union : Type :=
| union_unset
| union_fft (fft : ConvolutionFFTHandle)
| union_os (os : ConvolutionOverlapSaveHandle).

Record ConvolutionHandle : Type := MkHandle
  { algorithm : ConvolutionAlgorithm;
    x_length : Z;
    h_length : Z;
    handle : handle_union }.

(** ** Initializers *)

(** [while (L >>= 1) { log++; }] on [int]s; the shift is arithmetic. *)
Fixpoint shift_loop (fuel : nat) (L log : Z) : option Z :=
  match fuel with
  | O => None
  | S fuel' =>
      let L := Z.shiftr L 1 in
      if (L =? 0)%Z then Some log else shift_loop fuel' L (to_int (log + 1))
  end.

(** A positive [int] is exhausted after 31 shifts. *)
Definition shift_fuel : nat := 32.

(** [convolve_overlap_save_initialize(xLength, hLength)]. The three
    assertions on the lengths, the computation of L and the two buffers are
    those of the source. The cell [handle.L = malloc(sizeof(L))] (not
    checked by the source) is the field [os_L]; the two plans are created
    by the backend, and [assert(handle.fft_plan)],
    [assert(handle.fft_inverse_plan)] pass: this is the initializer on a
    host that grants every request, [convolve_overlap_save_initialize_on]
    below being the one on any host. *)
Definition convolve_overlap_save_initialize (heap : nat -> sample)
    (xLength hLength : Z) : outcome ConvolutionOverlapSaveHandle :=
  _ <-- assert (hLength <? xLength / 2)%Z ;;
  _ <-- assert (xLength >? 0)%Z ;;
  _ <-- assert (hLength >? 0)%Z ;;
  let M := hLength in
  let L := to_int M in
  log <-- defined (shift_loop shift_fuel L 2) ;;
  let L := to_int (Z.shiftl 1 log) in
  H <-- mallocf_checked heap (to_size_t (to_int (L + 2))) ;;
  H <-- defined (memsetf H M 0 (to_size_t (L - M))) ;;
  boiler <-- mallocf_checked heap (to_size_t (to_int (L + 2))) ;;
  Ok (MkOS xLength hLength false L H boiler
        (fftf_init FFTF_DIRECTION_FORWARD L)
        (fftf_init FFTF_DIRECTION_BACKWARD L)).

(** [if ((M & (M - 1)) != 0) { log = 1; while (M >>= 1) log++;
    M = (1 << log); }], the value being the final [M]. *)
Definition round_up_to_pow2 (M : Z) : outcome Z :=
  if negb (Z.land M (to_int (M - 1)) =? 0)%Z then
    log <-- defined (shift_loop shift_fuel M 1) ;;
    Ok (to_int (Z.shiftl 1 log))
  else Ok M.

(** [convolve_fft_initialize(xLength, hLength)]. The two assertions on the
    lengths, the computation of M and the two padded buffers are those of
    the source, which does not check the results of [mallocf] here. The
    cells [handle.M] and [handle.inputs] (allocated without a check) are
    the fields [fft_M], [fft_inputs0] and [fft_inputs1]; the two plans are
    created by the backend, and [assert(handle.fft_plan)],
    [assert(handle.fft_inverse_plan)] pass: this is the initializer on a
    host that grants every request, [convolve_fft_initialize_on] below
    being the one on any host. *)
Definition convolve_fft_initialize (heap : nat -> sample)
    (xLength hLength : Z) : outcome ConvolutionFFTHandle :=
  _ <-- assert (hLength >? 0)%Z ;;
  _ <-- assert (xLength >? 0)%Z ;;
  let M := to_int (to_size_t (xLength + hLength - 1)) in
  M <-- round_up_to_pow2 M ;;
  X <-- defined (mallocf heap (to_size_t (to_int (M + 2)))) ;;
  X <-- defined (memsetf X xLength 0 (to_size_t (to_int (M + 2) - xLength))) ;;
  H <-- defined (mallocf heap (to_size_t (to_int (M + 2)))) ;;
  H <-- defined (memsetf H hLength 0 (to_size_t (to_int (M + 2) - hLength))) ;;
  Ok (MkFFT xLength hLength false M X H
        (fftf_init_batch FFTF_DIRECTION_FORWARD M 2)
        (fftf_init FFTF_DIRECTION_BACKWARD M)).

(** The thresholds of the selector: the "long" one is 200 everywhere, the
    "medium" one 50 under [__ARM_NEON__] and 350 otherwise. *)
Definition long_threshold : Z := 200.

Definition medium_threshold (t : target) : Z :=
  match t with
  | NEON => 50
  | _ => 350
  end.

(** The value stored into [handle.algorithm]. *)
Definition algorithm_choice (t : target) (xLength hLength : Z)
  : ConvolutionAlgorithm :=
  if (xLength >? to_size_t (hLength * 2))%Z then
    if (xLength >? long_threshold)%Z then kConvolutionAlgorithmOverlapSave
    else kConvolutionAlgorithmBruteForce
  else
    if (xLength >? medium_threshold t)%Z then kConvolutionAlgorithmFFT
    else kConvolutionAlgorithmBruteForce.

Definition convolve_initialize (heap : nat -> sample) (t : target)
    (xLength hLength : Z) : outcome ConvolutionHandle :=
  if (xLength >? to_size_t (hLength * 2))%Z then
    if (xLength >? long_threshold)%Z then
      os <-- convolve_overlap_save_initialize heap xLength hLength ;;
      Ok (MkHandle kConvolutionAlgorithmOverlapSave xLength hLength
            (union_os os))
    else
      Ok (MkHandle kConvolutionAlgorithmBruteForce xLength hLength
            union_unset)
  else
    if (xLength >? medium_threshold t)%Z then
      fft <-- convolve_fft_initialize heap xLength hLength ;;
      Ok (MkHandle kConvolutionAlgorithmFFT xLength hLength (union_fft fft))
    else
      Ok (MkHandle kConvolutionAlgorithmBruteForce xLength hLength
            union_unset).

(** ** Arithmetic helpers (inc/simd/arithmetic.h)

    The header is not among the sources at hand. *)

(** Modelled from the spec: [complex_multiply_na(a + i, b + i, a + i)], the
    product of one (real, imag) pair of [a] by the matching pair of [b],
    stored over the pair of [a] ("pointwise-multiply the two complex spectra
    element-wise (real,imag pairs) in place"). *)
Definition complex_multiply_na (a b : farray) (i : Z) : option farray :=
  re1 <- rd a i ;; im1 <- rd a (i + 1)%Z ;;
  re2 <- rd b i ;; im2 <- rd b (i + 1)%Z ;;
  a <- wr a i (re1 * re2 - im1 * im2) ;;
  wr a (i + 1)%Z (re1 * im2 + im1 * re2).

(** Modelled from the spec: [real_multiply_scalar(src + soff, length, value,
    dst + doff)] stores src[soff + k] * value at dst[doff + k] for k below
    [length] ("scale every sample by 1/transformSize"). The second variant
    is the call with [dst] and [src] the same array. *)
Definition real_multiply_scalar (src : farray) (soff : Z) (length : Z)
    (value : sample) (dst : farray) (doff : Z) : option farray :=
  if ((0 <=? doff) && (0 <=? soff) && (0 <=? length)
      && (doff + length <=? len dst) && (soff + length <=? len src))%Z then
    Some (firstn (Z.to_nat doff) dst
          ++ map (fun v => v * value)
                 (firstn (Z.to_nat length) (skipn (Z.to_nat soff) src))
          ++ skipn (Z.to_nat (doff + length)) dst)
  else None.

(** ** The transform backend (fftf, an external collaborator)

    [fftf_calc] on a plan of size [L] rewrites the buffer the plan is bound
    to: [L] reals become [L/2 + 1] complex coefficients ([L + 2] floats) in
    the forward direction, and back, without normalisation, in the backward
    direction. The two maps are parameters of the executions. *)
Record fftf_backend : Type := MkBackend
  { forward : Z -> farray -> farray;
    backward : Z -> farray -> farray }.

Definition fftf_calc (fftf : fftf_backend) (plan : FFTFInstance)
    (buffer : farray) : farray :=
  match plan_direction plan with
  | FFTF_DIRECTION_FORWARD => forward fftf (plan_length plan) buffer
  | FFTF_DIRECTION_BACKWARD => backward fftf (plan_length plan) buffer
  end.

(** [1.0f / M] *)
Definition reciprocal (M : Z) : sample := / Q2Qc (inject_Z M).

(** [for (int i = istart; i < M + 2; i += 2)
      complex_multiply_na(X + i, H + i, X + i);]
    with [istart = 0]: the spectral product of the build without [SIMD].
    A build with [SIMD] runs another loop first, [complex_multiply] on
    [FLOAT_STEP] floats at a time for [i] below [M], and starts this one at
    [istart = M]: that is [spectrum_multiply_simd] below. The two differ
    when [M] is not a multiple of [FLOAT_STEP]; on a transform shorter than
    a vector the vector loop steps over the end of the M + 2 floats. *)
Definition spectrum_multiply (X H : farray) (M : Z) : option farray :=
  for_int 0 (to_int (M + 2)) 2 (fun i X => complex_multiply_na X H i) X.

(** ** The single-shot transform convolver *)

(** [convolve_fft(handle, x, h, result)]: the final content of [result], and
    the handle with its buffers as the call leaves them. *)
Definition convolve_fft (fftf : fftf_backend) (hd : ConvolutionFFTHandle)
    (x h result : farray) : option (farray * ConvolutionFFTHandle) :=
  let X := fft_inputs0 hd in
  let H := fft_inputs1 hd in
  let xLength := to_int (fft_x_length hd) in
  let hLength := to_int (fft_h_length hd) in
  let M := fft_M hd in
  X <- memcpy X 0 x 0 (to_size_t (xLength * 4) / 4) ;;
  H <- (if fft_reverse hd then rmemcpyf H h (to_size_t hLength)
        else memcpy H 0 h 0 (to_size_t (hLength * 4) / 4)) ;;
  let X := fftf_calc fftf (fft_fft_plan hd) X in
  let H := fftf_calc fftf (fft_fft_plan hd) H in
  X <- spectrum_multiply X H M ;;
  let X := fftf_calc fftf (fft_fft_inverse_plan hd) X in
  result <- real_multiply_scalar X 0
              (to_size_t (to_int (xLength + hLength - 1)))
              (reciprocal M) result 0 ;;
  Some (result,
        MkFFT (fft_x_length hd) (fft_h_length hd) (fft_reverse hd)
          (fft_M hd) X H (fft_fft_plan hd) (fft_fft_inverse_plan hd)).

(** ** The overlap-save convolver *)

(** [for (size_t i = start; i < stop; i += step) body], the counter a
    [size_t]. *)
Fixpoint loop_size_t {St : Type} (fuel : nat) (i stop step : Z)
    (body : Z -> St -> option St) (s : St) : option St :=
  if (i <? stop)%Z then
    match fuel with
    | O => None
    | S fuel' =>
        s' <- body i s ;;
        loop_size_t fuel' (to_size_t (i + step)) stop step body s'
    end
  else Some s.

(** The state of the block loop: the scratch buffer and the result. *)
Record os_state : Type := MkState
  { st_boiler : farray;
    st_result : farray }.

(** The first statement of the loop body: the scratch buffer receives the
    window X[i, i + L) of X = [zeros(1, M - 1), x, zeros(1, L - 1)]. *)
Definition os_fill (hd : ConvolutionOverlapSaveHandle) (x : farray)
    (M L step : Z) (i : Z) (boiler : farray) : option farray :=
  if (i >? 0)%Z then
    if (to_size_t (i + step) <=? os_x_length hd)%Z then
      memcpy boiler 0 x (i - (M - 1)) (to_size_t (L * 4) / 4)
    else
      let cl := to_int (to_size_t (os_x_length hd - i + M - 1)) in
      boiler <- memcpy boiler 0 x (i - (M - 1)) (to_size_t (cl * 4) / 4) ;;
      memsetf boiler cl 0 (to_size_t (to_int (L - cl)))
  else
    boiler <- memsetf boiler 0 0 (to_size_t (M - 1)) ;;
    memcpy boiler (M - 1) x 0 (to_size_t (step * 4) / 4).

(** The last statement of the loop body: [step] samples go to
    [result + i], or what remains of the output on the last block. *)
Definition os_store (hd : ConvolutionOverlapSaveHandle) (M step : Z) (i : Z)
    (boiler result : farray) : option farray :=
  if (to_size_t (i + step)
      <? to_size_t (os_x_length hd + os_h_length hd))%Z then
    memcpy result i boiler (M - 1) (to_size_t (step * 4) / 4)
  else
    memcpy result i boiler (M - 1)
      (to_size_t
         (to_size_t (os_x_length hd + os_h_length hd - 1 - i) * 4) / 4).

(** The body of the block loop, for the block that starts at [i]. *)
Definition os_block (fftf : fftf_backend) (hd : ConvolutionOverlapSaveHandle)
    (H x : farray) (M L step : Z) (i : Z) (s : os_state) : option os_state :=
  boiler <- os_fill hd x M L step i (st_boiler s) ;;
  let boiler := fftf_calc fftf (os_fft_plan hd) boiler in
  boiler <- spectrum_multiply boiler H L ;;
  let boiler := fftf_calc fftf (os_fft_inverse_plan hd) boiler in
  boiler <- real_multiply_scalar boiler (M - 1) (to_size_t step)
              (reciprocal L) boiler (M - 1) ;;
  result <- os_store hd M step i boiler (st_result s) ;;
  Some (MkState boiler result).

(** [convolve_overlap_save(handle, x, h, result)]: the final content of
    [result], and the handle with its buffers as the call leaves them. *)
Definition convolve_overlap_save (fftf : fftf_backend)
    (hd : ConvolutionOverlapSaveHandle) (x h result : farray)
  : option (farray * ConvolutionOverlapSaveHandle) :=
  let M := os_h_length hd in
  let L := os_L hd in
  let boiler := os_fft_boiler_plate hd in
  boiler <- (if os_reverse hd then rmemcpyf boiler h (os_h_length hd)
             else memcpy boiler 0 h 0
                    (to_size_t (os_h_length hd * 4) / 4)) ;;
  boiler <- memsetf boiler (os_h_length hd) 0
              (to_size_t (L - os_h_length hd)) ;;
  let boiler := fftf_calc fftf (os_fft_plan hd) boiler in
  H <- memcpy (os_H hd) 0 boiler 0 (to_size_t (to_int (L + 2) * 4) / 4) ;;
  let step := to_int (to_size_t (L - (M - 1))) in
  let stop := to_size_t (os_x_length hd + M - 1) in
  s <- loop_size_t (Z.to_nat stop) 0 stop step
         (os_block fftf hd H x M L step)
         (MkState boiler result) ;;
  Some (st_result s,
        MkOS (os_x_length hd) (os_h_length hd) (os_reverse hd) (os_L hd)
          H (st_boiler s) (os_fft_plan hd) (os_fft_inverse_plan hd)).

(** [handle.reverse = b], set by the caller between calls. *)
Definition fft_set_reverse (b : bool) (hd : ConvolutionFFTHandle)
  : ConvolutionFFTHandle :=
  MkFFT (fft_x_length hd) (fft_h_length hd) b (fft_M hd)
    (fft_inputs0 hd) (fft_inputs1 hd)
    (fft_fft_plan hd) (fft_fft_inverse_plan hd).

Definition os_set_reverse (b : bool) (hd : ConvolutionOverlapSaveHandle)
  : ConvolutionOverlapSaveHandle :=
  MkOS (os_x_length hd) (os_h_length hd) b (os_L hd)
    (os_H hd) (os_fft_boiler_plate hd)
    (os_fft_plan hd) (os_fft_inverse_plan hd).

(** ** A concrete backend: the exact transform of size 4

    The fourth roots of unity are 1, -i, -1, i, so that the transform of
    four reals is rational. Buffers of another size are left alone. *)
Definition dft4_forward (L : Z) (buffer : farray) : farray :=
  match buffer with
  | [a; b; c; d; _; _] =>
      if (L =? 4)%Z
      then [a + b + c + d; 0; a - c; d - b; a - b + c - d; 0]
      else buffer
  | _ => buffer
  end.

Definition dft4_backward (L : Z) (buffer : farray) : farray :=
  match buffer with
  | [re0; _; re1; im1; re2; im2] =>
      if (L =? 4)%Z
      then [re0 + (1 + 1) * re1 + re2; re0 - (1 + 1) * im1 - re2;
            re0 - (1 + 1) * re1 + re2; re0 + (1 + 1) * im1 - re2;
            re2; im2]
      else buffer
  | _ => buffer
  end.

Definition dft4 : fftf_backend := MkBackend dft4_forward dft4_backward.

(** ** The dispatcher *)

(** [convolve(handle, x, h, result)]: the final content of [result], and
    the handle as the call leaves it. A handle whose union does not hold the
    member its tag names is not one that [convolve_initialize] builds. *)
Definition convolve (fftf : fftf_backend) (t : target) (hd : ConvolutionHandle)
    (x h result : farray) : option (farray * ConvolutionHandle) :=
  match algorithm hd, handle hd with
  | kConvolutionAlgorithmFFT, union_fft fft =>
      r <- convolve_fft fftf fft x h result ;;
      Some (fst r, MkHandle (algorithm hd) (x_length hd) (h_length hd)
                     (union_fft (snd r)))
  | kConvolutionAlgorithmOverlapSave, union_os os =>
      r <- convolve_overlap_save fftf os x h result ;;
      Some (fst r, MkHandle (algorithm hd) (x_length hd) (h_length hd)
                     (union_os (snd r)))
  | kConvolutionAlgorithmBruteForce, _ =>
      result <- convolve_simd t true x (x_length hd) h (h_length hd) result ;;
      Some (result, hd)
  | _, _ => None
  end.

(** ** The spectral product of a build with SIMD

    With [SIMD] defined, both transform-based convolvers multiply the
    pairs below [M] a vector at a time before the scalar loop takes the
    rest (convolve_fft, lines 311-320; convolve_overlap_save, lines
    201-213). The header that defines [FLOAT_STEP], the number of floats
    in a vector, is not among the sources at hand: it is a parameter
    here. *)

(** Modelled from the spec: [complex_multiply(a + i, b + i, a + i)], the
    vector form of [complex_multiply_na] ("complex pointwise multiply",
    "vectorized over interior pairs"): the [float_step] floats from [i] on,
    that is [float_step / 2] complex numbers, are multiplied pair by pair;
    all of them are read and written. *)
Definition complex_multiply (float_step : Z) (a b : farray) (i : Z)
  : option farray :=
  iter_stride (Z.to_nat (float_step / 2)) i 2
    (fun j a => complex_multiply_na a b j) a.

(** [istart = M;
     for (int i = 0; i < M; i += FLOAT_STEP)
       complex_multiply(X + i, H + i, X + i);
     for (int i = istart; i < M + 2; i += 2)
       complex_multiply_na(X + i, H + i, X + i);] *)
Definition spectrum_multiply_simd (float_step : Z) (X H : farray) (M : Z)
  : option farray :=
  X <- for_int 0 M float_step
         (fun i X => complex_multiply float_step X H i) X ;;
  for_int M (to_int (M + 2)) 2 (fun i X => complex_multiply_na X H i) X.

(** [convolve_fft] as a build with [SIMD] compiles it: the same
    statements, the spectral product being that of such a build. *)
Definition convolve_fft_simd (float_step : Z) (fftf : fftf_backend)
    (hd : ConvolutionFFTHandle) (x h result : farray)
  : option (farray * ConvolutionFFTHandle) :=
  let X := fft_inputs0 hd in
  let H := fft_inputs1 hd in
  let xLength := to_int (fft_x_length hd) in
  let hLength := to_int (fft_h_length hd) in
  let M := fft_M hd in
  X <- memcpy X 0 x 0 (to_size_t (xLength * 4) / 4) ;;
  H <- (if fft_reverse hd then rmemcpyf H h (to_size_t hLength)
        else memcpy H 0 h 0 (to_size_t (hLength * 4) / 4)) ;;
  let X := fftf_calc fftf (fft_fft_plan hd) X in
  let H := fftf_calc fftf (fft_fft_plan hd) H in
  X <- spectrum_multiply_simd float_step X H M ;;
  let X := fftf_calc fftf (fft_fft_inverse_plan hd) X in
  result <- real_multiply_scalar X 0
              (to_size_t (to_int (xLength + hLength - 1)))
              (reciprocal M) result 0 ;;
  Some (result,
        MkFFT (fft_x_length hd) (fft_h_length hd) (fft_reverse hd)
          (fft_M hd) X H (fft_fft_plan hd) (fft_fft_inverse_plan hd)).

(** The body of the block loop of [convolve_overlap_save], and the
    function, as a build with [SIMD] compiles them. *)
Definition os_block_simd (float_step : Z) (fftf : fftf_backend)
    (hd : ConvolutionOverlapSaveHandle)
    (H x : farray) (M L step : Z) (i : Z) (s : os_state) : option os_state :=
  boiler <- os_fill hd x M L step i (st_boiler s) ;;
  let boiler := fftf_calc fftf (os_fft_plan hd) boiler in
  boiler <- spectrum_multiply_simd float_step boiler H L ;;
  let boiler := fftf_calc fftf (os_fft_inverse_plan hd) boiler in
  boiler <- real_multiply_scalar boiler (M - 1) (to_size_t step)
              (reciprocal L) boiler (M - 1) ;;
  result <- os_store hd M step i boiler (st_result s) ;;
  Some (MkState boiler result).

Definition convolve_overlap_save_simd (float_step : Z)
    (fftf : fftf_backend)
    (hd : ConvolutionOverlapSaveHandle) (x h result : farray)
  : option (farray * ConvolutionOverlapSaveHandle) :=
  let M := os_h_length hd in
  let L := os_L hd in
  let boiler := os_fft_boiler_plate hd in
  boiler <- (if os_reverse hd then rmemcpyf boiler h (os_h_length hd)
             else memcpy boiler 0 h 0
                    (to_size_t (os_h_length hd * 4) / 4)) ;;
  boiler <- memsetf boiler (os_h_length hd) 0
              (to_size_t (L - os_h_length hd)) ;;
  let boiler := fftf_calc fftf (os_fft_plan hd) boiler in
  H <- memcpy (os_H hd) 0 boiler 0 (to_size_t (to_int (L + 2) * 4) / 4) ;;
  let step := to_int (to_size_t (L - (M - 1))) in
  let stop := to_size_t (os_x_length hd + M - 1) in
  s <- loop_size_t (Z.to_nat stop) 0 stop step
         (os_block_simd float_step fftf hd H x M L step)
         (MkState boiler result) ;;
  Some (st_result s,
        MkOS (os_x_length hd) (os_h_length hd) (os_reverse hd) (os_L hd)
          H (st_boiler s) (os_fft_plan hd) (os_fft_inverse_plan hd)).

(** ** The initializers on a host that may refuse

    Memory and plans come from outside. A host answers the requests of a
    call in their order: the [k]-th one is granted when [granted k] holds.
    A refused allocation returns the null pointer, a refused plan the null
    plan. The initializers above are these on a host that grants
    everything. *)
Definition host : Type := nat -> bool.

Definition plentiful : host := fun _ => true.

(** [mallocf(length)] as request [k]. *)
Definition mallocf_on (granted : host) (k : nat) (heap : nat -> sample)
    (length : Z) : option farray :=
  if granted k then mallocf heap length else None.

(** [p = malloc(sizeof(v)); *p = v;] as request [k]: the null pointer is
    written through. *)
Definition malloc_cell_on (granted : host) (k : nat) : outcome unit :=
  if granted k then Ok tt else Undefined.

(** [plan = fftf_init(...); assert(plan);] as request [k]. *)
Definition fftf_init_on (granted : host) (k : nat) (plan : FFTFInstance)
  : outcome FFTFInstance :=
  _ <-- assert (granted k) ;; Ok plan.

(** [p = ...; assert(p);] *)
Definition checked {A : Type} (c : option A) : outcome A :=
  match c with
  | Some a => Ok a
  | None => AssertionFailed
  end.

Definition convolve_overlap_save_initialize_on (granted : host)
    (heap : nat -> sample) (xLength hLength : Z)
  : outcome ConvolutionOverlapSaveHandle :=
  _ <-- assert (hLength <? xLength / 2)%Z ;;
  _ <-- assert (xLength >? 0)%Z ;;
  _ <-- assert (hLength >? 0)%Z ;;
  let M := hLength in
  let L := to_int M in
  log <-- defined (shift_loop shift_fuel L 2) ;;
  let L := to_int (Z.shiftl 1 log) in
  (* handle.H = mallocf(L + 2); assert(handle.H); *)
  H <-- checked (mallocf_on granted 0 heap (to_size_t (to_int (L + 2)))) ;;
  H <-- defined (memsetf H M 0 (to_size_t (L - M))) ;;
  (* handle.L = malloc(sizeof(L)); *handle.L = L; *)
  _ <-- malloc_cell_on granted 1 ;;
  (* handle.fft_boiler_plate = mallocf(L + 2); assert(...); *)
  boiler <--
    checked (mallocf_on granted 2 heap (to_size_t (to_int (L + 2)))) ;;
  fft_plan <-- fftf_init_on granted 3 (fftf_init FFTF_DIRECTION_FORWARD L) ;;
  fft_inverse_plan <--
    fftf_init_on granted 4 (fftf_init FFTF_DIRECTION_BACKWARD L) ;;
  Ok (MkOS xLength hLength false L H boiler fft_plan fft_inverse_plan).

Definition convolve_fft_initialize_on (granted : host)
    (heap : nat -> sample) (xLength hLength : Z)
  : outcome ConvolutionFFTHandle :=
  _ <-- assert (hLength >? 0)%Z ;;
  _ <-- assert (xLength >? 0)%Z ;;
  let M := to_int (to_size_t (xLength + hLength - 1)) in
  M <-- round_up_to_pow2 M ;;
  (* handle.M = malloc(sizeof(M)); *handle.M = M; *)
  _ <-- malloc_cell_on granted 0 ;;
  (* float *X = mallocf(M + 2); memsetf(X + xLength, ...); *)
  X <-- defined (mallocf_on granted 1 heap (to_size_t (to_int (M + 2)))) ;;
  X <-- defined (memsetf X xLength 0 (to_size_t (to_int (M + 2) - xLength))) ;;
  H <-- defined (mallocf_on granted 2 heap (to_size_t (to_int (M + 2)))) ;;
  H <-- defined (memsetf H hLength 0 (to_size_t (to_int (M + 2) - hLength))) ;;
  (* handle.inputs = malloc(...); handle.inputs[0] = X; *)
  _ <-- malloc_cell_on granted 3 ;;
  fft_plan <--
    fftf_init_on granted 4 (fftf_init_batch FFTF_DIRECTION_FORWARD M 2) ;;
  fft_inverse_plan <--
    fftf_init_on granted 5 (fftf_init FFTF_DIRECTION_BACKWARD M) ;;
  Ok (MkFFT xLength hLength false M X H fft_plan fft_inverse_plan).

(** The host that refuses request [k] only. *)
Definition refusing (k : nat) : host := fun j => negb (Nat.eqb j k).

(** ** Auxiliary notions used in the statements *)

(** The kernel indices [lo, lo + cnt) and the matching signal indices
    n - m all fall inside the arrays. *)
Definition window_ok (x h : farray) (n lo : Z) (cnt : nat) : Prop :=
  (0 <= lo /\ lo + Z.of_nat cnt <= len h /\
   lo + Z.of_nat cnt <= n + 1 /\ n - lo < len x)%Z.

(** Sum of the lanes of a vector register. *)
Definition total8 (v : m256) : sample :=
  a0 v + a1 v + a2 v + a3 v + a4 v + a5 v + a6 v + a7 v.

Definition total4 (v : float32x4) : sample := q0 v + q1 v + q2 v + q3 v.

(** The body of the outer loop of [convolve_simd]. *)
Definition outer_body (t : target) (simd : bool) (x : farray) (xLength : Z)
    (h : farray) (hLength : Z) (n : Z) (result : farray) : option farray :=
  let beg := window_beg n xLength in
  let stop := window_end n hLength in
  sum <- inner_sum t simd x h n beg stop ;;
  wr result n sum.

(** Decidable equality of samples, arrays and results, to settle concrete
    runs by evaluation. *)
Definition sample_eqb (u v : sample) : bool := Qeq_bool u v.

Fixpoint farray_eqb (a b : farray) : bool :=
  match a, b with
  | [], [] => true
  | u :: a', v :: b' => sample_eqb u v && farray_eqb a' b'
  | _, _ => false
  end.

Definition result_eqb (r s : option farray) : bool :=
  match r, s with
  | Some a, Some b => farray_eqb a b
  | None, None => true
  | _, _ => false
  end.

(** The samples of the literal example. *)
Definition half : sample := Q2Qc (1 # 2).
Definition example_x : farray := [1; Q2Qc 2; Q2Qc 3].
Definition example_h : farray := [0; 1; half].
Definition example_out : farray := [0; 1; Q2Qc (5 # 2); Q2Qc 4; Q2Qc (3 # 2)].
Definition example_buffer : farray := [0; 0; 0; 0; 0].

(** Powers of two. *)
Definition is_pow2 (p : Z) : Prop := exists k, (0 <= k)%Z /\ p = (2 ^ k)%Z.

(** The length of the output, N+M-1. *)
Definition out_length (xLength hLength : Z) : Z := (xLength + hLength - 1)%Z.

(** A heap of zeros, for concrete runs. *)
Definition zero_heap : nat -> sample := fun _ => 0.

(** ** Handles in use

    The handles a caller can hold: those the initializers return, with the
    reverse flag set either way, after any number of executions. *)
Inductive fft_handle (fftf : fftf_backend) : ConvolutionFFTHandle -> Prop :=
| fft_handle_fresh (heap : nat -> sample) (xLength hLength : Z) hd :
    convolve_fft_initialize heap xLength hLength = Ok hd ->
    fft_handle fftf hd
| fft_handle_flag (b : bool) hd :
    fft_handle fftf hd -> fft_handle fftf (fft_set_reverse b hd)
| fft_handle_used hd (x h result result' : farray) hd' :
    fft_handle fftf hd ->
    convolve_fft fftf hd x h result = Some (result', hd') ->
    fft_handle fftf hd'.

Inductive os_handle (fftf : fftf_backend)
  : ConvolutionOverlapSaveHandle -> Prop :=
| os_handle_fresh (heap : nat -> sample) (xLength hLength : Z) hd :
    convolve_overlap_save_initialize heap xLength hLength = Ok hd ->
    os_handle fftf hd
| os_handle_flag (b : bool) hd :
    os_handle fftf hd -> os_handle fftf (os_set_reverse b hd)
| os_handle_used hd (x h result result' : farray) hd' :
    os_handle fftf hd ->
    convolve_overlap_save fftf hd x h result = Some (result', hd') ->
    os_handle fftf hd'.

(** Handles and inputs for concrete runs. *)
Definition sample_of_Z (z : Z) : sample := Q2Qc (inject_Z z).

Definition dummy_fft_handle : ConvolutionFFTHandle :=
  MkFFT 0 0 false 0 [] [] (fftf_init FFTF_DIRECTION_FORWARD 0)
    (fftf_init FFTF_DIRECTION_BACKWARD 0).

Definition dummy_os_handle : ConvolutionOverlapSaveHandle :=
  MkOS 0 0 false 0 [] [] (fftf_init FFTF_DIRECTION_FORWARD 0)
    (fftf_init FFTF_DIRECTION_BACKWARD 0).

Definition fresh_fft_handle (xLength hLength : Z) : ConvolutionFFTHandle :=
  match convolve_fft_initialize zero_heap xLength hLength with
  | Ok hd => hd
  | _ => dummy_fft_handle
  end.

Definition fresh_os_handle (xLength hLength : Z)
  : ConvolutionOverlapSaveHandle :=
  match convolve_overlap_save_initialize zero_heap xLength hLength with
  | Ok hd => hd
  | _ => dummy_os_handle
  end.

(** The handle an execution leaves behind. *)
Definition fft_after (r : option (farray * ConvolutionFFTHandle))
  : ConvolutionFFTHandle :=
  match r with
  | Some (_, hd) => hd
  | None => dummy_fft_handle
  end.

(** Inputs of the concrete runs. *)
Definition run_x : farray := [sample_of_Z 1; sample_of_Z 2].
Definition run_h : farray := [sample_of_Z 3; sample_of_Z 5].
Definition run_result : farray := [0; 0; 0].
Definition run_first : farray :=
  [sample_of_Z 3; sample_of_Z 11; sample_of_Z 10].
Definition run_second : farray :=
  [sample_of_Z 113; sample_of_Z (-189); sample_of_Z 133].
Definition run_reversed : farray :=
  [sample_of_Z 5; sample_of_Z 13; sample_of_Z 6].

Definition six_x : farray := map sample_of_Z [1; 2; 3; 4; 5; 6]%Z.
Definition two_h : farray := map sample_of_Z [3; 1]%Z.
Definition seven_result : farray := repeat 0 7.

(** The step of the block loop, [L - (M - 1)] as an [int]. *)
Definition os_step (hd : ConvolutionOverlapSaveHandle) : Z :=
  to_int (to_size_t (os_L hd - (os_h_length hd - 1))).

(** Inputs for the overlap-save handle that the selector builds for a
    signal of 300 samples and a kernel of 128. *)
Definition long_x : farray := repeat 1 300.
Definition long_h : farray := repeat 1 128.
Definition long_result : farray := repeat 0 427.

(** ** The convolution theorem, as the convolvers use it

    [convolution_theorem fftf L] is a statement about the backend together
    with the spectral product of the code: transforming two buffers
    forward, running [spectrum_multiply] on the spectra, and transforming
    backward is defined and yields [L] times the circular convolution of
    their first [L] samples. It cannot hold where [spectrum_multiply] is
    undefined (size 1, three floats); for an even size it follows from
    [exact_transform], the property of the backend alone. *)

(** [circular L a b n]: the sum over m in [0, L) of b[m] * a[(n - m) mod L]. *)
Definition circular (L : Z) (a b : farray) (n : Z) : sample :=
  sum_from (fun m => at0 b m * at0 a ((n - m) mod L)%Z) 0 (Z.to_nat L).

Definition convolution_theorem (fftf : fftf_backend) (L : Z) : Prop :=
  forall a b : farray,
    len a = (L + 2)%Z -> len b = (L + 2)%Z ->
    len (forward fftf L a) = (L + 2)%Z /\
    exists c,
      spectrum_multiply (forward fftf L a) (forward fftf L b) L = Some c /\
      len (backward fftf L c) = (L + 2)%Z /\
      forall n, (0 <= n < L)%Z ->
        at0 (backward fftf L c) n = sample_of_Z L * circular L a b n.

(** The sum over all m in [0, M) of h[m] * x[n - m], x extended by zeros:
    the linear convolution of the glossary. *)
Definition full_sum (x h : farray) (n : Z) : sample :=
  sum_from (term x h n) 0 (length h).

(** The block size that [convolve_overlap_save_initialize] chooses:
    [1 << (2 + floor(log2 M))]. *)
Definition os_block_size (hLength : Z) : Z := (2 ^ (2 + Z.log2 hLength))%Z.

(** An overlap-save handle for lengths [N] and [M], as the initializer
    builds it and as an execution leaves it: the lengths and the plans
    recorded, both buffers of L + 2 floats, the flag clear. *)
Definition os_ready (hd : ConvolutionOverlapSaveHandle) (N M : Z) : Prop :=
  os_x_length hd = N /\ os_h_length hd = M /\ os_reverse hd = false /\
  (0 < M)%Z /\ (2 * M < os_L hd <= 2 ^ 30)%Z /\
  os_fft_plan hd = fftf_init FFTF_DIRECTION_FORWARD (os_L hd) /\
  os_fft_inverse_plan hd = fftf_init FFTF_DIRECTION_BACKWARD (os_L hd) /\
  len (os_fft_boiler_plate hd) = (os_L hd + 2)%Z /\
  len (os_H hd) = (os_L hd + 2)%Z.

(** The number of blocks: the least [cnt] with [cnt * step >= R]. *)
Definition block_count (R step : Z) : nat :=
  Z.to_nat ((R + step - 1) / step).

(** Inputs for a run of the overlap-save convolver with the transform of
    size 4: nine samples by one, three blocks of four. *)
Definition nine_x : farray := map sample_of_Z [1; 2; 3; 4; 5; 6; 7; 8; 9]%Z.
Definition one_h : farray := [sample_of_Z 3].
Definition nine_result : farray := repeat 0 9.

(** A handle of the single-shot transform convolver as the initializer
    builds it: lengths, size and plans recorded, both buffers of P + 2
    floats, zero from [N] on in X and from [M] on in H. *)
Definition fft_fresh (hd : ConvolutionFFTHandle) (N M : Z) : Prop :=
  fft_x_length hd = N /\ fft_h_length hd = M /\ fft_reverse hd = false /\
  (0 < N)%Z /\ (0 < M)%Z /\ (N + M - 1 <= fft_M hd <= 2 ^ 30)%Z /\
  fft_fft_plan hd = fftf_init_batch FFTF_DIRECTION_FORWARD (fft_M hd) 2 /\
  fft_fft_inverse_plan hd = fftf_init FFTF_DIRECTION_BACKWARD (fft_M hd) /\
  len (fft_inputs0 hd) = (fft_M hd + 2)%Z /\
  len (fft_inputs1 hd) = (fft_M hd + 2)%Z /\
  (forall j, (N <= j < fft_M hd + 2)%Z -> at0 (fft_inputs0 hd) j = 0) /\
  (forall j, (M <= j < fft_M hd + 2)%Z -> at0 (fft_inputs1 hd) j = 0).
Definition eight_x : farray := firstn 8 nine_x.
Definition eight_result : farray := repeat 0 8.

(** ** Notions for the algebra of the direct convolver *)

(** The sum over m in [0, n] of h[m] * x[n - m], both arrays extended by
    zeros: the symmetric form of the linear convolution. *)
Definition triangle_sum (x h : farray) (n : Z) : sample :=
  sum_from (term x h n) 0 (Z.to_nat (n + 1)).

(** [a * h1 + b * h2], sample by sample. *)
Definition combine_kernels (a : sample) (h1 : farray) (b : sample)
    (h2 : farray) : farray :=
  map (fun p => a * fst p + b * snd p) (List.combine h1 h2).

(** The identity kernel. *)
Definition unit_kernel : farray := [1].

(** The transform size a handle was built for, when it has one. *)
Definition transform_size (hd : ConvolutionHandle) : option Z :=
  match handle hd with
  | union_fft fft => Some (fft_M fft)
  | union_os os => Some (os_L os)
  | union_unset => None
  end.

(** A backend that leaves the buffers alone (no transform at all). *)
Definition idle_backend : fftf_backend :=
  MkBackend (fun _ b => b) (fun _ b => b).

(** The product of the complex numbers stored at [i], [i + 1] of two
    buffers: real and imaginary part. *)
Definition product_re (X H : farray) (i : Z) : sample :=
  at0 X i * at0 H i - at0 X (i + 1) * at0 H (i + 1).

Definition product_im (X H : farray) (i : Z) : sample :=
  at0 X i * at0 H (i + 1) + at0 X (i + 1) * at0 H i.

(** ** The backend on its own

    The properties below speak of the backend only, not of the code. *)

(** Two spectra of L/2 + 1 complex numbers (L + 2 floats) multiplied pair
    by pair: the real part of a product at the even index, the imaginary
    part at the odd one. *)
Definition pointwise_product (A B : farray) (L : Z) : farray :=
  map (fun k => let n := Z.of_nat k in
                if Z.even n then product_re A B n
                else product_im A B (n - 1))
      (seq 0 (Z.to_nat (L + 2))).

(** An exact transform of size [L], in the layout of fftf: the forward
    transform of L reals is L/2 + 1 complex coefficients in the same buffer
    of L + 2 floats, and the backward transform of the product of two
    spectra is [L] times the circular convolution of the two signals (the
    transforms are not normalised). *)
Definition exact_transform (fftf : fftf_backend) (L : Z) : Prop :=
  forall a b : farray,
    len a = (L + 2)%Z -> len b = (L + 2)%Z ->
    len (forward fftf L a) = (L + 2)%Z /\
    len (backward fftf L
           (pointwise_product (forward fftf L a) (forward fftf L b) L))
    = (L + 2)%Z /\
    forall n, (0 <= n < L)%Z ->
      at0 (backward fftf L
             (pointwise_product (forward fftf L a) (forward fftf L b) L)) n
      = sample_of_Z L * circular L a b n.

(** What every in-place transform of size [L] does to its buffer, exact or
    not: both directions keep the L + 2 floats, and the forward direction
    reads the first L of them only. *)
Definition buffer_transform (fftf : fftf_backend) (L : Z) : Prop :=
  (forall a, len a = (L + 2)%Z -> len (forward fftf L a) = (L + 2)%Z) /\
  (forall a b, len a = (L + 2)%Z -> len b = (L + 2)%Z ->
     (forall j, (0 <= j < L)%Z -> at0 a j = at0 b j) ->
     forward fftf L a = forward fftf L b) /\
  (forall c, len c = (L + 2)%Z -> len (backward fftf L c) = (L + 2)%Z).

(** A backend that is no transform at all: the forward direction keeps the
    L samples and clears the two floats behind them, the backward direction
    leaves the buffer alone. *)
Definition plain_backend : fftf_backend :=
  MkBackend (fun L b => firstn (Z.to_nat L) b ++ [0; 0]) (fun _ b => b).

(** ** The blocks of the overlap-save convolver *)

(** The window X[i, i + L) of X = [zeros(1, M - 1), x, zeros(1, L - 1)]
    (the comment of the block loop), in a buffer of L + 2 floats. *)
Definition os_window (x : farray) (M L i : Z) : farray :=
  map (fun j => at0 x (i + Z.of_nat j - (M - 1))) (seq 0 (Z.to_nat L))
  ++ [0; 0].

(** The kernel followed by zeros, in a buffer of L + 2 floats. *)
Definition zero_padded (h : farray) (L : Z) : farray :=
  h ++ repeat 0 (Z.to_nat (L + 2 - len h)).

(** Sample [j] of the block that a window [a] and a padded kernel [b] give:
    both transformed, the spectra multiplied pair by pair, the product
    transformed back and divided by L. *)
Definition block_sample (fftf : fftf_backend) (L : Z) (a b : farray) (j : Z)
  : sample :=
  at0 (backward fftf L
         (pointwise_product (forward fftf L a) (forward fftf L b) L)) j
  * reciprocal L.

(** The sample that overlap-save assigns to the output index [n]: it lies in
    the block that starts at step * (n / step), [n mod step] samples behind
    the M - 1 discarded ones. *)
Definition os_sample (fftf : fftf_backend) (x h : farray) (L : Z) (n : Z)
  : sample :=
  let M := len h in
  let step := (L - (M - 1))%Z in
  block_sample fftf L (os_window x M L (step * (n / step)))
    (zero_padded h L) (M - 1 + n mod step).

(** Fifteen samples by two: blocks of 8 with a step of 7, the third block
    holding the last two samples of the output. *)
Definition fifteen_x : farray :=
  map sample_of_Z [1; 2; 3; 4; 5; 6; 7; 8; 9; 10; 11; 12; 13; 14; 15]%Z.
Definition sixteen_result : farray := repeat 0 16.

(** A signal of 204 samples for the overlap-save handle that the selector
    builds for a kernel of one sample (block size 4). *)
Definition ramp_x : farray :=
  map (fun k => sample_of_Z (Z.of_nat k)) (seq 1 204).
Definition ramp_result : farray := repeat 0 204.
(** * Properties *)

(** ** Machine integers and loops *)

(** Closes an arithmetic goal after unfolding the ranges of the machine
    integers. *)
Ltac range_lia :=
  unfold fits_int, fits_size_t, size_t_modulus, INT_MIN, INT_MAX in *; lia.

Lemma to_int_small (z : Z) : fits_int z -> to_int z = z.
Proof.
  unfold fits_int, to_int, INT_MIN, INT_MAX. intros H.
  rewrite Z.mod_small; lia.
Qed.

Lemma to_int_fits (z : Z) : fits_int (to_int z).
Proof.
  unfold fits_int, to_int, INT_MIN, INT_MAX.
  pose proof (Z.mod_pos_bound (z + 2 ^ 31) (2 ^ 32)). lia.
Qed.

Lemma to_size_t_small (z : Z) : fits_size_t z -> to_size_t z = z.
Proof.
  unfold fits_size_t, to_size_t. intros H. apply Z.mod_small; lia.
Qed.

Lemma to_int_to_size_t (z : Z) : to_int (to_size_t z) = to_int z.
Proof.
  unfold to_int, to_size_t, size_t_modulus.
  f_equal. rewrite (Z.mod_eq z (2 ^ 64)) by lia.
  replace (z - 2 ^ 64 * (z / 2 ^ 64) + 2 ^ 31)%Z
    with (z + 2 ^ 31 + (- 2 ^ 32 * (z / 2 ^ 64)) * 2 ^ 32)%Z by lia.
  apply Z.mod_add. lia.
Qed.

(** A loop of positive stride whose bound leaves room for the last
    increment runs [cnt] times, at [start], [start + stride], ... *)
Lemma loop_iter_stride {S : Type} (body : Z -> S -> option S) (stride : Z) :
  (0 < stride)%Z ->
  forall (cnt fuel : nat) (start stop : Z) (s : S),
    stop = (start + stride * Z.of_nat cnt)%Z ->
    (cnt <= fuel)%nat ->
    fits_int start ->
    fits_int stop ->
    loop fuel start stop stride body s = iter_stride cnt start stride body s.
Proof.
  intros Hs. induction cnt as [|c IH]; intros fuel start stop s Hstop Hf Hlo Hhi.
  - replace stop with start by lia.
    destruct fuel; cbn [loop iter_stride]; rewrite Z.ltb_irrefl; reflexivity.
  - destruct fuel as [|fuel]; [lia|].
    cbn [loop iter_stride].
    destruct (Z.ltb_spec start stop); [|nia].
    destruct (body start s) as [s'|]; cbn [bind]; [|reflexivity].
    assert (Hnext : fits_int (start + stride)).
    { unfold fits_int in *. nia. }
    rewrite (to_int_small _ Hnext).
    apply IH; [lia|lia|assumption|assumption].
Qed.

Lemma for_int_iter_stride {S : Type} (body : Z -> S -> option S)
    (stride start : Z) (cnt : nat) (s : S) :
  (0 < stride)%Z ->
  fits_int start ->
  fits_int (start + stride * Z.of_nat cnt) ->
  for_int start (start + stride * Z.of_nat cnt) stride body s
  = iter_stride cnt start stride body s.
Proof.
  intros Hs Hlo Hhi. unfold for_int.
  apply loop_iter_stride; try assumption; try reflexivity. nia.
Qed.

Lemma for_int_unit {S : Type} (body : Z -> S -> option S)
    (start stop : Z) (s : S) :
  fits_int start -> fits_int stop -> (start <= stop)%Z ->
  for_int start stop 1 body s
  = iter_stride (Z.to_nat (stop - start)) start 1 body s.
Proof.
  intros Hlo Hhi Hle.
  pose proof (for_int_iter_stride body 1 start (Z.to_nat (stop - start)) s)
    as H.
  replace (start + 1 * Z.of_nat (Z.to_nat (stop - start)))%Z with stop in H
    by lia.
  apply H; [lia|assumption|assumption].
Qed.

(** A loop whose bound is not above its start does nothing. *)
Lemma for_int_empty {S : Type} (body : Z -> S -> option S)
    (stride start stop : Z) (s : S) :
  (stop <= start)%Z -> for_int start stop stride body s = Some s.
Proof.
  intros H. unfold for_int.
  replace (Z.to_nat (stop - start)) with O by lia.
  simpl. destruct (Z.ltb_spec start stop); [lia|reflexivity].
Qed.

(** ** Arrays *)

Lemma rd_in (a : farray) (i : Z) :
  (0 <= i < len a)%Z -> rd a i = Some (at0 a i).
Proof.
  intros H. unfold at0, rd, len in *.
  destruct (Z.ltb_spec i 0); [lia|].
  destruct (nth_error a (Z.to_nat i)) eqn:E; [reflexivity|].
  apply nth_error_None in E. lia.
Qed.

Lemma rd_out (a : farray) (i : Z) :
  (i < 0 \/ len a <= i)%Z -> rd a i = None.
Proof.
  intros H. unfold rd, len in *.
  destruct (Z.ltb_spec i 0); [reflexivity|].
  apply nth_error_None. lia.
Qed.

Lemma set_nth_length (a : farray) (k : nat) (v : sample) (a' : farray) :
  set_nth a k v = Some a' -> length a' = length a.
Proof.
  revert k a'. induction a as [|u t IH]; intros k a' H; [discriminate|].
  destruct k as [|k]; simpl in H.
  - injection H as <-. reflexivity.
  - destruct (set_nth t k v) as [t'|] eqn:E; [|discriminate].
    injection H as <-. simpl. f_equal. eapply IH; eassumption.
Qed.

Lemma set_nth_some (a : farray) (k : nat) (v : sample) :
  (k < length a)%nat -> exists a', set_nth a k v = Some a'.
Proof.
  revert k. induction a as [|u t IH]; intros k H; simpl in H; [lia|].
  destruct k as [|k]; simpl; [eauto|].
  destruct (IH k) as [t' ->]; [lia|]. eauto.
Qed.

Lemma set_nth_nth_error (a : farray) (k j : nat) (v : sample) (a' : farray) :
  set_nth a k v = Some a' ->
  nth_error a' j = if Nat.eqb j k then Some v else nth_error a j.
Proof.
  revert k j a'. induction a as [|u t IH]; intros k j a' H; [discriminate|].
  destruct k as [|k]; simpl in H.
  - injection H as <-. destruct j; reflexivity.
  - destruct (set_nth t k v) as [t'|] eqn:E; [|discriminate].
    injection H as <-. destruct j as [|j]; simpl; [reflexivity|].
    apply IH. assumption.
Qed.

Lemma wr_some (a : farray) (i : Z) (v : sample) :
  (0 <= i < len a)%Z -> exists a', wr a i v = Some a'.
Proof.
  intros H. unfold wr, len in *. destruct (Z.ltb_spec i 0); [lia|].
  apply set_nth_some. lia.
Qed.

Lemma wr_len (a : farray) (i : Z) (v : sample) (a' : farray) :
  wr a i v = Some a' -> len a' = len a.
Proof.
  unfold wr, len. destruct (i <? 0)%Z; [discriminate|].
  intros H. f_equal. eapply set_nth_length; eassumption.
Qed.

Lemma wr_rd (a : farray) (i j : Z) (v : sample) (a' : farray) :
  wr a i v = Some a' -> (0 <= j)%Z ->
  rd a' j = if (j =? i)%Z then Some v else rd a j.
Proof.
  unfold wr, rd. destruct (Z.ltb_spec i 0) as [Hi|Hi]; [discriminate|].
  intros H Hj. destruct (Z.ltb_spec j 0); [lia|].
  rewrite (set_nth_nth_error _ _ (Z.to_nat j) _ _ H).
  destruct (Z.eqb_spec j i), (Nat.eqb_spec (Z.to_nat j) (Z.to_nat i));
    try reflexivity; lia.
Qed.

(** ** Sums *)

Lemma sum_from_app (f : Z -> sample) (a b : nat) (lo : Z) :
  sum_from f lo (a + b) = sum_from f lo a + sum_from f (lo + Z.of_nat a)%Z b.
Proof.
  revert lo. induction a as [|a IH]; intros lo.
  - simpl. replace (lo + 0)%Z with lo by lia. ring.
  - cbn [sum_from Nat.add]. rewrite IH.
    replace (lo + 1 + Z.of_nat a)%Z with (lo + Z.of_nat (S a))%Z by lia.
    ring.
Qed.

Lemma sum_from_ext (f g : Z -> sample) (cnt : nat) (lo : Z) :
  (forall m, (lo <= m < lo + Z.of_nat cnt)%Z -> f m = g m) ->
  sum_from f lo cnt = sum_from g lo cnt.
Proof.
  revert lo. induction cnt as [|c IH]; intros lo H; [reflexivity|].
  cbn [sum_from]. rewrite H by lia. f_equal. apply IH. intros. apply H. lia.
Qed.

(** ** The inner loops of the direct convolver *)

Lemma scalar_iter (x h : farray) (n : Z) (cnt : nat) :
  forall (lo : Z) (sum : sample),
    window_ok x h n lo cnt ->
    iter_stride cnt lo 1 (scalar_body x h n) sum
    = Some (sum + sum_from (term x h n) lo cnt).
Proof.
  unfold window_ok.
  induction cnt as [|c IH]; intros lo sum H.
  - simpl. f_equal. ring.
  - cbn [iter_stride sum_from]. unfold scalar_body at 1.
    rewrite (rd_in h lo), (rd_in x (n - lo)) by lia. cbn [bind].
    rewrite IH by lia. f_equal. unfold term. ring.
Qed.

Lemma scalar_loop_sum (x h : farray) (n lo : Z) (cnt : nat) (sum : sample) :
  window_ok x h n lo cnt ->
  fits_int (lo + Z.of_nat cnt) ->
  scalar_loop x h n lo (lo + Z.of_nat cnt) sum
  = Some (sum + sum_from (term x h n) lo cnt).
Proof.
  intros H Hf. unfold scalar_loop.
  replace (lo + Z.of_nat cnt)%Z with (lo + 1 * Z.of_nat cnt)%Z by lia.
  rewrite for_int_iter_stride.
  - apply scalar_iter. assumption.
  - lia.
  - unfold window_ok, fits_int, INT_MIN, INT_MAX in *. lia.
  - replace (lo + 1 * Z.of_nat cnt)%Z with (lo + Z.of_nat cnt)%Z by lia.
    assumption.
Qed.

Lemma mm256_loadu_ps_in (a : farray) (off : Z) :
  (0 <= off /\ off + 8 <= len a)%Z ->
  mm256_loadu_ps a off
  = Some (M256 (at0 a off) (at0 a (off + 1)) (at0 a (off + 2))
               (at0 a (off + 3)) (at0 a (off + 4)) (at0 a (off + 5))
               (at0 a (off + 6)) (at0 a (off + 7))).
Proof.
  intros H. unfold mm256_loadu_ps.
  rewrite !rd_in by lia. reflexivity.
Qed.

Lemma vld1q_f32_in (a : farray) (off : Z) :
  (0 <= off /\ off + 4 <= len a)%Z ->
  vld1q_f32 a off
  = Some (F4 (at0 a off) (at0 a (off + 1)) (at0 a (off + 2))
             (at0 a (off + 3))).
Proof.
  intros H. unfold vld1q_f32.
  rewrite !rd_in by lia. reflexivity.
Qed.

(** The same loads with the indices written in any equal form. *)
Lemma mm256_loadu_ps_idx (a : farray) (off i0 i1 i2 i3 i4 i5 i6 i7 : Z) :
  (0 <= off /\ off + 8 <= len a)%Z ->
  (i0 = off /\ i1 = off + 1 /\ i2 = off + 2 /\ i3 = off + 3 /\
   i4 = off + 4 /\ i5 = off + 5 /\ i6 = off + 6 /\ i7 = off + 7)%Z ->
  mm256_loadu_ps a off
  = Some (M256 (at0 a i0) (at0 a i1) (at0 a i2) (at0 a i3)
               (at0 a i4) (at0 a i5) (at0 a i6) (at0 a i7)).
Proof.
  intros H (-> & -> & -> & -> & -> & -> & -> & ->).
  apply mm256_loadu_ps_in. assumption.
Qed.

Lemma vld1q_f32_idx (a : farray) (off i0 i1 i2 i3 : Z) :
  (0 <= off /\ off + 4 <= len a)%Z ->
  (i0 = off /\ i1 = off + 1 /\ i2 = off + 2 /\ i3 = off + 3)%Z ->
  vld1q_f32 a off = Some (F4 (at0 a i0) (at0 a i1) (at0 a i2) (at0 a i3)).
Proof.
  intros H (-> & -> & -> & ->). apply vld1q_f32_in. assumption.
Qed.

Lemma sum_from_8 (f : Z -> sample) (lo : Z) :
  sum_from f lo 8
  = f lo + f (lo + 1)%Z + f (lo + 2)%Z + f (lo + 3)%Z
    + f (lo + 4)%Z + f (lo + 5)%Z + f (lo + 6)%Z + f (lo + 7)%Z.
Proof.
  cbn [sum_from].
  replace (lo + 1 + 1)%Z with (lo + 2)%Z by lia.
  replace (lo + 2 + 1)%Z with (lo + 3)%Z by lia.
  replace (lo + 3 + 1)%Z with (lo + 4)%Z by lia.
  replace (lo + 4 + 1)%Z with (lo + 5)%Z by lia.
  replace (lo + 5 + 1)%Z with (lo + 6)%Z by lia.
  replace (lo + 6 + 1)%Z with (lo + 7)%Z by lia.
  ring.
Qed.

Lemma sum_from_4 (f : Z -> sample) (lo : Z) :
  sum_from f lo 4 = f lo + f (lo + 1)%Z + f (lo + 2)%Z + f (lo + 3)%Z.
Proof.
  cbn [sum_from].
  replace (lo + 1 + 1)%Z with (lo + 2)%Z by lia.
  replace (lo + 2 + 1)%Z with (lo + 3)%Z by lia.
  ring.
Qed.

(** The vector loop accumulates, spread over the lanes, the same products
    as the scalar loop over full chunks. *)
Lemma avx_iter (x h : farray) (n : Z) (chunks : nat) :
  forall (lo : Z) (accum : m256),
    window_ok x h n lo (8 * chunks) ->
    exists accum',
      iter_stride chunks lo 8 (avx_body x h n) accum
      = Some accum' /\
      total8 accum' = total8 accum + sum_from (term x h n) lo (8 * chunks).
Proof.
  unfold window_ok.
  induction chunks as [|c IH]; intros lo accum H.
  - exists accum. split; [reflexivity|]. simpl. ring.
  - cbn [iter_stride]. unfold avx_body at 1.
    rewrite (mm256_loadu_ps_idx x (n - lo - 7)
               (n - (lo + 7)) (n - (lo + 6)) (n - (lo + 5)) (n - (lo + 4))
               (n - (lo + 3)) (n - (lo + 2)) (n - (lo + 1)) (n - lo))
      by lia.
    rewrite (mm256_loadu_ps_in h) by lia.
    cbn [bind].
    match goal with
    | |- exists _, iter_stride _ _ _ _ ?acc = _ /\ _ =>
        destruct (IH (lo + 8)%Z acc) as (accum' & Hrun & Htot); [lia|]
    end.
    exists accum'. split; [exact Hrun|]. rewrite Htot.
    replace (8 * S c)%nat with (8 + 8 * c)%nat by lia.
    rewrite sum_from_app, sum_from_8.
    replace (lo + Z.of_nat 8)%Z with (lo + 8)%Z by lia.
    unfold term, total8. cbn. ring.
Qed.

Lemma neon_iter (x h : farray) (n : Z) (chunks : nat) :
  forall (lo : Z) (accum : float32x4),
    window_ok x h n lo (4 * chunks) ->
    exists accum',
      iter_stride chunks lo 4 (neon_body x h n) accum
      = Some accum' /\
      total4 accum' = total4 accum + sum_from (term x h n) lo (4 * chunks).
Proof.
  unfold window_ok.
  induction chunks as [|c IH]; intros lo accum H.
  - exists accum. split; [reflexivity|]. simpl. ring.
  - cbn [iter_stride]. unfold neon_body at 1.
    rewrite (vld1q_f32_idx x (n - lo - 3)
               (n - (lo + 3)) (n - (lo + 2)) (n - (lo + 1)) (n - lo))
      by lia.
    rewrite (vld1q_f32_in h) by lia.
    cbn [bind].
    match goal with
    | |- exists _, iter_stride _ _ _ _ ?acc = _ /\ _ =>
        destruct (IH (lo + 4)%Z acc) as (accum' & Hrun & Htot); [lia|]
    end.
    exists accum'. split; [exact Hrun|]. rewrite Htot.
    replace (4 * S c)%nat with (4 + 4 * c)%nat by lia.
    rewrite sum_from_app, sum_from_4.
    replace (lo + Z.of_nat 4)%Z with (lo + 4)%Z by lia.
    unfold term, total4. cbn. ring.
Qed.

(** [v & ~(2^k - 1)] rounds [v] down to a multiple of [2^k]. *)
Lemma land_lnot_ones (v k : Z) :
  (0 <= k)%Z -> Z.land v (Z.lnot (Z.ones k)) = (2 ^ k * (v / 2 ^ k))%Z.
Proof.
  intros Hk. rewrite <- Z.ldiff_land, Z.ldiff_ones_r by assumption.
  rewrite Z.shiftl_mul_pow2, Z.shiftr_div_pow2 by assumption. lia.
Qed.

Lemma avx_sum_window (x h : farray) (n beg : Z) (cnt : nat) :
  window_ok x h n beg cnt ->
  fits_int (beg + Z.of_nat cnt) ->
  avx_sum x h n beg (beg + Z.of_nat cnt)
  = Some (sum_from (term x h n) beg cnt).
Proof.
  intros Hw Hf. unfold avx_sum.
  assert (Hb : (0 <= beg)%Z) by (unfold window_ok in Hw; lia).
  set (chunks := (cnt / 8)%nat).
  set (rest := (cnt mod 8)%nat).
  assert (Hcnt : cnt = (8 * chunks + rest)%nat)
    by (unfold chunks, rest; apply Nat.div_mod_eq).
  replace (beg + Z.of_nat cnt - beg)%Z with (Z.of_nat cnt) by lia.
  rewrite (to_int_small (Z.of_nat cnt))
    by range_lia.
  change 7%Z with (Z.ones 3). rewrite land_lnot_ones by lia.
  replace (2 ^ 3 * (Z.of_nat cnt / 2 ^ 3))%Z with (8 * Z.of_nat chunks)%Z
    by (unfold chunks; rewrite Nat2Z.inj_div; reflexivity).
  rewrite to_int_small by range_lia.
  rewrite for_int_iter_stride;
    [|lia| |]; try range_lia.
  destruct (avx_iter x h n chunks beg mm256_setzero_ps)
    as (accum & Hrun & Htot).
  { unfold window_ok in *. lia. }
  rewrite Hrun. cbn [bind].
  replace (beg + Z.of_nat cnt)%Z
    with (beg + 8 * Z.of_nat chunks + Z.of_nat rest)%Z by lia.
  rewrite scalar_loop_sum.
  - f_equal. rewrite Hcnt at 1. rewrite sum_from_app.
    replace (beg + Z.of_nat (8 * chunks))%Z
      with (beg + 8 * Z.of_nat chunks)%Z by lia.
    f_equal.
    transitivity (total8 accum).
    + unfold total8. cbn. ring.
    + rewrite Htot. unfold total8. cbn. ring.
  - unfold window_ok in *. lia.
  - unfold fits_int, INT_MIN, INT_MAX in *. lia.
Qed.

Lemma neon_sum_window (x h : farray) (n beg : Z) (cnt : nat) :
  window_ok x h n beg cnt ->
  fits_int (beg + Z.of_nat cnt) ->
  neon_sum x h n beg (beg + Z.of_nat cnt)
  = Some (sum_from (term x h n) beg cnt).
Proof.
  intros Hw Hf. unfold neon_sum.
  assert (Hb : (0 <= beg)%Z) by (unfold window_ok in Hw; lia).
  set (chunks := (cnt / 4)%nat).
  set (rest := (cnt mod 4)%nat).
  assert (Hcnt : cnt = (4 * chunks + rest)%nat)
    by (unfold chunks, rest; apply Nat.div_mod_eq).
  replace (beg + Z.of_nat cnt - beg)%Z with (Z.of_nat cnt) by lia.
  rewrite (to_int_small (Z.of_nat cnt))
    by range_lia.
  change 3%Z with (Z.ones 2). rewrite land_lnot_ones by lia.
  replace (2 ^ 2 * (Z.of_nat cnt / 2 ^ 2))%Z with (4 * Z.of_nat chunks)%Z
    by (unfold chunks; rewrite Nat2Z.inj_div; reflexivity).
  rewrite to_int_small by range_lia.
  rewrite for_int_iter_stride;
    [|lia| |]; try range_lia.
  destruct (neon_iter x h n chunks beg (vdupq_n_f32 0))
    as (accum & Hrun & Htot).
  { unfold window_ok in *. lia. }
  rewrite Hrun. cbn [bind].
  replace (beg + Z.of_nat cnt)%Z
    with (beg + 4 * Z.of_nat chunks + Z.of_nat rest)%Z by lia.
  rewrite scalar_loop_sum.
  - f_equal. rewrite Hcnt at 1. rewrite sum_from_app.
    replace (beg + Z.of_nat (4 * chunks))%Z
      with (beg + 4 * Z.of_nat chunks)%Z by lia.
    f_equal.
    transitivity (total4 accum).
    + unfold total4. cbn. ring.
    + rewrite Htot. unfold total4. cbn. ring.
  - unfold window_ok in *. lia.
  - unfold fits_int, INT_MIN, INT_MAX in *. lia.
Qed.

(** Whatever the target and the flag, the inner sum is the windowed sum. *)
Lemma inner_sum_window (t : target) (simd : bool) (x h : farray)
    (n beg : Z) (cnt : nat) :
  window_ok x h n beg cnt ->
  fits_int (beg + Z.of_nat cnt) ->
  inner_sum t simd x h n beg (beg + Z.of_nat cnt)
  = Some (sum_from (term x h n) beg cnt).
Proof.
  intros Hw Hf.
  assert (Hs : scalar_loop x h n beg (beg + Z.of_nat cnt) 0
               = Some (sum_from (term x h n) beg cnt)).
  { rewrite scalar_loop_sum by assumption. f_equal. ring. }
  destruct t, simd; cbn [inner_sum]; try exact Hs.
  - apply avx_sum_window; assumption.
  - apply neon_sum_window; assumption.
Qed.

(** ** The direct convolver computes the windowed sums *)

Lemma convolve_simd_unfold (t : target) (simd : bool) (x : farray)
    (xLength : Z) (h : farray) (hLength : Z) (result : farray) :
  convolve_simd t simd x xLength h hLength result
  = if ((xLength >? 0) && (hLength >? 0))%Z%bool then
      for_int 0 (to_int (to_size_t (xLength + hLength - 1))) 1
        (outer_body t simd x xLength h hLength) result
    else None.
Proof. reflexivity. Qed.

Lemma window_beg_small (x : farray) (n : Z) :
  (0 < len x)%Z -> fits_int (len x) -> (0 <= n)%Z -> fits_int n ->
  window_beg n (len x) = Z.max 0 (n - len x + 1).
Proof.
  intros Hpos Hx Hn Hfn. unfold window_beg.
  rewrite (to_int_small (len x)) by assumption.
  destruct (Z.ltb_spec n (len x)); [lia|].
  rewrite to_int_to_size_t, to_int_small; [lia|].
  unfold fits_int, INT_MIN, INT_MAX, len in *. lia.
Qed.

Lemma window_end_small (h : farray) (n : Z) :
  fits_int (len h) -> (0 <= n)%Z -> fits_int (n + 1) ->
  window_end n (len h) = Z.min (n + 1) (len h).
Proof.
  intros Hh Hn Hfn. unfold window_end.
  rewrite (to_int_small (len h)), (to_int_small (n + 1)) by assumption.
  destruct (Z.gtb_spec (n + 1) (len h)); lia.
Qed.

(** One iteration of the outer loop stores the windowed sum at [n]. *)
Lemma outer_body_step (t : target) (simd : bool) (x h result : farray)
    (n : Z) :
  (0 < len x)%Z -> (0 < len h)%Z ->
  (len x + len h - 1 <= INT_MAX)%Z ->
  (0 <= n < len x + len h - 1)%Z ->
  (n < len result)%Z ->
  exists out,
    outer_body t simd x (len x) h (len h) n result = Some out /\
    wr result n (direct_sum x h n) = Some out.
Proof.
  intros Hx Hh Hfit Hn Hr. unfold outer_body.
  assert (Hfx : fits_int (len x)) by range_lia.
  assert (Hfh : fits_int (len h)) by range_lia.
  rewrite window_beg_small, window_end_small;
    try assumption; try range_lia.
  set (lo := Z.max 0 (n - len x + 1)).
  set (cnt := Z.to_nat (Z.min n (len h - 1) - lo + 1)).
  replace (Z.min (n + 1) (len h)) with (lo + Z.of_nat cnt)%Z by lia.
  rewrite inner_sum_window.
  - cbn [bind]. fold (direct_sum x h n).
    destruct (wr_some result n (direct_sum x h n)) as [out Hout]; [lia|].
    exists out. unfold direct_sum. fold lo. fold cnt. auto.
  - unfold window_ok. lia.
  - unfold fits_int, INT_MIN, INT_MAX in *. lia.
Qed.

Lemma outer_iter (t : target) (simd : bool) (x h : farray) (cnt : nat) :
  (0 < len x)%Z -> (0 < len h)%Z ->
  (len x + len h - 1 <= INT_MAX)%Z ->
  forall (n0 : Z) (result : farray),
    (0 <= n0)%Z ->
    (n0 + Z.of_nat cnt <= len x + len h - 1)%Z ->
    (len x + len h - 1 <= len result)%Z ->
    exists out,
      iter_stride cnt n0 1 (outer_body t simd x (len x) h (len h)) result
      = Some out /\
      len out = len result /\
      forall j, (0 <= j)%Z ->
        rd out j = if ((n0 <=? j) && (j <? n0 + Z.of_nat cnt))%Z%bool
                   then Some (direct_sum x h j) else rd result j.
Proof.
  intros Hx Hh Hfit.
  induction cnt as [|c IH]; intros n0 result Hn0 Hup Hr.
  - exists result. split; [reflexivity|]. split; [reflexivity|].
    intros j Hj.
    destruct (Z.leb_spec n0 j), (Z.ltb_spec j (n0 + Z.of_nat 0));
      try reflexivity; lia.
  - cbn [iter_stride].
    destruct (outer_body_step t simd x h result n0) as (r1 & Hstep & Hwr);
      try assumption; try lia.
    rewrite Hstep. cbn [bind].
    pose proof (wr_len _ _ _ _ Hwr) as Hlen1.
    destruct (IH (n0 + 1)%Z r1) as (out & Hrun & Hlen & Hrd); try lia.
    exists out. split; [exact Hrun|]. split; [lia|].
    intros j Hj. rewrite (Hrd j Hj), (wr_rd _ _ j _ _ Hwr Hj).
    destruct (Z.leb_spec (n0 + 1) j), (Z.ltb_spec j (n0 + 1 + Z.of_nat c)),
      (Z.leb_spec n0 j), (Z.ltb_spec j (n0 + Z.of_nat (S c))),
      (Z.eqb_spec j n0); cbn [andb]; try reflexivity; try lia.
    subst j. reflexivity.
Qed.

Lemma sample_eqb_eq (u v : sample) : sample_eqb u v = true -> u = v.
Proof.
  intros H. apply Qc_is_canon. apply Qeq_bool_iff. exact H.
Qed.

Lemma farray_eqb_eq (a b : farray) : farray_eqb a b = true -> a = b.
Proof.
  revert b. induction a as [|u a IH]; intros [|v b] H;
    try discriminate; [reflexivity|].
  cbn [farray_eqb] in H. apply andb_true_iff in H as [Hu Ht].
  f_equal; [apply sample_eqb_eq; assumption|apply IH; assumption].
Qed.

Lemma result_eqb_eq (r s : option farray) : result_eqb r s = true -> r = s.
Proof.
  destruct r as [a|], s as [b|]; cbn; intros H; try discriminate;
    [f_equal; apply farray_eqb_eq; assumption|reflexivity].
Qed.

Lemma result_eqb_neq (r s : option farray) : result_eqb r s = false -> r <> s.
Proof.
  intros H ->. destruct s as [b|]; cbn in H; [|discriminate].
  assert (Hb : forall c : farray, farray_eqb c c = true).
  { induction c as [|u c IH]; [reflexivity|]. cbn [farray_eqb].
    rewrite IH. unfold sample_eqb.
    assert (Qeq_bool u u = true) as -> by (apply Qeq_bool_iff; reflexivity).
    reflexivity. }
  rewrite Hb in H. discriminate.
Qed.

(** On lengths that an [int] holds, the direct convolver terminates, and
    stores at every n of [0, N+M-1) the windowed sum. *)
Lemma convolve_simd_windowed (t : target) (simd : bool)
    (x h result : farray) :
  (0 < len x)%Z -> (0 < len h)%Z ->
  (len x + len h - 1 <= INT_MAX)%Z ->
  (len x + len h - 1 <= len result)%Z ->
  exists out,
    convolve_simd t simd x (len x) h (len h) result = Some out /\
    len out = len result /\
    (forall n, (0 <= n < len x + len h - 1)%Z ->
               rd out n = Some (direct_sum x h n)) /\
    (forall n, (len x + len h - 1 <= n)%Z -> rd out n = rd result n).
Proof.
  intros Hx Hh Hfit Hr. rewrite convolve_simd_unfold.
  destruct (Z.gtb_spec (len x) 0); [|lia].
  destruct (Z.gtb_spec (len h) 0); [|lia]. cbn [andb].
  assert (Hb : to_int (to_size_t (len x + len h - 1)) = (len x + len h - 1)%Z).
  { rewrite to_int_to_size_t, to_int_small; [reflexivity|].
    unfold fits_int, INT_MIN, INT_MAX in *. lia. }
  rewrite Hb.
  rewrite for_int_unit;
    try lia; try range_lia.
  replace (len x + len h - 1 - 0)%Z with (len x + len h - 1)%Z by lia.
  destruct (outer_iter t simd x h (Z.to_nat (len x + len h - 1)) Hx Hh Hfit
              0%Z result) as (out & Hrun & Hlen & Hrd); try lia.
  exists out. split; [exact Hrun|]. split; [exact Hlen|]. split.
  - intros n Hn. rewrite Hrd by lia.
    destruct (Z.leb_spec 0 n),
      (Z.ltb_spec n (0 + Z.of_nat (Z.to_nat (len x + len h - 1))));
      cbn [andb]; try reflexivity; lia.
  - intros n Hn. rewrite Hrd by lia.
    destruct (Z.leb_spec 0 n),
      (Z.ltb_spec n (0 + Z.of_nat (Z.to_nat (len x + len h - 1))));
      cbn [andb]; try reflexivity; lia.
Qed.

Lemma direct_sum_example :
  map (direct_sum example_x example_h) [0; 1; 2; 3; 4]%Z = example_out.
Proof. apply farray_eqb_eq. vm_compute. reflexivity. Qed.

(** An array is determined by its length and its reads. *)
Lemma farray_ext (a b : farray) :
  len a = len b ->
  (forall n, (0 <= n < len a)%Z -> rd a n = rd b n) ->
  a = b.
Proof.
  intros Hlen Hrd. apply nth_error_ext. intros k.
  destruct (Nat.ltb_spec k (length a)) as [Hk|Hk].
  - specialize (Hrd (Z.of_nat k)). unfold rd, len in *.
    destruct (Z.ltb_spec (Z.of_nat k) 0); [lia|].
    rewrite Nat2Z.id in Hrd. apply Hrd. lia.
  - unfold len in Hlen.
    rewrite (proj2 (nth_error_None a k)), (proj2 (nth_error_None b k)) by lia.
    reflexivity.
Qed.

(** C1 (amended). Over exact arithmetic (the samples of the embedding are
    rationals: no product and no sum is rounded), for a signal of length
    N > 0 and a kernel of length M > 0 with N+M-1 at most INT_MAX (the outer
    counter is an [int]), and a result buffer with room for N+M-1 samples,
    [convolve_simd], on every target and with either value of the flag,
    terminates and stores at each n of [0, N+M-1) the sum over m in
    [max(0, n-N+1), min(n, M-1)] of h[m]*x[n-m], leaving the rest of the
    buffer alone; and on x = [1,2,3], h = [0,1,0.5] the result is
    [0, 1, 2.5, 4, 1.5]. *)
Theorem convolve_simd_contract :
  (forall (t : target) (simd : bool) (x h result : farray),
      (0 < len x)%Z -> (0 < len h)%Z ->
      (len x + len h - 1 <= INT_MAX)%Z ->
      (len x + len h - 1 <= len result)%Z ->
      exists out,
        convolve_simd t simd x (len x) h (len h) result = Some out /\
        len out = len result /\
        (forall n, (0 <= n < len x + len h - 1)%Z ->
                   rd out n = Some (direct_sum x h n)) /\
        (forall n, (len x + len h - 1 <= n)%Z -> rd out n = rd result n)) /\
  (forall (t : target) (simd : bool) (result : farray),
      len result = 5%Z ->
      convolve_simd t simd example_x 3 example_h 3 result
      = Some example_out).
Proof.
  split; [intros; apply convolve_simd_windowed; assumption|].
  intros t simd result Hr.
  destruct (convolve_simd_windowed t simd example_x example_h result)
    as (out & Hrun & Hlen & Hrd & _);
    try (cbn; lia); try (rewrite Hr; cbn; lia).
  change (len example_x) with 3%Z in *. change (len example_h) with 3%Z in *.
  rewrite Hrun. f_equal. apply farray_ext.
  - rewrite Hlen, Hr. reflexivity.
  - intros n Hn. rewrite Hrd by lia. rewrite <- direct_sum_example.
    assert (Hc : (n = 0 \/ n = 1 \/ n = 2 \/ n = 3 \/ n = 4)%Z) by lia.
    destruct Hc as [ -> | [ -> | [ -> | [ -> | -> ] ] ] ]; reflexivity.
Qed.

(** The contract at the literal example, on the AVX path. *)
Lemma convolve_simd_contract_witness :
  exists out,
    convolve_simd AVX true example_x (len example_x) example_h (len example_h)
      example_buffer = Some out /\
    len out = len example_buffer /\
    (forall n, (0 <= n < len example_x + len example_h - 1)%Z ->
               rd out n = Some (direct_sum example_x example_h n)) /\
    (forall n, (len example_x + len example_h - 1 <= n)%Z ->
               rd out n = rd example_buffer n).
Proof.
  apply (proj1 convolve_simd_contract); vm_compute; congruence.
Defined.

(** C1 as stated fails when N+M-1 exceeds INT_MAX: on a signal of 2^31
    samples and a kernel of one sample the bound of the outer loop,
    converted to [int], is negative, the loop body never runs and the result
    buffer keeps its content, whereas the sum for n = 0 is h[0]*x[0] = 1. *)
Lemma convolve_simd_int_overflow :
  let x := repeat 1 (Z.to_nat (2 ^ 31)) in
  let h := [1] in
  let result := repeat 0 (Z.to_nat (2 ^ 31)) in
  (0 < len x)%Z /\ (0 < len h)%Z /\
  len result = (len x + len h - 1)%Z /\
  convolve_simd Generic false x (len x) h (len h) result = Some result /\
  rd result 0 = Some 0 /\
  direct_sum x h 0 = 1.
Proof.
  remember (Z.to_nat (2 ^ 31)) as k eqn:Hk.
  assert (Hk' : Z.of_nat k = (2 ^ 31)%Z) by (subst k; apply Z2Nat.id; lia).
  clear Hk. destruct k as [|k]; [discriminate|].
  intros x h result.
  assert (Hx : len x = (2 ^ 31)%Z)
    by (unfold len, x; rewrite repeat_length; exact Hk').
  assert (Hr : len result = (2 ^ 31)%Z)
    by (unfold len, result; rewrite repeat_length; exact Hk').
  assert (Hh : len h = 1%Z) by reflexivity.
  rewrite Hx, Hr, Hh.
  split; [lia|]. split; [lia|]. split; [lia|]. split; [|split].
  - rewrite convolve_simd_unfold.
    change ((2 ^ 31 >? 0) && (1 >? 0))%Z%bool with true. cbv iota.
    change (to_int (to_size_t (2 ^ 31 + 1 - 1))) with (- 2 ^ 31)%Z.
    apply for_int_empty. lia.
  - reflexivity.
  - unfold direct_sum. rewrite Hx, Hh.
    change (Z.to_nat (Z.min 0 (1 - 1) - Z.max 0 (0 - 2 ^ 31 + 1) + 1))
      with 1%nat.
    change (Z.max 0 (0 - 2 ^ 31 + 1)) with 0%Z.
    cbn [sum_from]. unfold term, at0, x, h.
    change (rd [1] 0) with (Some 1).
    change (rd (repeat 1 (S k)) (0 - 0)) with (Some 1).
    apply sample_eqb_eq. reflexivity.
Qed.

(** ** The vector path against the scalar path *)

Lemma iter_stride_ext {St : Type} (f g : Z -> St -> option St) (stride : Z)
    (cnt : nat) :
  forall (m : Z) (s : St),
    (forall (j : nat) (s' : St), (j < cnt)%nat ->
        f (m + stride * Z.of_nat j)%Z s' = g (m + stride * Z.of_nat j)%Z s') ->
    iter_stride cnt m stride f s = iter_stride cnt m stride g s.
Proof.
  induction cnt as [|c IH]; intros m s H; [reflexivity|].
  cbn [iter_stride].
  pose proof (H O s) as H0. replace (m + stride * Z.of_nat 0)%Z with m in H0
    by lia.
  rewrite H0 by lia. destruct (g m s) as [s'|]; cbn [bind]; [|reflexivity].
  apply IH. intros j s'' Hj.
  pose proof (H (S j) s'') as Hs.
  replace (m + stride * Z.of_nat (S j))%Z
    with (m + stride + stride * Z.of_nat j)%Z in Hs by lia.
  apply Hs. lia.
Qed.

(** Within the range of [int], the inner sum does not depend on the flag. *)
Lemma inner_sum_flag (t : target) (x h : farray) (n : Z) :
  (0 < len x)%Z -> (0 < len h)%Z ->
  (len x + len h - 1 <= INT_MAX)%Z ->
  (0 <= n < len x + len h - 1)%Z ->
  inner_sum t true x h n (window_beg n (len x)) (window_end n (len h))
  = inner_sum t false x h n (window_beg n (len x)) (window_end n (len h)).
Proof.
  intros Hx Hh Hfit Hn.
  rewrite window_beg_small, window_end_small;
    try assumption; try range_lia.
  set (lo := Z.max 0 (n - len x + 1)).
  set (cnt := Z.to_nat (Z.min n (len h - 1) - lo + 1)).
  replace (Z.min (n + 1) (len h)) with (lo + Z.of_nat cnt)%Z by lia.
  rewrite !inner_sum_window; try reflexivity;
    try (unfold window_ok; lia);
    try range_lia.
Qed.

(** C8 (amended). For x, h of lengths N, M > 0 with N+M-1 at most INT_MAX,
    on every target, [convolve_simd] with the flag set (full vector chunks
    over the window, x read in reverse, then the scalar remainder) gives the
    same result as with the flag clear, whatever the result buffer; and with
    a buffer that has room for the N+M-1 samples that result is defined. *)
Theorem convolve_simd_flag_irrelevant (t : target) (x h result : farray) :
  (0 < len x)%Z -> (0 < len h)%Z ->
  (len x + len h - 1 <= INT_MAX)%Z ->
  convolve_simd t true x (len x) h (len h) result
  = convolve_simd t false x (len x) h (len h) result /\
  ((len x + len h - 1 <= len result)%Z ->
   exists out, convolve_simd t false x (len x) h (len h) result = Some out).
Proof.
  intros Hx Hh Hfit. split.
  - rewrite !convolve_simd_unfold.
    destruct ((len x >? 0) && (len h >? 0))%Z%bool; [|reflexivity].
    assert (Hb : to_int (to_size_t (len x + len h - 1))
                 = (len x + len h - 1)%Z).
    { rewrite to_int_to_size_t, to_int_small; [reflexivity|].
      unfold fits_int, INT_MIN, INT_MAX in *. lia. }
    rewrite Hb.
    rewrite !for_int_unit;
      try lia; try range_lia.
    apply iter_stride_ext. intros j s Hj. unfold outer_body.
    rewrite inner_sum_flag; try assumption; [reflexivity|lia].
  - intros Hr.
    destruct (convolve_simd_windowed t false x h result Hx Hh Hfit Hr)
      as (out & Hrun & _).
    exists out. exact Hrun.
Qed.

(** The two paths agree on the literal example, on AVX. *)
Lemma convolve_simd_flag_irrelevant_witness :
  convolve_simd AVX true example_x (len example_x) example_h (len example_h)
    example_buffer
  = convolve_simd AVX false example_x (len example_x) example_h
      (len example_h) example_buffer /\
  ((len example_x + len example_h - 1 <= len example_buffer)%Z ->
   exists out,
     convolve_simd AVX false example_x (len example_x) example_h
       (len example_h) example_buffer = Some out).
Proof.
  apply (convolve_simd_flag_irrelevant AVX example_x example_h);
    vm_compute; congruence.
Defined.

(** C8 as stated fails beyond the range of [int]: with a signal of 5
    samples and a kernel of 2^32-3 samples the loop bound converts to 1 and
    the kernel length to -3, so that at n = 0 the window is [0, -3). The
    scalar loop does not run and stores 0; the AVX path rounds the negative
    width down to -8 and its remainder loop starts at m = -8, reading h[-8]
    and x[8], outside of both arrays. *)
Lemma convolve_simd_flag_overflow :
  let x := repeat 1 5 in
  let h := repeat 1 (Z.to_nat (2 ^ 32 - 3)) in
  let result := repeat 0 (Z.to_nat (2 ^ 32 + 1)) in
  (0 < len x)%Z /\ (0 < len h)%Z /\
  len result = (len x + len h - 1)%Z /\
  convolve_simd AVX false x (len x) h (len h) result = Some result /\
  convolve_simd AVX true x (len x) h (len h) result = None.
Proof.
  remember (Z.to_nat (2 ^ 32 - 3)) as k eqn:Hk.
  assert (Hk' : Z.of_nat k = (2 ^ 32 - 3)%Z) by (subst k; apply Z2Nat.id; lia).
  clear Hk.
  remember (Z.to_nat (2 ^ 32 + 1)) as r eqn:Hr.
  assert (Hr' : Z.of_nat r = (2 ^ 32 + 1)%Z) by (subst r; apply Z2Nat.id; lia).
  clear Hr. destruct r as [|r]; [discriminate|].
  intros x h result.
  assert (Hx : len x = 5%Z) by reflexivity.
  assert (Hh : len h = (2 ^ 32 - 3)%Z)
    by (unfold len, h; rewrite repeat_length; exact Hk').
  assert (Hres : len result = (2 ^ 32 + 1)%Z)
    by (unfold len, result; rewrite repeat_length; exact Hr').
  rewrite Hx, Hh, Hres. clearbody h. unfold x, result. cbn [repeat].
  generalize (repeat 0 r). intros tail.
  split; [lia|]. split; [lia|]. split; [lia|].
  split; reflexivity.
Qed.

(** ** Sizes chosen by the initializers *)

Lemma shift_loop_log2 (fuel : nat) :
  forall (L log : Z),
    (0 < L < 2 ^ Z.of_nat fuel)%Z ->
    (0 <= log)%Z -> (log + Z.of_nat fuel <= INT_MAX)%Z ->
    shift_loop fuel L log = Some (log + Z.log2 L)%Z.
Proof.
  induction fuel as [|f IH]; intros L log HL Hlog Hfit.
  - cbn in HL. lia.
  - cbn [shift_loop]. rewrite Z.shiftr_div_pow2 by lia.
    change (2 ^ 1)%Z with 2%Z.
    destruct (Z.eqb_spec (L / 2) 0) as [E|E].
    + assert (L = 1%Z).
      { apply Z.div_small_iff in E; lia. }
      subst L. f_equal. cbn. lia.
    + assert (HL2 : (2 <= L)%Z).
      { destruct (Z.lt_ge_cases L 2) as [Hl|Hl]; [|exact Hl].
        exfalso. apply E. apply Z.div_small. lia. }
      rewrite to_int_small
        by range_lia.
      rewrite IH.
      * f_equal.
        replace (L / 2)%Z with (Z.shiftr L 1)
          by (rewrite Z.shiftr_div_pow2 by lia; reflexivity).
        rewrite Z.log2_shiftr by lia.
        pose proof (Z.log2_le_mono 2 L HL2) as Hm.
        change (Z.log2 2) with 1%Z in Hm. lia.
      * split; [apply Z.div_str_pos; lia|].
        apply Z.div_lt_upper_bound; [lia|].
        replace (Z.of_nat (S f)) with (Z.of_nat f + 1)%Z in HL by lia.
        rewrite Z.pow_add_r in HL by lia. lia.
      * lia.
      * lia.
Qed.

(** [M & (M - 1)] vanishes exactly on the powers of two. *)
Lemma land_pred_pow2 (k : Z) :
  (0 <= k)%Z -> Z.land (2 ^ k) (2 ^ k - 1) = 0%Z.
Proof.
  intros Hk. replace (2 ^ k - 1)%Z with (Z.ones k)
    by (rewrite Z.ones_equiv; lia).
  rewrite Z.land_ones by assumption. apply Z.mod_same.
  pose proof (Z.pow_pos_nonneg 2 k). lia.
Qed.

Lemma land_pred_zero_pow2 (M : Z) :
  (0 < M)%Z -> Z.land M (M - 1) = 0%Z -> M = (2 ^ Z.log2 M)%Z.
Proof.
  intros HM Hland.
  destruct (Z.log2_spec M HM) as [Hlo Hhi].
  destruct (Z.eq_dec M (2 ^ Z.log2 M)) as [E|E]; [exact E|exfalso].
  assert (Hk : (0 <= Z.log2 M)%Z) by apply Z.log2_nonneg.
  assert (Hbit : Z.testbit (Z.land M (M - 1)) (Z.log2 M) = true).
  { rewrite Z.land_spec, Z.bit_log2 by assumption.
    assert (Hl : Z.log2 (M - 1) = Z.log2 M).
    { apply Z.log2_unique; [assumption|]. lia. }
    rewrite <- Hl. rewrite Z.bit_log2 by lia. reflexivity. }
  rewrite Hland, Z.bits_0 in Hbit. discriminate.
Qed.

Lemma pow2_lt_double (p q : Z) :
  is_pow2 p -> is_pow2 q -> (p < q)%Z -> (2 * p <= q)%Z.
Proof.
  intros (j & Hj & ->) (k & Hk & ->) Hlt.
  assert (Hjk : (j < k)%Z) by (apply (Z.pow_lt_mono_r_iff 2); lia).
  replace (2 * 2 ^ j)%Z with (2 ^ (j + 1))%Z
    by (rewrite Z.pow_add_r by lia; lia).
  apply Z.pow_le_mono_r; lia.
Qed.

(** Up to 2^30 the rounding terminates and yields a power of two that is
    at least [M] and less than its double; [M] itself when it is one. *)
Lemma round_up_to_pow2_spec (M : Z) :
  (0 < M <= 2 ^ 30)%Z ->
  exists P, round_up_to_pow2 M = Ok P /\
            is_pow2 P /\ (M <= P < 2 * M)%Z /\ (P <= 2 ^ 30)%Z.
Proof.
  intros HM. unfold round_up_to_pow2.
  rewrite (to_int_small (M - 1))
    by range_lia.
  destruct (Z.eqb_spec (Z.land M (M - 1)) 0) as [E|E]; cbn [negb].
  - exists M. split; [reflexivity|]. split.
    + exists (Z.log2 M). split; [apply Z.log2_nonneg|].
      apply land_pred_zero_pow2; [lia|exact E].
    + lia.
  - assert (Hnp : M <> (2 ^ 30)%Z).
    { intros ->. apply E. apply (land_pred_pow2 30). lia. }
    unfold shift_fuel. rewrite shift_loop_log2;
      [|cbn; lia|lia|unfold INT_MAX; cbn; lia].
    cbn [defined obind].
    assert (Hlog : (0 <= Z.log2 M < 30)%Z).
    { split; [apply Z.log2_nonneg|]. apply Z.log2_lt_pow2; lia. }
    destruct (Z.log2_spec M) as [Hlo Hhi]; [lia|].
    rewrite Z.shiftl_1_l.
    assert (Hle : (2 ^ (1 + Z.log2 M) <= 2 ^ 30)%Z)
      by (apply Z.pow_le_mono_r; lia).
    rewrite to_int_small.
    2:{ unfold fits_int, INT_MIN, INT_MAX.
        pose proof (Z.pow_pos_nonneg 2 (1 + Z.log2 M)). lia. }
    exists (2 ^ (1 + Z.log2 M))%Z. split; [reflexivity|]. split.
    + exists (1 + Z.log2 M)%Z. split; [lia|reflexivity].
    + assert (Hne : M <> (2 ^ Z.log2 M)%Z).
      { intros Heq. apply E. rewrite Heq at 1 2.
        apply land_pred_pow2. lia. }
      replace (1 + Z.log2 M)%Z with (Z.succ (Z.log2 M)) in * by lia.
      rewrite Z.pow_succ_r in * by lia. lia.
Qed.

Lemma mallocf_len (heap : nat -> sample) (n : Z) (a : farray) :
  (0 <= n)%Z -> mallocf heap n = Some a -> len a = n.
Proof.
  unfold mallocf, len. intros Hn.
  destruct (n <=? MAX_FLOATS)%Z; [|discriminate].
  intros [= <-]. rewrite length_map, length_seq. lia.
Qed.

Lemma mallocf_some (heap : nat -> sample) (n : Z) :
  (n <= MAX_FLOATS)%Z -> exists a, mallocf heap n = Some a.
Proof.
  unfold mallocf. intros Hn.
  destruct (Z.leb_spec n MAX_FLOATS); [eauto|lia].
Qed.

Lemma memsetf_some (a : farray) (off : Z) (v : sample) (n : Z) :
  (0 <= off)%Z -> (0 <= n)%Z -> (off + n <= len a)%Z ->
  exists a', memsetf a off v n = Some a' /\ len a' = len a.
Proof.
  intros Ho Hn Hb. unfold memsetf.
  destruct (Z.leb_spec 0 off), (Z.leb_spec 0 n), (Z.leb_spec (off + n) (len a));
    try lia. cbn [andb].
  eexists. split; [reflexivity|].
  unfold len in *. rewrite !length_app, length_firstn, repeat_length, length_skipn.
  lia.
Qed.

(** The single-shot initializer succeeds up to an output length of 2^30. *)
Lemma convolve_fft_initialize_ok (heap : nat -> sample) (xLength hLength : Z) :
  (0 < xLength)%Z -> (0 < hLength)%Z ->
  (out_length xLength hLength <= 2 ^ 30)%Z ->
  exists P X H,
    round_up_to_pow2 (out_length xLength hLength) = Ok P /\
    convolve_fft_initialize heap xLength hLength
    = Ok (MkFFT xLength hLength false P X H
            (fftf_init_batch FFTF_DIRECTION_FORWARD P 2)
            (fftf_init FFTF_DIRECTION_BACKWARD P)) /\
    len X = (P + 2)%Z /\ len H = (P + 2)%Z.
Proof.
  unfold out_length. intros Hx Hh Hout.
  destruct (round_up_to_pow2_spec (xLength + hLength - 1))
    as (P & HP & Hpow & Hrange & Hmax); [lia|].
  unfold convolve_fft_initialize.
  destruct (Z.gtb_spec hLength 0) as [G1|G1]; [|lia].
  destruct (Z.gtb_spec xLength 0) as [G2|G2]; [|lia].
  cbn [assert obind].
  rewrite to_int_to_size_t, to_int_small
    by range_lia.
  rewrite HP. cbn [obind].
  rewrite (to_int_small (P + 2)) by range_lia.
  rewrite (to_size_t_small (P + 2))
    by range_lia.
  rewrite !to_size_t_small by range_lia.
  destruct (mallocf_some heap (P + 2)) as [X0 HX0];
    [unfold MAX_FLOATS; lia|].
  pose proof (mallocf_len heap (P + 2) X0 ltac:(lia) HX0) as HlenX0.
  rewrite HX0. cbn [defined obind].
  destruct (memsetf_some X0 xLength 0 (P + 2 - xLength))
    as (X & HX & HlenX); try lia.
  destruct (memsetf_some X0 hLength 0 (P + 2 - hLength))
    as (H & HH & HlenH); try lia.
  rewrite HX, HH. cbn [defined obind].
  exists P, X, H. repeat split; congruence.
Qed.

(** C10 (amended). For xLength, hLength > 0 with outLen = xLength+hLength-1
    at most 2^30, [convolve_fft_initialize] returns a handle whose transform
    size is the smallest power of two that is at least outLen (outLen itself
    when it is a power of two), with exactly two buffers, each of
    transformSize+2 floats. *)
Theorem convolve_fft_initialize_size (heap : nat -> sample)
    (xLength hLength : Z) :
  (0 < xLength)%Z -> (0 < hLength)%Z ->
  (out_length xLength hLength <= 2 ^ 30)%Z ->
  exists handle,
    convolve_fft_initialize heap xLength hLength = Ok handle /\
    is_pow2 (fft_M handle) /\
    (out_length xLength hLength <= fft_M handle)%Z /\
    (forall p, is_pow2 p -> (out_length xLength hLength <= p)%Z ->
               (fft_M handle <= p)%Z) /\
    (is_pow2 (out_length xLength hLength) ->
     fft_M handle = out_length xLength hLength) /\
    len (fft_inputs0 handle) = (fft_M handle + 2)%Z /\
    len (fft_inputs1 handle) = (fft_M handle + 2)%Z.
Proof.
  intros Hx Hh Hout.
  destruct (convolve_fft_initialize_ok heap xLength hLength Hx Hh Hout)
    as (P & X & H & HP & Hinit & HlenX & HlenH).
  destruct (round_up_to_pow2_spec (out_length xLength hLength))
    as (P' & HP' & Hpow & Hrange & Hmax); [unfold out_length in *; lia|].
  assert (P' = P) by congruence. subst P'.
  assert (Hmin : forall p, is_pow2 p ->
            (out_length xLength hLength <= p)%Z -> (P <= p)%Z).
  { intros p Hp Hle. destruct (Z.le_gt_cases P p) as [Hc|Hc]; [exact Hc|].
    pose proof (pow2_lt_double p P Hp Hpow ltac:(lia)). lia. }
  eexists. split; [exact Hinit|]. cbn.
  split; [exact Hpow|]. split; [lia|]. split; [exact Hmin|].
  split; [|split; assumption].
  intros Hself. specialize (Hmin _ Hself ltac:(lia)). lia.
Qed.

(** For a signal of 2 samples and a kernel of 2, the transform size is 4
    and the two buffers hold 6 floats each. *)
Lemma convolve_fft_initialize_size_witness :
  exists handle,
    convolve_fft_initialize zero_heap 2 2 = Ok handle /\
    is_pow2 (fft_M handle) /\
    (out_length 2 2 <= fft_M handle)%Z /\
    (forall p, is_pow2 p -> (out_length 2 2 <= p)%Z ->
               (fft_M handle <= p)%Z) /\
    (is_pow2 (out_length 2 2) -> fft_M handle = out_length 2 2) /\
    len (fft_inputs0 handle) = (fft_M handle + 2)%Z /\
    len (fft_inputs1 handle) = (fft_M handle + 2)%Z.
Proof.
  apply (convolve_fft_initialize_size zero_heap 2 2); vm_compute; congruence.
Defined.

(** C10 as stated fails above 2^30: for xLength = 2^30 and hLength = 2 the
    output length 2^30+1 is rounded to [1 << 31], which is not an [int]; the
    wrapped value is negative, the allocation of M+2 floats returns the null
    pointer, and the unchecked padding of X goes through it. *)
Lemma convolve_fft_initialize_overflow :
  (0 < 2 ^ 30)%Z /\ (0 < 2)%Z /\
  round_up_to_pow2 (to_int (to_size_t (2 ^ 30 + 2 - 1))) = Ok (- 2 ^ 31)%Z /\
  convolve_fft_initialize zero_heap (2 ^ 30) 2 = Undefined.
Proof.
  split; [lia|]. split; [lia|]. split; reflexivity.
Qed.

(** ** The selector *)

(** A handle that [convolve_initialize] returns carries the chosen
    algorithm and the two lengths. *)
Lemma convolve_initialize_algorithm (heap : nat -> sample) (t : target)
    (xLength hLength : Z) (hd : ConvolutionHandle) :
  convolve_initialize heap t xLength hLength = Ok hd ->
  algorithm hd = algorithm_choice t xLength hLength /\
  x_length hd = xLength /\ h_length hd = hLength.
Proof.
  unfold convolve_initialize, algorithm_choice.
  destruct (xLength >? to_size_t (hLength * 2))%Z.
  - destruct (xLength >? long_threshold)%Z.
    + destruct (convolve_overlap_save_initialize heap xLength hLength);
        cbn [obind]; intros [= <-]; auto.
    + intros [= <-]; auto.
  - destruct (xLength >? medium_threshold t)%Z.
    + destruct (convolve_fft_initialize heap xLength hLength);
        cbn [obind]; intros [= <-]; auto.
    + intros [= <-]; auto.
Qed.

(** C5 (amended). For xLength > 0 and 0 < hLength < 2^63 (so that
    2*hLength is a [size_t]), the selector chooses OverlapSave if and only
    if xLength > 2*hLength and xLength > 200, the single-shot transform if
    and only if xLength <= 2*hLength and xLength exceeds the medium
    threshold (50 under NEON, 350 on the other builds), and the direct
    method in every other case; a handle that [convolve_initialize] returns
    carries that choice. *)
Theorem convolve_initialize_selection (t : target) (xLength hLength : Z) :
  (0 < xLength)%Z -> (0 < hLength < 2 ^ 63)%Z ->
  (algorithm_choice t xLength hLength = kConvolutionAlgorithmOverlapSave
   <-> (xLength > 2 * hLength /\ xLength > 200)%Z) /\
  (algorithm_choice t xLength hLength = kConvolutionAlgorithmFFT
   <-> (xLength <= 2 * hLength /\ xLength > medium_threshold t)%Z) /\
  (algorithm_choice t xLength hLength = kConvolutionAlgorithmBruteForce
   <-> ~ (xLength > 2 * hLength /\ xLength > 200)%Z /\
       ~ (xLength <= 2 * hLength /\ xLength > medium_threshold t)%Z) /\
  medium_threshold AVX = 350%Z /\ medium_threshold Generic = 350%Z /\
  medium_threshold NEON = 50%Z /\
  (forall heap hd,
      convolve_initialize heap t xLength hLength = Ok hd ->
      algorithm hd = algorithm_choice t xLength hLength).
Proof.
  intros Hx Hh.
  assert (Hsel : forall heap hd,
             convolve_initialize heap t xLength hLength = Ok hd ->
             algorithm hd = algorithm_choice t xLength hLength).
  { intros heap hd Hi.
    apply (convolve_initialize_algorithm heap t xLength hLength hd Hi). }
  revert Hsel. unfold algorithm_choice, long_threshold.
  rewrite to_size_t_small by range_lia.
  intros Hsel.
  destruct (Z.gtb_spec xLength (hLength * 2)) as [G1|G1],
    (Z.gtb_spec xLength 200) as [G2|G2],
    (Z.gtb_spec xLength (medium_threshold t)) as [G3|G3];
    (split; [split; [intros E|intros E]|
     split; [split; [intros E|intros E]|
     split; [split; [intros E|intros E]|
     split; [reflexivity|split; [reflexivity|split; [reflexivity|]]]]]]);
    try exact Hsel; try discriminate; try reflexivity; try lia.
Qed.

(** The selection for a signal of 1000 samples and a kernel of 10. *)
Lemma convolve_initialize_selection_witness :
  (algorithm_choice AVX 1000 10 = kConvolutionAlgorithmOverlapSave
   <-> (1000 > 2 * 10 /\ 1000 > 200)%Z) /\
  (algorithm_choice AVX 1000 10 = kConvolutionAlgorithmFFT
   <-> (1000 <= 2 * 10 /\ 1000 > medium_threshold AVX)%Z) /\
  (algorithm_choice AVX 1000 10 = kConvolutionAlgorithmBruteForce
   <-> ~ (1000 > 2 * 10 /\ 1000 > 200)%Z /\
       ~ (1000 <= 2 * 10 /\ 1000 > medium_threshold AVX)%Z) /\
  medium_threshold AVX = 350%Z /\ medium_threshold Generic = 350%Z /\
  medium_threshold NEON = 50%Z /\
  (forall heap hd,
      convolve_initialize heap AVX 1000 10 = Ok hd ->
      algorithm hd = algorithm_choice AVX 1000 10).
Proof.
  apply (convolve_initialize_selection AVX 1000 10); lia.
Defined.

(** C5 as stated fails when 2*hLength wraps around in [size_t]: for
    xLength = 201 and hLength = 2^63 the product is 0, the first test
    succeeds and OverlapSave is chosen, although 201 <= 2*hLength. *)
Lemma convolve_initialize_selection_wraps :
  (0 < 201)%Z /\ (0 < 2 ^ 63)%Z /\
  algorithm_choice AVX 201 (2 ^ 63) = kConvolutionAlgorithmOverlapSave /\
  ~ (201 > 2 * 2 ^ 63 /\ 201 > 200)%Z.
Proof.
  split; [lia|]. split; [lia|]. split; [reflexivity|lia].
Qed.

(** C4, at the failing input. With xLength = 201 and hLength = 100 the
    selector chooses OverlapSave (201 > 2*100 and 201 > 200), but
    201/2 = 100 in integer division, so that the first assertion of
    [convolve_overlap_save_initialize], hLength < xLength/2, fails. *)
Theorem convolve_initialize_assertion_fires (heap : nat -> sample)
    (t : target) :
  algorithm_choice t 201 100 = kConvolutionAlgorithmOverlapSave /\
  (201 > 2 * 100 /\ 201 > 200)%Z /\
  convolve_overlap_save_initialize heap 201 100 = AssertionFailed /\
  convolve_initialize heap t 201 100 = AssertionFailed.
Proof.
  split; [reflexivity|]. split; [lia|]. split; reflexivity.
Qed.

(** C6, at the failing input. With a zero length and a direct selection
    no assertion is evaluated: [convolve_initialize] returns a brute-force
    handle, for xLength = 0 as for hLength = 0. *)
Theorem convolve_initialize_accepts_zero (heap : nat -> sample) (t : target) :
  convolve_initialize heap t 0 5
  = Ok (MkHandle kConvolutionAlgorithmBruteForce 0 5 union_unset) /\
  convolve_initialize heap t 5 0
  = Ok (MkHandle kConvolutionAlgorithmBruteForce 5 0 union_unset).
Proof.
  split; destruct t; reflexivity.
Qed.

(** ** Recorded lengths of the handles in use *)

(** A block that [mallocf] returned for a size converted from an [int]
    holds at most INT_MAX floats. *)
Lemma mallocf_int_len (heap : nat -> sample) (v : Z) (a : farray) :
  mallocf heap (to_size_t (to_int v)) = Some a ->
  (0 <= len a <= INT_MAX)%Z.
Proof.
  intros Hm. pose proof (to_int_fits v) as Hf.
  unfold fits_int, INT_MIN, INT_MAX in *.
  assert (Hs : (0 <= to_size_t (to_int v))%Z).
  { unfold to_size_t, size_t_modulus. apply Z.mod_pos_bound. lia. }
  rewrite (mallocf_len heap _ a Hs Hm).
  destruct (Z.lt_ge_cases (to_int v) 0) as [Hneg|Hpos].
  - exfalso. unfold mallocf in Hm.
    assert (Hbig : to_size_t (to_int v) = (to_int v + 2 ^ 64)%Z).
    { unfold to_size_t, size_t_modulus.
      rewrite <- (Z.mod_add _ 1) by lia.
      rewrite Z.mod_small; lia. }
    rewrite Hbig in Hm.
    destruct (Z.leb_spec (to_int v + 2 ^ 64) MAX_FLOATS) as [Hle|Hle];
      [unfold MAX_FLOATS in Hle; lia|discriminate].
  - rewrite to_size_t_small by range_lia.
    lia.
Qed.

Lemma memsetf_inv (a : farray) (off : Z) (v : sample) (n : Z) (a' : farray) :
  memsetf a off v n = Some a' ->
  (0 <= off /\ 0 <= n /\ off + n <= len a)%Z /\ len a' = len a.
Proof.
  intros Hm.
  assert (Hc : (0 <= off /\ 0 <= n /\ off + n <= len a)%Z).
  { unfold memsetf in Hm.
    destruct (Z.leb_spec 0 off), (Z.leb_spec 0 n),
      (Z.leb_spec (off + n) (len a)); cbn [andb] in Hm;
      try discriminate. lia. }
  split; [exact Hc|].
  destruct (memsetf_some a off v n) as (a'' & Hs & Hl); try lia.
  congruence.
Qed.

Lemma convolve_fft_initialize_inv (heap : nat -> sample)
    (xLength hLength : Z) (hd : ConvolutionFFTHandle) :
  convolve_fft_initialize heap xLength hLength = Ok hd ->
  fft_x_length hd = xLength /\ fft_h_length hd = hLength /\
  fft_reverse hd = false /\
  (0 < xLength <= INT_MAX)%Z /\ (0 < hLength <= INT_MAX)%Z.
Proof.
  unfold convolve_fft_initialize.
  destruct (Z.gtb_spec hLength 0) as [G1|G1]; [|discriminate].
  destruct (Z.gtb_spec xLength 0) as [G2|G2]; [|discriminate].
  cbn [assert obind].
  destruct (round_up_to_pow2 _) as [P| |]; cbn [obind]; try discriminate.
  destruct (mallocf heap (to_size_t (to_int (P + 2)))) as [X0|] eqn:EX0;
    cbn [defined obind]; [|discriminate].
  pose proof (mallocf_int_len heap _ _ EX0) as HlenX0.
  destruct (memsetf X0 xLength 0 _) as [X|] eqn:EX;
    cbn [defined obind]; [|discriminate].
  destruct (memsetf X0 hLength 0 _) as [H|] eqn:EH;
    cbn [defined obind]; [|discriminate].
  apply memsetf_inv in EX as [EX _]. apply memsetf_inv in EH as [EH _].
  intros [= <-]. cbn [fft_x_length fft_h_length fft_reverse].
  unfold INT_MAX in *. repeat split; lia.
Qed.

Lemma convolve_fft_lengths (fftf : fftf_backend) (hd hd' : ConvolutionFFTHandle)
    (x h result result' : farray) :
  convolve_fft fftf hd x h result = Some (result', hd') ->
  fft_x_length hd' = fft_x_length hd /\ fft_h_length hd' = fft_h_length hd.
Proof.
  unfold convolve_fft.
  destruct (memcpy (fft_inputs0 hd) 0 x 0 _); cbn [bind]; [|discriminate].
  destruct (if fft_reverse hd then _ else _); cbn [bind]; [|discriminate].
  destruct (spectrum_multiply _ _ _); cbn [bind]; [|discriminate].
  destruct (real_multiply_scalar _ _ _ _ _ _); cbn [bind]; [|discriminate].
  intros [= _ <-]. cbn. auto.
Qed.

Lemma fft_handle_h_length (fftf : fftf_backend) (hd : ConvolutionFFTHandle) :
  fft_handle fftf hd -> (0 < fft_h_length hd <= INT_MAX)%Z.
Proof.
  induction 1 as [heap xL hL hd Hi|b hd _ IH|hd x h r r' hd' _ IH Hrun].
  - apply convolve_fft_initialize_inv in Hi. destruct Hi as (_ & -> & _ & _ & Hh).
    exact Hh.
  - exact IH.
  - apply convolve_fft_lengths in Hrun. destruct Hrun as [_ ->]. exact IH.
Qed.

Lemma convolve_overlap_save_initialize_inv (heap : nat -> sample)
    (xLength hLength : Z) (hd : ConvolutionOverlapSaveHandle) :
  convolve_overlap_save_initialize heap xLength hLength = Ok hd ->
  os_x_length hd = xLength /\ os_h_length hd = hLength /\
  os_reverse hd = false /\
  (0 < hLength <= INT_MAX)%Z /\ (hLength < xLength / 2)%Z.
Proof.
  unfold convolve_overlap_save_initialize.
  destruct (Z.ltb_spec hLength (xLength / 2)) as [G0|G0]; [|discriminate].
  destruct (Z.gtb_spec xLength 0) as [G1|G1]; [|discriminate].
  destruct (Z.gtb_spec hLength 0) as [G2|G2]; [|discriminate].
  cbn [assert obind].
  destruct (shift_loop shift_fuel (to_int hLength) 2) as [log|];
    cbn [defined obind]; [|discriminate].
  unfold mallocf_checked.
  destruct (mallocf heap _) as [H0|] eqn:EH0; cbn [obind]; [|discriminate].
  pose proof (mallocf_int_len heap _ _ EH0) as HlenH0.
  destruct (memsetf H0 hLength 0 _) as [H|] eqn:EH;
    cbn [defined obind]; [|discriminate].
  apply memsetf_inv in EH as [EH _].
  intros [= <-].
  cbn [os_x_length os_h_length os_reverse].
  unfold INT_MAX in *. repeat split; lia.
Qed.

Lemma convolve_overlap_save_lengths (fftf : fftf_backend)
    (hd hd' : ConvolutionOverlapSaveHandle) (x h result result' : farray) :
  convolve_overlap_save fftf hd x h result = Some (result', hd') ->
  os_x_length hd' = os_x_length hd /\ os_h_length hd' = os_h_length hd /\
  os_L hd' = os_L hd.
Proof.
  unfold convolve_overlap_save.
  destruct (if os_reverse hd then _ else _); cbn [bind]; [|discriminate].
  destruct (memsetf _ _ _ _); cbn [bind]; [|discriminate].
  destruct (memcpy (os_H hd) _ _ _ _); cbn [bind]; [|discriminate].
  destruct (loop_size_t _ _ _ _ _ _); cbn [bind]; [|discriminate].
  intros [= _ <-]. cbn. auto.
Qed.

Lemma os_handle_h_length (fftf : fftf_backend)
    (hd : ConvolutionOverlapSaveHandle) :
  os_handle fftf hd -> (0 < os_h_length hd <= INT_MAX)%Z.
Proof.
  induction 1 as [heap xL hL hd Hi|b hd _ IH|hd x h r r' hd' _ IH Hrun].
  - apply convolve_overlap_save_initialize_inv in Hi.
    destruct Hi as (_ & -> & _ & Hh & _). exact Hh.
  - exact IH.
  - apply convolve_overlap_save_lengths in Hrun.
    destruct Hrun as (_ & -> & _). exact IH.
Qed.

(** ** The reverse flag *)

(** A reverse copy of the whole of [h] is a plain copy of [rev h]. *)
Lemma rmemcpyf_rev (dst h : farray) :
  rmemcpyf dst h (len h) = memcpy dst 0 (rev h) 0 (len h).
Proof.
  unfold rmemcpyf, memcpy.
  assert (Hr : len (rev h) = len h) by (unfold len; rewrite length_rev; reflexivity).
  rewrite Hr. cbn [Z.leb Z.compare andb Z.add].
  assert (H0 : (0 <=? len h)%Z = true) by (apply Z.leb_le; unfold len; lia).
  rewrite H0, Z.leb_refl, andb_true_r. cbn [andb].
  destruct (len h <=? len dst)%Z; [|reflexivity].
  f_equal. cbn [Z.to_nat firstn skipn app].
  unfold len. rewrite Nat2Z.id.
  rewrite firstn_all.
  rewrite <- (length_rev h) at 2. rewrite firstn_all. reflexivity.
Qed.

Lemma byte_count_floats (n : Z) :
  (0 <= n <= INT_MAX)%Z -> (to_size_t (n * 4) / 4 = n)%Z.
Proof.
  intros Hn. unfold INT_MAX in Hn.
  rewrite to_size_t_small by range_lia.
  apply Z.div_mul. lia.
Qed.

Lemma convolve_fft_reverse (fftf : fftf_backend) (hd : ConvolutionFFTHandle)
    (x h result : farray) :
  (0 < fft_h_length hd <= INT_MAX)%Z ->
  len h = fft_h_length hd ->
  option_map fst (convolve_fft fftf (fft_set_reverse true hd) x h result)
  = option_map fst
      (convolve_fft fftf (fft_set_reverse false hd) x (rev h) result).
Proof.
  intros Hrange Hlen. unfold convolve_fft, fft_set_reverse.
  cbn [fft_x_length fft_h_length fft_reverse fft_M fft_inputs0 fft_inputs1
       fft_fft_plan fft_fft_inverse_plan].
  rewrite (to_int_small (fft_h_length hd))
    by range_lia.
  rewrite (byte_count_floats (fft_h_length hd)) by lia.
  rewrite (to_size_t_small (fft_h_length hd))
    by range_lia.
  rewrite <- Hlen, rmemcpyf_rev.
  destruct (memcpy (fft_inputs0 hd) 0 x 0 _); cbn [bind]; [|reflexivity].
  destruct (memcpy (fft_inputs1 hd) 0 (rev h) 0 _); cbn [bind];
    [|reflexivity].
  destruct (spectrum_multiply _ _ _); cbn [bind]; [|reflexivity].
  destruct (real_multiply_scalar _ _ _ _ _ _); cbn [bind]; reflexivity.
Qed.

Lemma convolve_overlap_save_reverse (fftf : fftf_backend)
    (hd : ConvolutionOverlapSaveHandle) (x h result : farray) :
  (0 < os_h_length hd <= INT_MAX)%Z ->
  len h = os_h_length hd ->
  option_map fst
    (convolve_overlap_save fftf (os_set_reverse true hd) x h result)
  = option_map fst
      (convolve_overlap_save fftf (os_set_reverse false hd) x (rev h) result).
Proof.
  intros Hrange Hlen. unfold convolve_overlap_save, os_set_reverse.
  cbn [os_x_length os_h_length os_reverse os_L os_H os_fft_boiler_plate
       os_fft_plan os_fft_inverse_plan].
  rewrite (byte_count_floats (os_h_length hd)) by lia.
  rewrite <- Hlen, rmemcpyf_rev.
  destruct (memcpy (os_fft_boiler_plate hd) 0 (rev h) 0 _); cbn [bind];
    [|reflexivity].
  destruct (memsetf _ _ _ _); cbn [bind]; [|reflexivity].
  destruct (memcpy (os_H hd) _ _ _ _); cbn [bind]; [|reflexivity].
  unfold os_block.
  cbn [os_x_length os_h_length os_reverse os_L os_H os_fft_boiler_plate
       os_fft_plan os_fft_inverse_plan].
  destruct (loop_size_t _ _ _ _ _ _); cbn [bind]; reflexivity.
Qed.

(** C9. For every handle of the single-shot transform convolver and of the
    overlap-save convolver (fresh from its initializer or used before), any
    backend, and a kernel h of the recorded length, the execution with the
    reverse flag set stores into the result the same samples as the
    execution with the flag clear on the reversed kernel. *)
Theorem reverse_flag_reverses_kernel (fftf : fftf_backend) :
  (forall (hd : ConvolutionFFTHandle) (x h result : farray),
      fft_handle fftf hd ->
      len h = fft_h_length hd ->
      option_map fst (convolve_fft fftf (fft_set_reverse true hd) x h result)
      = option_map fst
          (convolve_fft fftf (fft_set_reverse false hd) x (rev h) result)) /\
  (forall (hd : ConvolutionOverlapSaveHandle) (x h result : farray),
      os_handle fftf hd ->
      len h = os_h_length hd ->
      option_map fst
        (convolve_overlap_save fftf (os_set_reverse true hd) x h result)
      = option_map fst
          (convolve_overlap_save fftf (os_set_reverse false hd) x (rev h)
             result)).
Proof.
  split.
  - intros hd x h result Hhd Hlen. apply convolve_fft_reverse; [|exact Hlen].
    apply (fft_handle_h_length fftf). exact Hhd.
  - intros hd x h result Hhd Hlen.
    apply convolve_overlap_save_reverse; [|exact Hlen].
    apply (os_handle_h_length fftf). exact Hhd.
Qed.

(** The reverse flag on fresh handles of both convolvers, with the exact
    transform of size 4. *)
Lemma reverse_flag_reverses_kernel_witness :
  option_map fst
    (convolve_fft dft4 (fft_set_reverse true (fresh_fft_handle 2 2))
       run_x run_h run_result)
  = option_map fst
      (convolve_fft dft4 (fft_set_reverse false (fresh_fft_handle 2 2))
         run_x (rev run_h) run_result) /\
  option_map fst
    (convolve_overlap_save dft4 (os_set_reverse true (fresh_os_handle 4 1))
       (run_x ++ run_x) [sample_of_Z 3] (run_result ++ [0]))
  = option_map fst
      (convolve_overlap_save dft4 (os_set_reverse false (fresh_os_handle 4 1))
         (run_x ++ run_x) (rev [sample_of_Z 3]) (run_result ++ [0])).
Proof.
  split.
  - apply (proj1 (reverse_flag_reverses_kernel dft4)).
    + apply (fft_handle_fresh dft4 zero_heap 2 2). reflexivity.
    + reflexivity.
  - apply (proj2 (reverse_flag_reverses_kernel dft4)).
    + apply (os_handle_fresh dft4 zero_heap 4 1). reflexivity.
    + reflexivity.
Defined.

(** With the flag set the result is the convolution by the reversed
    kernel: [1,2] * [5,3] = [5, 13, 6]. *)
Lemma convolve_fft_reverse_run :
  option_map fst
    (convolve_fft dft4 (fft_set_reverse true (fresh_fft_handle 2 2))
       run_x run_h run_result)
  = Some run_reversed /\
  direct_convolution run_x (rev run_h) = run_reversed.
Proof.
  split; [apply result_eqb_eq|apply farray_eqb_eq]; vm_compute; reflexivity.
Qed.

(** ** Repeated executions of the single-shot transform convolver *)

(** C3, at the failing input. On a fresh handle for two samples by two
    samples, with the exact transform of size 4, the first execution on
    x = [1,2], h = [3,5] gives the convolution [3, 11, 10]; the second
    execution on the same handle and the same inputs gives [113, -189, 133]:
    the first call leaves the inverse transform in X and the spectrum of h
    in H, and the second call overwrites only the first xLength and hLength
    floats, so that the padding is no longer zero. *)
Theorem convolve_fft_second_call_differs :
  let hd := fresh_fft_handle 2 2 in
  let first := convolve_fft dft4 hd run_x run_h run_result in
  let second := convolve_fft dft4 (fft_after first) run_x run_h run_result in
  convolve_fft_initialize zero_heap 2 2 = Ok hd /\
  fft_handle dft4 (fft_after first) /\
  direct_convolution run_x run_h = run_first /\
  option_map fst first = Some run_first /\
  option_map fst second = Some run_second /\
  option_map fst second <> option_map fst first.
Proof.
  intros hd first second.
  assert (Hfirst : option_map fst first = Some run_first)
    by (apply result_eqb_eq; vm_compute; reflexivity).
  assert (Hsecond : option_map fst second = Some run_second)
    by (apply result_eqb_eq; vm_compute; reflexivity).
  split; [reflexivity|]. split.
  - destruct first as [[r hd1]|] eqn:E; [|discriminate].
    apply (fft_handle_used dft4 hd run_x run_h run_result r hd1);
      [|exact E].
    apply (fft_handle_fresh dft4 zero_heap 2 2). reflexivity.
  - split; [apply farray_eqb_eq; vm_compute; reflexivity|].
    split; [exact Hfirst|]. split; [exact Hsecond|].
    rewrite Hfirst, Hsecond. apply result_eqb_neq. vm_compute. reflexivity.
Qed.

(** ** The first block of the overlap-save convolver *)

Lemma memcpy_src_short (dst : farray) (doff : Z) (src : farray)
    (soff length : Z) :
  (len src < soff + length)%Z -> memcpy dst doff src soff length = None.
Proof.
  intros H. unfold memcpy.
  destruct (Z.leb_spec (soff + length) (len src)); [lia|].
  rewrite andb_false_r. reflexivity.
Qed.

(** The block that starts at 0 copies [step] samples from the start of x:
    when x has fewer, the copy reads past its end. *)
Lemma os_block_first_overrun (fftf : fftf_backend)
    (hd : ConvolutionOverlapSaveHandle) (H x : farray) (M L step : Z)
    (s : os_state) :
  (len x < to_size_t (step * 4) / 4)%Z ->
  os_block fftf hd H x M L step 0 s = None.
Proof.
  intros Hshort. unfold os_block, os_fill. cbn [Z.gtb Z.compare].
  destruct (memsetf (st_boiler s) 0 0 (to_size_t (M - 1))) as [b|];
    cbn [bind]; [|reflexivity].
  rewrite memcpy_src_short by lia. reflexivity.
Qed.

Lemma convolve_overlap_save_overrun (fftf : fftf_backend)
    (hd : ConvolutionOverlapSaveHandle) (x h result : farray) :
  (0 < to_size_t (os_x_length hd + os_h_length hd - 1))%Z ->
  (len x < to_size_t (os_step hd * 4) / 4)%Z ->
  convolve_overlap_save fftf hd x h result = None.
Proof.
  intros Hstop Hshort. unfold convolve_overlap_save.
  destruct (if os_reverse hd then _ else _); cbn [bind]; [|reflexivity].
  destruct (memsetf _ _ _ _); cbn [bind]; [|reflexivity].
  destruct (memcpy (os_H hd) _ _ _ _); cbn [bind]; [|reflexivity].
  fold (os_step hd).
  destruct (Z.to_nat (to_size_t (os_x_length hd + os_h_length hd - 1)))
    as [|fuel] eqn:Ef; [lia|].
  cbn [loop_size_t].
  destruct (Z.ltb_spec 0 (to_size_t (os_x_length hd + os_h_length hd - 1)));
    [|lia].
  rewrite os_block_first_overrun by exact Hshort. reflexivity.
Qed.

(** C7, at the failing input. For xLength = 6 and hLength = 2, which the
    precondition admits (2 < 6/2), the block size is 8 and the step 7; the
    block that starts at 0 copies 7 samples of x, one more than x has, so
    that the execution reads x[6], whatever the backend. *)
Theorem overlap_save_reads_past_x (fftf : fftf_backend) :
  let hd := fresh_os_handle 6 2 in
  (0 < 2 < 6 / 2)%Z /\
  convolve_overlap_save_initialize zero_heap 6 2 = Ok hd /\
  os_L hd = 8%Z /\ os_step hd = 7%Z /\ len six_x = 6%Z /\
  (forall boiler, memcpy boiler (2 - 1) six_x 0 (os_step hd) = None) /\
  rd six_x 6 = None /\
  convolve_overlap_save fftf hd six_x two_h seven_result = None.
Proof.
  intros hd.
  split; [cbn; lia|]. split; [reflexivity|]. split; [reflexivity|].
  split; [reflexivity|]. split; [reflexivity|]. split; [|split].
  - intros boiler. apply memcpy_src_short. vm_compute. reflexivity.
  - reflexivity.
  - apply convolve_overlap_save_overrun; vm_compute; reflexivity.
Qed.

(** C2, at the failing input. For xLength = 300 and hLength = 128 the
    selector builds an overlap-save handle (300 > 256, 300 > 200,
    128 < 150) with block size 512 and step 385; the first block asks for
    385 samples of x, which has 300: the execution is undefined, whatever
    the backend, and yields none of the 427 samples of the direct
    convolution. *)
Theorem overlap_save_undefined_on_short_signal (fftf : fftf_backend)
    (t : target) :
  let os := fresh_os_handle 300 128 in
  let hd := MkHandle kConvolutionAlgorithmOverlapSave 300 128 (union_os os) in
  (0 < 128 < 300 / 2)%Z /\
  convolve_initialize zero_heap t 300 128 = Ok hd /\
  os_L os = 512%Z /\ os_step os = 385%Z /\
  len long_x = 300%Z /\ len long_h = 128%Z /\
  len (direct_convolution long_x long_h) = 427%Z /\
  convolve_overlap_save fftf os long_x long_h long_result = None /\
  convolve fftf t hd long_x long_h long_result = None.
Proof.
  intros os hd.
  assert (Hos : convolve_overlap_save fftf os long_x long_h long_result = None).
  { apply convolve_overlap_save_overrun.
    - vm_compute. reflexivity.
    - vm_compute. reflexivity. }
  split; [cbn; lia|]. split; [destruct t; reflexivity|].
  split; [reflexivity|]. split; [reflexivity|]. split; [reflexivity|].
  split; [reflexivity|]. split.
  - unfold direct_convolution, len. rewrite length_map, length_seq.
    reflexivity.
  - split; [exact Hos|].
    unfold convolve, hd. cbn [algorithm handle]. rewrite Hos. reflexivity.
Qed.

(** ** Reads after the memory operations *)

Lemma at0_in (a : farray) (i : Z) (v : sample) :
  rd a i = Some v -> at0 a i = v.
Proof. unfold at0. intros ->. reflexivity. Qed.

Lemma at0_out (a : farray) (i : Z) :
  (i < 0 \/ len a <= i)%Z -> at0 a i = 0.
Proof. intros H. unfold at0. rewrite rd_out by assumption. reflexivity. Qed.

Lemma rd_nth_error (a : farray) (i : Z) :
  (0 <= i)%Z -> rd a i = nth_error a (Z.to_nat i).
Proof.
  intros H. unfold rd. destruct (Z.ltb_spec i 0); [lia|reflexivity].
Qed.

(** Reading a splice [firstn p a ++ mid ++ skipn (p + length mid) a]. *)
Lemma rd_splice (a mid : farray) (p : nat) (j : Z) :
  (p + length mid <= length a)%nat -> (0 <= j)%Z ->
  rd (firstn p a ++ mid ++ skipn (p + length mid) a) j
  = if ((Z.of_nat p <=? j) && (j <? Z.of_nat p + len mid))%Z%bool
    then rd mid (j - Z.of_nat p) else rd a j.
Proof.
  intros Hp Hj. rewrite (rd_nth_error _ j) by lia. unfold len.
  assert (Hf : length (firstn p a) = p) by (rewrite length_firstn; lia).
  destruct (Z.leb_spec (Z.of_nat p) j) as [H1|H1]; cbn [andb].
  - rewrite nth_error_app2 by lia. rewrite Hf.
    destruct (Z.ltb_spec j (Z.of_nat p + Z.of_nat (length mid))) as [H2|H2].
    + rewrite nth_error_app1 by lia.
      rewrite rd_nth_error by lia. f_equal. lia.
    + rewrite nth_error_app2 by lia. rewrite nth_error_skipn.
      rewrite rd_nth_error by lia. f_equal. lia.
  - rewrite nth_error_app1 by lia. rewrite rd_nth_error by lia.
    rewrite nth_error_firstn.
    destruct (Nat.ltb_spec (Z.to_nat j) p); [reflexivity|lia].
Qed.

Lemma len_splice (a mid : farray) (p : nat) :
  (p + length mid <= length a)%nat ->
  len (firstn p a ++ mid ++ skipn (p + length mid) a) = len a.
Proof.
  intros Hp. unfold len.
  rewrite !length_app, length_firstn, length_skipn. lia.
Qed.

Lemma memsetf_rd (a : farray) (off : Z) (v : sample) (n : Z) :
  (0 <= off)%Z -> (0 <= n)%Z -> (off + n <= len a)%Z ->
  exists a',
    memsetf a off v n = Some a' /\ len a' = len a /\
    forall j, (0 <= j < len a)%Z ->
      rd a' j = if ((off <=? j) && (j <? off + n))%Z%bool
                then Some v else rd a j.
Proof.
  intros Ho Hn Hb. unfold memsetf.
  destruct (Z.leb_spec 0 off), (Z.leb_spec 0 n),
    (Z.leb_spec (off + n) (len a)); try lia. cbn [andb].
  eexists. split; [reflexivity|].
  assert (Hm : length (repeat v (Z.to_nat n)) = Z.to_nat n)
    by apply repeat_length.
  replace (Z.to_nat (off + n))
    with (Z.to_nat off + length (repeat v (Z.to_nat n)))%nat by lia.
  unfold len in *. split.
  - apply len_splice. lia.
  - intros j Hj. rewrite rd_splice by lia. unfold len. rewrite Hm.
    rewrite !Z2Nat.id by lia.
    destruct ((off <=? j) && (j <? off + n))%Z%bool eqn:E; [|reflexivity].
    apply andb_true_iff in E as [E1 E2].
    apply Z.leb_le in E1. apply Z.ltb_lt in E2.
    rewrite rd_nth_error by lia.
    apply nth_error_repeat. lia.
Qed.

Lemma memcpy_rd (dst : farray) (doff : Z) (src : farray) (soff n : Z) :
  (0 <= doff)%Z -> (0 <= soff)%Z -> (0 <= n)%Z ->
  (doff + n <= len dst)%Z -> (soff + n <= len src)%Z ->
  exists d',
    memcpy dst doff src soff n = Some d' /\ len d' = len dst /\
    forall j, (0 <= j < len dst)%Z ->
      rd d' j = if ((doff <=? j) && (j <? doff + n))%Z%bool
                then rd src (soff + (j - doff)) else rd dst j.
Proof.
  intros Hd Hs Hn Hbd Hbs. unfold memcpy.
  destruct (Z.leb_spec 0 doff), (Z.leb_spec 0 soff), (Z.leb_spec 0 n),
    (Z.leb_spec (doff + n) (len dst)), (Z.leb_spec (soff + n) (len src));
    try lia. cbn [andb].
  eexists. split; [reflexivity|].
  set (mid := firstn (Z.to_nat n) (skipn (Z.to_nat soff) src)).
  assert (Hm : length mid = Z.to_nat n).
  { unfold mid, len in *. rewrite length_firstn, length_skipn. lia. }
  replace (Z.to_nat (doff + n)) with (Z.to_nat doff + length mid)%nat by lia.
  unfold len in *. split.
  - apply len_splice. lia.
  - intros j Hj. rewrite rd_splice by lia. unfold len. rewrite Hm.
    rewrite !Z2Nat.id by lia.
    destruct ((doff <=? j) && (j <? doff + n))%Z%bool eqn:E; [|reflexivity].
    apply andb_true_iff in E as [E1 E2].
    apply Z.leb_le in E1. apply Z.ltb_lt in E2.
    rewrite !rd_nth_error by lia. unfold mid.
    rewrite nth_error_firstn by lia.
    destruct (Nat.ltb_spec (Z.to_nat (j - doff)) (Z.to_nat n)); [|lia].
    rewrite nth_error_skipn. f_equal. lia.
Qed.

Lemma real_multiply_scalar_rd (src : farray) (soff n : Z) (value : sample)
    (dst : farray) (doff : Z) :
  (0 <= doff)%Z -> (0 <= soff)%Z -> (0 <= n)%Z ->
  (doff + n <= len dst)%Z -> (soff + n <= len src)%Z ->
  exists d',
    real_multiply_scalar src soff n value dst doff = Some d' /\
    len d' = len dst /\
    forall j, (0 <= j < len dst)%Z ->
      rd d' j = if ((doff <=? j) && (j <? doff + n))%Z%bool
                then option_map (fun v => v * value)
                       (rd src (soff + (j - doff)))
                else rd dst j.
Proof.
  intros Hd Hs Hn Hbd Hbs. unfold real_multiply_scalar.
  destruct (Z.leb_spec 0 doff), (Z.leb_spec 0 soff), (Z.leb_spec 0 n),
    (Z.leb_spec (doff + n) (len dst)), (Z.leb_spec (soff + n) (len src));
    try lia. cbn [andb].
  eexists. split; [reflexivity|].
  set (mid := map (fun v => v * value)
                (firstn (Z.to_nat n) (skipn (Z.to_nat soff) src))).
  assert (Hm : length mid = Z.to_nat n).
  { unfold mid, len in *. rewrite length_map, length_firstn, length_skipn.
    lia. }
  replace (Z.to_nat (doff + n)) with (Z.to_nat doff + length mid)%nat by lia.
  unfold len in *. split.
  - apply len_splice. lia.
  - intros j Hj. rewrite rd_splice by lia. unfold len. rewrite Hm.
    rewrite !Z2Nat.id by lia.
    destruct ((doff <=? j) && (j <? doff + n))%Z%bool eqn:E; [|reflexivity].
    apply andb_true_iff in E as [E1 E2].
    apply Z.leb_le in E1. apply Z.ltb_lt in E2.
    rewrite !rd_nth_error by lia. unfold mid.
    rewrite nth_error_map, nth_error_firstn by lia.
    destruct (Nat.ltb_spec (Z.to_nat (j - doff)) (Z.to_nat n)); [|lia].
    rewrite nth_error_skipn. do 2 f_equal. lia.
Qed.

(** ** The overlap-save initializer *)

Lemma os_block_size_bounds (M : Z) :
  (0 < M)%Z -> (2 * M < os_block_size M <= 4 * M)%Z.
Proof.
  intros HM. unfold os_block_size.
  destruct (Z.log2_spec M HM) as [Hlo Hhi].
  pose proof (Z.log2_nonneg M) as Hnn.
  replace (2 + Z.log2 M)%Z with (Z.succ (Z.succ (Z.log2 M))) by lia.
  rewrite !Z.pow_succ_r in * by lia. lia.
Qed.

Lemma os_block_size_max (M : Z) :
  (0 < M < 2 ^ 29)%Z -> (os_block_size M <= 2 ^ 30)%Z.
Proof.
  intros HM. unfold os_block_size.
  assert (Hlog : (Z.log2 M < 29)%Z) by (apply Z.log2_lt_pow2; lia).
  pose proof (Z.log2_nonneg M).
  apply Z.pow_le_mono_r; lia.
Qed.

Lemma convolve_overlap_save_initialize_ok (heap : nat -> sample)
    (xLength hLength : Z) :
  (0 < hLength < 2 ^ 29)%Z -> (hLength < xLength / 2)%Z ->
  exists H boiler,
    convolve_overlap_save_initialize heap xLength hLength
    = Ok (MkOS xLength hLength false (os_block_size hLength) H boiler
            (fftf_init FFTF_DIRECTION_FORWARD (os_block_size hLength))
            (fftf_init FFTF_DIRECTION_BACKWARD (os_block_size hLength))) /\
    len H = (os_block_size hLength + 2)%Z /\
    len boiler = (os_block_size hLength + 2)%Z.
Proof.
  intros HM Hpre. unfold convolve_overlap_save_initialize.
  destruct (Z.ltb_spec hLength (xLength / 2)) as [G0|G0]; [|lia].
  assert (Hx : (0 < xLength)%Z).
  { destruct (Z.lt_ge_cases 0 xLength) as [Hc|Hc]; [exact Hc|].
    pose proof (Z.div_le_upper_bound xLength 2 0 ltac:(lia) ltac:(lia)). lia. }
  destruct (Z.gtb_spec xLength 0) as [G1|G1]; [|lia].
  destruct (Z.gtb_spec hLength 0) as [G2|G2]; [|lia].
  cbn [assert obind].
  rewrite (to_int_small hLength)
    by range_lia.
  unfold shift_fuel. rewrite shift_loop_log2;
    [|cbn; lia|lia|unfold INT_MAX; cbn; lia].
  cbn [defined obind]. rewrite Z.shiftl_1_l. fold (os_block_size hLength).
  pose proof (os_block_size_bounds hLength ltac:(lia)) as HL.
  set (L := os_block_size hLength) in *.
  rewrite (to_int_small L) by range_lia.
  rewrite (to_int_small (L + 2)) by range_lia.
  rewrite !to_size_t_small by range_lia.
  unfold mallocf_checked.
  destruct (mallocf_some heap (L + 2)) as [H0 HH0]; [unfold MAX_FLOATS; lia|].
  pose proof (mallocf_len heap (L + 2) H0 ltac:(lia) HH0) as HlenH0.
  rewrite HH0. cbn [obind].
  destruct (memsetf_some H0 hLength 0 (L - hLength)) as (H & HH & HlenH);
    try lia.
  rewrite HH. cbn [defined obind].
  exists H, H0. split; [reflexivity|]. split; lia.
Qed.

(** ** The block loop *)

(** A [size_t] loop of positive step runs [cnt] times when [cnt] steps are
    the first to reach the bound and the counter does not wrap around. *)
Lemma loop_size_t_iter {St : Type} (body : Z -> St -> option St)
    (stop step : Z) :
  (0 < step)%Z ->
  forall (cnt fuel : nat) (i : Z) (s : St),
    (cnt <= fuel)%nat -> (0 <= i)%Z ->
    (stop <= i + step * Z.of_nat cnt)%Z ->
    ((0 < cnt)%nat -> (i + step * (Z.of_nat cnt - 1) < stop)%Z) ->
    (i + step * Z.of_nat cnt < size_t_modulus)%Z ->
    loop_size_t fuel i stop step body s = iter_stride cnt i step body s.
Proof.
  intros Hstep. induction cnt as [|c IH]; intros fuel i s Hf Hi Hup Hlow Hmax.
  - assert (Hle : (stop <= i)%Z) by lia.
    destruct fuel; cbn [loop_size_t iter_stride];
      destruct (Z.ltb_spec i stop); try lia; reflexivity.
  - destruct fuel as [|fuel]; [lia|].
    cbn [loop_size_t iter_stride].
    destruct (Z.ltb_spec i stop) as [Hlt|Hge]; [|nia].
    destruct (body i s) as [s'|]; cbn [bind]; [|reflexivity].
    rewrite to_size_t_small by (unfold fits_size_t; nia).
    apply IH; try lia; try nia.
Qed.

(** ** Sums of terms that vanish *)

Lemma sum_from_zero (f : Z -> sample) (cnt : nat) (lo : Z) :
  (forall m, (lo <= m < lo + Z.of_nat cnt)%Z -> f m = 0) ->
  sum_from f lo cnt = 0.
Proof.
  revert lo. induction cnt as [|c IH]; intros lo H; [reflexivity|].
  cbn [sum_from]. rewrite H by lia. rewrite IH; [ring|].
  intros m Hm. apply H. lia.
Qed.

(** The windowed sum of the contract is the sum over the whole kernel,
    the signal extended by zeros. *)
Lemma direct_sum_full (x h : farray) (n : Z) :
  (0 < len x)%Z -> (0 < len h)%Z ->
  (0 <= n < len x + len h - 1)%Z ->
  direct_sum x h n = full_sum x h n.
Proof.
  intros Hx Hh Hn. unfold direct_sum, full_sum.
  set (lo := Z.max 0 (n - len x + 1)).
  set (hi := Z.min n (len h - 1)).
  set (cnt := Z.to_nat (hi - lo + 1)).
  assert (Hsplit : length h
                   = (Z.to_nat lo + (cnt + Z.to_nat (len h - 1 - hi)))%nat)
    by (unfold len in *; lia).
  rewrite Hsplit, !sum_from_app.
  rewrite (sum_from_zero _ (Z.to_nat lo)).
  - rewrite (sum_from_zero _ (Z.to_nat (len h - 1 - hi))).
    + replace (0 + Z.of_nat (Z.to_nat lo))%Z with lo by lia. ring.
    + intros m Hm. unfold term. rewrite (at0_out x) by lia. ring.
  - intros m Hm. unfold term. rewrite (at0_out x) by lia. ring.
Qed.

Lemma at0_eq_of_rd (a b : farray) (i j : Z) :
  rd a i = rd b j -> at0 a i = at0 b j.
Proof. unfold at0. intros ->. reflexivity. Qed.

Lemma at0_of_rd_some (a : farray) (i : Z) (v : sample) :
  rd a i = Some v -> at0 a i = v.
Proof. unfold at0. intros ->. reflexivity. Qed.

Lemma byte_count_size (n : Z) :
  (0 <= n < 2 ^ 62)%Z -> (to_size_t (n * 4) / 4 = n)%Z.
Proof.
  intros Hn.
  rewrite to_size_t_small by range_lia.
  apply Z.div_mul. lia.
Qed.

(** Where the second operand vanishes from [M] on, and from the index
    M - 1 on, the circular convolution does not wrap around: it is the
    linear one. *)
Lemma circular_linear (Lz Mz : Z) (a b : farray) (n : Z) :
  (0 < Mz <= Lz)%Z ->
  (forall m, (Mz <= m < Lz)%Z -> at0 b m = 0) ->
  (Mz - 1 <= n < Lz)%Z ->
  circular Lz a b n
  = sum_from (fun m => at0 b m * at0 a (n - m)%Z) 0 (Z.to_nat Mz).
Proof.
  intros HM Hzero Hn. unfold circular.
  replace (Z.to_nat Lz) with (Z.to_nat Mz + Z.to_nat (Lz - Mz))%nat by lia.
  rewrite sum_from_app.
  rewrite (sum_from_zero _ (Z.to_nat (Lz - Mz))).
  - rewrite (sum_from_ext _ (fun m => at0 b m * at0 a (n - m)%Z)); [ring|].
    intros m Hm. rewrite Z.mod_small by lia. reflexivity.
  - intros m Hm. rewrite Hzero by lia. ring.
Qed.

Lemma reciprocal_cancel (Lz : Z) (v : sample) :
  (0 < Lz)%Z -> sample_of_Z Lz * v * reciprocal Lz = v.
Proof.
  intros HL. unfold reciprocal, sample_of_Z.
  assert (Hne : Q2Qc (inject_Z Lz) <> 0).
  { intros E. change 0 with (Q2Qc 0) in E. apply Q2Qc_eq_iff in E.
    unfold Qeq, inject_Z in E. cbn in E. lia. }
  field. exact Hne.
Qed.

Section OverlapSaveBlocks.

Variable fftf : fftf_backend.
Variables x h : farray.
Variable hd : ConvolutionOverlapSaveHandle.

Hypothesis HN : os_x_length hd = len x.
Hypothesis HM : os_h_length hd = len h.
Hypothesis HMpos : (0 < len h)%Z.
Hypothesis HL : (2 * len h < os_L hd <= 2 ^ 30)%Z.
Hypothesis HNmax : (len x < 2 ^ 62)%Z.
Hypothesis Hstep : (os_L hd - (len h - 1) <= len x)%Z.

Local Abbreviation N := (len x).
Local Abbreviation M := (len h).
Local Abbreviation L := (os_L hd).
Local Abbreviation step := (os_L hd - (len h - 1))%Z.

(** The scratch buffer receives the window of the zero-extended signal
    that starts M - 1 samples before [i]. *)
Lemma os_fill_window (i : Z) (boiler : farray) :
  len boiler = (L + 2)%Z ->
  (0 <= i < N + M - 1)%Z -> (i = 0 \/ step <= i)%Z ->
  exists b1,
    os_fill hd x M L step i boiler = Some b1 /\
    len b1 = (L + 2)%Z /\
    forall j, (0 <= j < L)%Z -> at0 b1 j = at0 x (i + j - (M - 1)).
Proof.
  intros Hb Hi Hmult. unfold os_fill. rewrite HN.
  destruct (Z.gtb_spec i 0) as [Hpos|Hzero].
  - assert (Hge : (step <= i)%Z) by lia.
    rewrite (to_size_t_small (i + step))
      by range_lia.
    destruct (Z.leb_spec (i + step) N) as [Hfull|Hpart].
    + rewrite byte_count_size by lia.
      destruct (memcpy_rd boiler 0 x (i - (M - 1)) L)
        as (b1 & Hcp & Hlen & Hrd); try lia.
      exists b1. split; [exact Hcp|]. split; [lia|].
      intros j Hj. apply at0_eq_of_rd. rewrite Hrd by lia.
      destruct (Z.leb_spec 0 j), (Z.ltb_spec j (0 + L)); try lia.
      cbn [andb]. f_equal; lia.
    + assert (Hcl : to_int (to_size_t (N - i + M - 1)) = (N - i + M - 1)%Z).
      { rewrite to_int_to_size_t. apply to_int_small.
        unfold fits_int, INT_MIN, INT_MAX. lia. }
      rewrite Hcl. cbn zeta.
      rewrite byte_count_size by lia.
      rewrite (to_int_small (L - (N - i + M - 1)))
        by range_lia.
      rewrite to_size_t_small by range_lia.
      destruct (memcpy_rd boiler 0 x (i - (M - 1)) (N - i + M - 1))
        as (b1 & Hcp & Hlen & Hrd); try lia.
      rewrite Hcp. cbn [bind].
      destruct (memsetf_rd b1 (N - i + M - 1) 0 (L - (N - i + M - 1)))
        as (b2 & Hset & Hlen2 & Hrd2); try lia.
      exists b2. split; [exact Hset|]. split; [lia|].
      intros j Hj. destruct (Z.lt_ge_cases j (N - i + M - 1)) as [Hin|Hout].
      * apply at0_eq_of_rd. rewrite Hrd2 by lia.
        destruct (Z.leb_spec (N - i + M - 1) j); [lia|]. cbn [andb].
        rewrite Hrd by lia.
        destruct (Z.leb_spec 0 j), (Z.ltb_spec j (0 + (N - i + M - 1)));
          try lia.
        cbn [andb]. f_equal; lia.
      * rewrite (at0_out x) by lia. apply at0_of_rd_some.
        rewrite Hrd2 by lia.
        destruct (Z.leb_spec (N - i + M - 1) j),
          (Z.ltb_spec j (N - i + M - 1 + (L - (N - i + M - 1)))); try lia.
        reflexivity.
  - assert (i = 0%Z) by lia. subst i.
    rewrite to_size_t_small by range_lia.
    rewrite byte_count_size by lia.
    destruct (memsetf_rd boiler 0 0 (M - 1)) as (b1 & Hset & Hlen & Hrd);
      try lia.
    rewrite Hset. cbn [bind].
    destruct (memcpy_rd b1 (M - 1) x 0 step) as (b2 & Hcp & Hlen2 & Hrd2);
      try lia.
    exists b2. split; [exact Hcp|]. split; [lia|].
    intros j Hj. destruct (Z.lt_ge_cases j (M - 1)) as [Hin|Hout].
    + rewrite (at0_out x) by lia. apply at0_of_rd_some.
      rewrite Hrd2 by lia.
      destruct (Z.leb_spec (M - 1) j); [lia|]. cbn [andb].
      rewrite Hrd by lia.
      destruct (Z.leb_spec 0 j), (Z.ltb_spec j (0 + (M - 1))); try lia.
      reflexivity.
    + apply at0_eq_of_rd. rewrite Hrd2 by lia.
      destruct (Z.leb_spec (M - 1) j), (Z.ltb_spec j (M - 1 + step));
        try lia.
      cbn [andb]. f_equal; lia.
Qed.

Hypothesis Hplan : os_fft_plan hd = fftf_init FFTF_DIRECTION_FORWARD L.
Hypothesis Hiplan :
  os_fft_inverse_plan hd = fftf_init FFTF_DIRECTION_BACKWARD L.
Hypothesis Hconv : convolution_theorem fftf L.

(** The kernel, zero-padded to the block size, in a buffer of L + 2. *)
Variable hbuf : farray.
Hypothesis Hhbuf_len : len hbuf = (L + 2)%Z.
Hypothesis Hhbuf_kernel :
  forall m, (0 <= m < M)%Z -> at0 hbuf m = at0 h m.
Hypothesis Hhbuf_zero :
  forall m, (M <= m < L)%Z -> at0 hbuf m = 0.

(** Transform, product with the spectrum of the kernel, inverse transform
    and scaling turn the window into [step] samples of the convolution. *)
Lemma os_transform_window (i : Z) (b1 : farray) :
  len b1 = (L + 2)%Z ->
  (forall j, (0 <= j < L)%Z -> at0 b1 j = at0 x (i + j - (M - 1))) ->
  exists c b3,
    spectrum_multiply (fftf_calc fftf (os_fft_plan hd) b1)
      (forward fftf L hbuf) L = Some c /\
    real_multiply_scalar (fftf_calc fftf (os_fft_inverse_plan hd) c)
      (M - 1) (to_size_t step) (reciprocal L)
      (fftf_calc fftf (os_fft_inverse_plan hd) c) (M - 1) = Some b3 /\
    len b3 = (L + 2)%Z /\
    forall j, (0 <= j < step)%Z ->
      rd b3 (M - 1 + j) = Some (full_sum x h (i + j)).
Proof.
  intros Hlen Hwin. rewrite Hplan, Hiplan. unfold fftf_calc, fftf_init.
  cbn [plan_direction plan_length].
  destruct (Hconv b1 hbuf Hlen Hhbuf_len) as (_ & c & Hmul & Hblen & Hcirc).
  exists c. rewrite Hmul.
  rewrite to_size_t_small by range_lia.
  destruct (real_multiply_scalar_rd (backward fftf L c) (M - 1) step
              (reciprocal L) (backward fftf L c) (M - 1))
    as (b3 & Hscale & Hlen3 & Hrd3); try lia.
  exists b3. split; [reflexivity|]. split; [exact Hscale|]. split; [lia|].
  intros j Hj. rewrite Hrd3 by lia.
  destruct (Z.leb_spec (M - 1) (M - 1 + j)),
    (Z.ltb_spec (M - 1 + j) (M - 1 + step)); try lia.
  cbn [andb].
  replace (M - 1 + (M - 1 + j - (M - 1)))%Z with (M - 1 + j)%Z by lia.
  rewrite rd_in by lia. cbn [option_map]. f_equal.
  rewrite Hcirc by lia.
  rewrite reciprocal_cancel by lia.
  rewrite (circular_linear L M) by (try assumption; lia).
  unfold full_sum.
  replace (Z.to_nat M) with (length h) by (unfold len; lia).
  apply sum_from_ext. intros m Hm. unfold term.
  rewrite Hhbuf_kernel by (unfold len in *; lia).
  rewrite Hwin by (unfold len in *; lia).
  do 2 f_equal. lia.
Qed.

(** The samples stored by one block. *)
Lemma os_store_block (i : Z) (b3 result : farray) :
  len b3 = (L + 2)%Z ->
  (0 <= i < N + M - 1)%Z ->
  (N + M - 1 <= len result)%Z ->
  exists result',
    os_store hd M step i b3 result = Some result' /\
    len result' = len result /\
    forall n, (0 <= n < len result)%Z ->
      rd result' n
      = if ((i <=? n) && (n <? Z.min (i + step) (N + M - 1)))%Z%bool
        then rd b3 (M - 1 + (n - i)) else rd result n.
Proof.
  intros Hlen Hi Hres. unfold os_store. rewrite HN, HM.
  rewrite (to_size_t_small (i + step)), (to_size_t_small (N + M)),
    (to_size_t_small (N + M - 1 - i))
    by range_lia.
  destruct (Z.ltb_spec (i + step) (N + M)) as [Hfull|Hlast].
  - rewrite byte_count_size by lia.
    destruct (memcpy_rd result i b3 (M - 1) step)
      as (r' & Hcp & Hlen' & Hrd); try lia.
    exists r'. split; [exact Hcp|]. split; [exact Hlen'|].
    intros n Hn. rewrite Hrd by lia.
    replace (Z.min (i + step) (N + M - 1)) with (i + step)%Z by lia.
    reflexivity.
  - rewrite byte_count_size by lia.
    destruct (memcpy_rd result i b3 (M - 1) (N + M - 1 - i))
      as (r' & Hcp & Hlen' & Hrd); try lia.
    exists r'. split; [exact Hcp|]. split; [exact Hlen'|].
    intros n Hn. rewrite Hrd by lia.
    replace (Z.min (i + step) (N + M - 1)) with (i + (N + M - 1 - i))%Z
      by lia.
    reflexivity.
Qed.

(** One block: the samples [i, min(i + step, N+M-1)) of the result become
    those of the convolution, the others are left alone. *)
Lemma os_block_step (i : Z) (s : os_state) :
  len (st_boiler s) = (L + 2)%Z ->
  (0 <= i < N + M - 1)%Z -> (i = 0 \/ step <= i)%Z ->
  (N + M - 1 <= len (st_result s))%Z ->
  exists s',
    os_block fftf hd (forward fftf L hbuf) x M L step i s = Some s' /\
    len (st_boiler s') = (L + 2)%Z /\
    len (st_result s') = len (st_result s) /\
    forall n, (0 <= n < len (st_result s))%Z ->
      rd (st_result s') n
      = if ((i <=? n) && (n <? Z.min (i + step) (N + M - 1)))%Z%bool
        then Some (full_sum x h n) else rd (st_result s) n.
Proof.
  intros Hb Hi Hmult Hres. unfold os_block.
  destruct (os_fill_window i (st_boiler s) Hb Hi Hmult)
    as (b1 & Hfill & Hlen1 & Hwin).
  rewrite Hfill. cbn [bind].
  destruct (os_transform_window i b1 Hlen1 Hwin)
    as (c & b3 & Hmul & Hscale & Hlen3 & Hrd3).
  rewrite Hmul. cbn [bind]. rewrite Hscale. cbn [bind].
  destruct (os_store_block i b3 (st_result s) Hlen3 Hi Hres)
    as (r' & Hstore & Hlen' & Hrd').
  rewrite Hstore. cbn [bind].
  eexists. split; [reflexivity|]. cbn [st_boiler st_result].
  split; [exact Hlen3|]. split; [exact Hlen'|].
  intros n Hn. rewrite Hrd' by lia.
  destruct ((i <=? n) && (n <? Z.min (i + step) (N + M - 1)))%Z%bool eqn:E;
    [|reflexivity].
  apply andb_true_iff in E as [E1 E2].
  apply Z.leb_le in E1. apply Z.ltb_lt in E2.
  rewrite Hrd3 by lia. do 2 f_equal. lia.
Qed.

(** [cnt] consecutive blocks from [i] on. *)
Lemma os_blocks (cnt : nat) :
  forall (i : Z) (s : os_state),
    len (st_boiler s) = (L + 2)%Z ->
    (i = 0 \/ step <= i)%Z ->
    ((0 < cnt)%nat -> (i + step * (Z.of_nat cnt - 1) < N + M - 1)%Z) ->
    (N + M - 1 <= len (st_result s))%Z ->
    exists s',
      iter_stride cnt i step
        (os_block fftf hd (forward fftf L hbuf) x M L step) s = Some s' /\
      len (st_boiler s') = (L + 2)%Z /\
      len (st_result s') = len (st_result s) /\
      forall n, (0 <= n < len (st_result s))%Z ->
        rd (st_result s') n
        = if ((i <=? n)
              && (n <? Z.min (i + step * Z.of_nat cnt) (N + M - 1)))%Z%bool
          then Some (full_sum x h n) else rd (st_result s) n.
Proof.
  induction cnt as [|c IH]; intros i s Hb Hmult Hlast Hres.
  - exists s. split; [reflexivity|]. split; [exact Hb|].
    split; [reflexivity|]. intros n Hn.
    destruct (Z.leb_spec i n),
      (Z.ltb_spec n (Z.min (i + step * Z.of_nat 0) (N + M - 1)));
      try reflexivity; lia.
  - cbn [iter_stride].
    assert (Hi : (0 <= i < N + M - 1)%Z) by nia.
    destruct (os_block_step i s Hb Hi Hmult Hres)
      as (s1 & Hblock & Hb1 & Hr1 & Hrd1).
    rewrite Hblock. cbn [bind].
    destruct (IH (i + step)%Z s1) as (s2 & Hrun & Hb2 & Hr2 & Hrd2);
      try lia; try nia.
    exists s2. split; [exact Hrun|]. split; [exact Hb2|].
    split; [lia|]. intros n Hn.
    rewrite Hrd2 by lia. rewrite Hrd1 by lia.
    destruct (Z.leb_spec (i + step) n),
      (Z.ltb_spec n (Z.min (i + step + step * Z.of_nat c) (N + M - 1))),
      (Z.leb_spec i n),
      (Z.ltb_spec n (Z.min (i + step) (N + M - 1))),
      (Z.ltb_spec n (Z.min (i + step * Z.of_nat (S c)) (N + M - 1)));
      cbn [andb]; try reflexivity; try lia; try nia.
Qed.

End OverlapSaveBlocks.

(** ** The overlap-save convolver against the direct convolution *)

Lemma direct_convolution_len (x h : farray) :
  (0 < len x)%Z -> (0 < len h)%Z ->
  len (direct_convolution x h) = (len x + len h - 1)%Z.
Proof.
  intros Hx Hh. unfold direct_convolution, len in *.
  rewrite length_map, length_seq. lia.
Qed.

Lemma direct_convolution_rd (x h : farray) (n : Z) :
  (0 <= n < len x + len h - 1)%Z ->
  rd (direct_convolution x h) n = Some (direct_sum x h n).
Proof.
  intros Hn. rewrite rd_nth_error by lia. unfold direct_convolution.
  rewrite nth_error_map.
  rewrite nth_error_seq.
  destruct (Nat.ltb_spec (Z.to_nat n) (length x + length h - 1)) as [Hlt|Hge];
    [|unfold len in *; lia].
  cbn [option_map Nat.add]. rewrite Z2Nat.id by lia. reflexivity.
Qed.

Lemma block_count_spec (R step : Z) :
  (0 < step)%Z -> (0 < R)%Z ->
  (R <= step * Z.of_nat (block_count R step))%Z /\
  (step * (Z.of_nat (block_count R step) - 1) < R)%Z /\
  (0 < block_count R step <= Z.to_nat R)%nat.
Proof.
  intros Hs HR. unfold block_count.
  pose proof (Z.div_mod (R + step - 1) step ltac:(lia)) as Hdm.
  pose proof (Z.mod_pos_bound (R + step - 1) step Hs) as Hmod.
  assert (Hq : (1 <= (R + step - 1) / step)%Z)
    by (apply Z.div_le_lower_bound; lia).
  rewrite Z2Nat.id by lia.
  split; [nia|]. split; [nia|]. split; [lia|].
  apply Z2Nat.inj_le; try lia.
  apply Z.div_le_upper_bound; nia.
Qed.

(** A full copy over a buffer of the same size yields the source. *)
Lemma memcpy_whole (dst src : farray) :
  len dst = len src -> memcpy dst 0 src 0 (len src) = Some src.
Proof.
  intros Hlen.
  assert (Hnn : (0 <= len src)%Z) by (unfold len; lia).
  destruct (memcpy_rd dst 0 src 0 (len src)) as (d' & Hcp & Hlen' & Hrd);
    try lia.
  rewrite Hcp. f_equal. apply farray_ext; [lia|].
  intros n Hn. rewrite Hrd by lia.
  destruct (Z.leb_spec 0 n), (Z.ltb_spec n (0 + len src)); try lia.
  cbn [andb]. f_equal. lia.
Qed.

Lemma fftf_calc_forward (fftf : fftf_backend) (Lz : Z) (b : farray) :
  fftf_calc fftf (fftf_init FFTF_DIRECTION_FORWARD Lz) b = forward fftf Lz b.
Proof. reflexivity. Qed.

Lemma fftf_calc_backward (fftf : fftf_backend) (Lz : Z) (b : farray) :
  fftf_calc fftf (fftf_init FFTF_DIRECTION_BACKWARD Lz) b
  = backward fftf Lz b.
Proof. reflexivity. Qed.

(** On a ready handle whose step does not exceed the signal, with a backend
    that satisfies the convolution theorem at the block size, the execution
    is defined, stores the direct convolution, and leaves the handle ready. *)
Lemma convolve_overlap_save_direct (fftf : fftf_backend)
    (hd : ConvolutionOverlapSaveHandle) (x h result : farray) :
  os_ready hd (len x) (len h) ->
  (len x < 2 ^ 62)%Z ->
  (os_L hd - (len h - 1) <= len x)%Z ->
  convolution_theorem fftf (os_L hd) ->
  len result = (len x + len h - 1)%Z ->
  exists hd',
    convolve_overlap_save fftf hd x h result
    = Some (direct_convolution x h, hd') /\
    os_ready hd' (len x) (len h) /\ os_L hd' = os_L hd.
Proof.
  intros (HN & HM & Hrev & HMpos & HL & Hplan & Hiplan & HlenB & HlenH)
    HNmax Hstep Hconv Hres.
  assert (Hxpos : (0 < len x)%Z) by lia.
  unfold convolve_overlap_save. rewrite Hrev, HM, HN.
  rewrite (byte_count_size (len h)) by lia.
  (* the kernel, padded with zeros *)
  destruct (memcpy_rd (os_fft_boiler_plate hd) 0 h 0 (len h))
    as (b0 & Hcp & Hlen0 & Hrd0); try lia.
  rewrite Hcp. cbn [bind].
  rewrite (to_size_t_small (os_L hd - len h))
    by range_lia.
  destruct (memsetf_rd b0 (len h) 0 (os_L hd - len h))
    as (hbuf & Hset & Hlenh & Hrdh); try lia.
  rewrite Hset. cbn [bind].
  assert (Hkernel : forall m, (0 <= m < len h)%Z -> at0 hbuf m = at0 h m).
  { intros m Hm. apply at0_eq_of_rd. rewrite Hrdh by lia.
    destruct (Z.leb_spec (len h) m); [lia|]. cbn [andb].
    rewrite Hrd0 by lia.
    destruct (Z.leb_spec 0 m), (Z.ltb_spec m (0 + len h)); try lia.
    cbn [andb]. f_equal; lia. }
  assert (Hzero : forall m, (len h <= m < os_L hd)%Z -> at0 hbuf m = 0).
  { intros m Hm. apply at0_of_rd_some. rewrite Hrdh by lia.
    destruct (Z.leb_spec (len h) m),
      (Z.ltb_spec m (len h + (os_L hd - len h))); try lia.
    reflexivity. }
  assert (Hlenhbuf : len hbuf = (os_L hd + 2)%Z) by lia.
  (* its spectrum *)
  rewrite Hplan, !fftf_calc_forward.
  destruct (Hconv hbuf hbuf Hlenhbuf Hlenhbuf) as (Hlenf & _).
  rewrite (to_int_small (os_L hd + 2))
    by range_lia.
  rewrite (byte_count_size (os_L hd + 2)) by lia.
  replace (os_L hd + 2)%Z with (len (forward fftf (os_L hd) hbuf))
    by exact Hlenf.
  rewrite memcpy_whole by lia. cbn [bind].
  (* the blocks *)
  rewrite to_int_to_size_t.
  rewrite (to_int_small (os_L hd - (len h - 1)))
    by range_lia.
  rewrite (to_size_t_small (len x + len h - 1))
    by range_lia.
  set (step := (os_L hd - (len h - 1))%Z).
  set (R := (len x + len h - 1)%Z).
  destruct (block_count_spec R step) as (Hup & Hlow & Hcnt);
    [unfold step; lia|unfold R; lia|].
  rewrite (loop_size_t_iter _ R step ltac:(unfold step; lia)
             (block_count R step));
    try lia;
    [|unfold size_t_modulus, step, R in *; nia].
  destruct (os_blocks fftf x h hd HN HM HMpos HL HNmax Hstep
              Hplan Hiplan Hconv hbuf Hlenhbuf Hkernel Hzero
              (block_count R step) 0%Z
              (MkState (forward fftf (os_L hd) hbuf) result))
    as (s' & Hrun & Hb' & Hr' & Hrd').
  - cbn [st_boiler]. exact Hlenf.
  - left. reflexivity.
  - intros _. fold step. fold R. lia.
  - cbn [st_result]. lia.
  - fold step in Hrun. rewrite Hrun. cbn [bind].
    cbn [st_result st_boiler] in *.
    assert (Hout : st_result s' = direct_convolution x h).
    { apply farray_ext.
      - rewrite direct_convolution_len by lia. lia.
      - intros n Hn. rewrite Hrd' by lia.
        rewrite direct_convolution_rd by lia.
        fold step. fold R.
        destruct (Z.leb_spec 0 n),
          (Z.ltb_spec n (Z.min (0 + step * Z.of_nat (block_count R step)) R));
          cbn [andb]; try lia.
        rewrite direct_sum_full by lia. reflexivity. }
    rewrite Hout. eexists. split; [reflexivity|].
    split; [|reflexivity].
    unfold os_ready.
    cbn [os_x_length os_h_length os_reverse os_L os_H os_fft_boiler_plate
         os_fft_plan os_fft_inverse_plan].
    repeat split; try assumption; try lia.
Qed.

(** ** The exact transform of size 4 *)

Lemma sample_of_Z_4 : sample_of_Z 4 = (1 + 1) * (1 + 1).
Proof. apply sample_eqb_eq. reflexivity. Qed.

(** The transform of size 4, with the spectral product of the code,
    satisfies the convolution theorem. *)
Lemma dft4_convolution_theorem : convolution_theorem dft4 4.
Proof.
  intros a b Ha Hb.
  destruct a as [|u0 [|u1 [|u2 [|u3 [|u4 [|u5 [|u6 a]]]]]]];
    try discriminate Ha;
    [|exfalso; unfold len in Ha; cbn [length] in Ha; lia].
  destruct b as [|v0 [|v1 [|v2 [|v3 [|v4 [|v5 [|v6 b]]]]]]];
    try discriminate Hb;
    [|exfalso; unfold len in Hb; cbn [length] in Hb; lia].
  split; [reflexivity|].
  eexists. split; [reflexivity|]. split; [reflexivity|].
  intros n Hn.
  assert (Hc : (n = 0 \/ n = 1 \/ n = 2 \/ n = 3)%Z) by lia.
  rewrite sample_of_Z_4.
  destruct Hc as [ -> | [ -> | [ -> | -> ] ] ];
    cbv - [Qcplus Qcmult Qcminus Qcopp Q2Qc];
    ring.
Qed.

(** ** Fresh overlap-save handles *)

Lemma convolve_overlap_save_initialize_ready (heap : nat -> sample)
    (xLength hLength : Z) :
  (0 < hLength < 2 ^ 29)%Z -> (hLength < xLength / 2)%Z ->
  exists hd,
    convolve_overlap_save_initialize heap xLength hLength = Ok hd /\
    os_ready hd xLength hLength /\ os_L hd = os_block_size hLength.
Proof.
  intros HM Hpre.
  destruct (convolve_overlap_save_initialize_ok heap xLength hLength HM Hpre)
    as (H & boiler & Hinit & HlenH & HlenB).
  pose proof (os_block_size_bounds hLength ltac:(lia)) as HL.
  pose proof (os_block_size_max hLength HM) as HLmax.
  eexists. split; [exact Hinit|]. split; [|reflexivity].
  unfold os_ready.
  cbn [os_x_length os_h_length os_reverse os_L os_H os_fft_boiler_plate
       os_fft_plan os_fft_inverse_plan].
  repeat split; try assumption; try lia.
Qed.

(** Where the step L-(M-1) does not exceed the signal, and with a backend
    that satisfies the convolution theorem at the block size, the
    overlap-save convolver is defined on a fresh handle and the blocks it
    stores make up the direct convolution, sample for sample; a second
    execution on the handle the first one leaves gives the same. *)
Lemma overlap_save_matches_direct (fftf : fftf_backend)
    (heap : nat -> sample) (x h result : farray) :
  (0 < len h < 2 ^ 29)%Z -> (len h < len x / 2)%Z -> (len x < 2 ^ 62)%Z ->
  (os_block_size (len h) - (len h - 1) <= len x)%Z ->
  convolution_theorem fftf (os_block_size (len h)) ->
  len result = (len x + len h - 1)%Z ->
  exists hd hd1 hd2,
    convolve_overlap_save_initialize heap (len x) (len h) = Ok hd /\
    convolve_overlap_save fftf hd x h result
    = Some (direct_convolution x h, hd1) /\
    convolve_overlap_save fftf hd1 x h result
    = Some (direct_convolution x h, hd2).
Proof.
  intros HM Hpre HN Hstep Hconv Hres.
  destruct (convolve_overlap_save_initialize_ready heap (len x) (len h)
              HM Hpre) as (hd & Hinit & Hready & HLeq).
  destruct (convolve_overlap_save_direct fftf hd x h result Hready HN)
    as (hd1 & Hrun1 & Hready1 & HL1);
    [rewrite HLeq; exact Hstep|rewrite HLeq; exact Hconv|exact Hres|].
  destruct (convolve_overlap_save_direct fftf hd1 x h result Hready1 HN)
    as (hd2 & Hrun2 & _);
    [rewrite HL1, HLeq; exact Hstep|rewrite HL1, HLeq; exact Hconv
    |exact Hres|].
  exists hd, hd1, hd2. auto.
Qed.

(** Nine samples by one, with the exact transform of size 4: three blocks
    with step 4, the last one holding a single sample. *)
Lemma overlap_save_matches_direct_run :
  exists hd hd1 hd2,
    convolve_overlap_save_initialize zero_heap (len nine_x) (len one_h)
    = Ok hd /\
    convolve_overlap_save dft4 hd nine_x one_h nine_result
    = Some (direct_convolution nine_x one_h, hd1) /\
    convolve_overlap_save dft4 hd1 nine_x one_h nine_result
    = Some (direct_convolution nine_x one_h, hd2).
Proof.
  apply (overlap_save_matches_direct dft4 zero_heap nine_x one_h nine_result).
  - vm_compute. split; reflexivity.
  - vm_compute. reflexivity.
  - vm_compute. reflexivity.
  - vm_compute. congruence.
  - exact dft4_convolution_theorem.
  - reflexivity.
Defined.

(** Eight samples by one: the signal is exactly two steps long. *)
Lemma overlap_save_matches_direct_multiple :
  exists hd hd1 hd2,
    convolve_overlap_save_initialize zero_heap (len eight_x) (len one_h)
    = Ok hd /\
    convolve_overlap_save dft4 hd eight_x one_h eight_result
    = Some (direct_convolution eight_x one_h, hd1) /\
    convolve_overlap_save dft4 hd1 eight_x one_h eight_result
    = Some (direct_convolution eight_x one_h, hd2).
Proof.
  apply (overlap_save_matches_direct dft4 zero_heap eight_x one_h
           eight_result).
  - vm_compute. split; reflexivity.
  - vm_compute. reflexivity.
  - vm_compute. reflexivity.
  - vm_compute. congruence.
  - exact dft4_convolution_theorem.
  - reflexivity.
Defined.

(** ** The single-shot transform convolver on a fresh handle *)

(** With both operands zero-padded to a size that holds the whole output,
    the circular convolution is the linear one. *)
Lemma circular_zero_padded (P : Z) (x h a b : farray) (n : Z) :
  (0 < len x)%Z -> (0 < len h)%Z -> (len x + len h - 1 <= P)%Z ->
  (forall j, (0 <= j < len x)%Z -> at0 a j = at0 x j) ->
  (forall j, (len x <= j < P)%Z -> at0 a j = 0) ->
  (forall m, (0 <= m < len h)%Z -> at0 b m = at0 h m) ->
  (forall m, (len h <= m < P)%Z -> at0 b m = 0) ->
  (0 <= n < P)%Z ->
  circular P a b n = full_sum x h n.
Proof.
  intros Hx Hh HP Hax Haz Hbh Hbz Hn. unfold circular, full_sum.
  replace (Z.to_nat P) with (length h + Z.to_nat (P - len h))%nat
    by (unfold len in *; lia).
  rewrite sum_from_app.
  rewrite (sum_from_zero _ (Z.to_nat (P - len h))).
  - rewrite (sum_from_ext _ (term x h n)); [ring|].
    intros m Hm. unfold term. rewrite Hbh by (unfold len in *; lia).
    f_equal.
    destruct (Z.lt_ge_cases (n - m) 0) as [Hneg|Hpos].
    + rewrite (at0_out x) by lia.
      replace ((n - m) mod P)%Z with (n - m + P)%Z.
      * apply Haz. unfold len in *. lia.
      * rewrite <- (Z.mod_add (n - m) 1 P) by lia.
        rewrite Z.mod_small; unfold len in *; lia.
    + rewrite Z.mod_small by lia.
      destruct (Z.lt_ge_cases (n - m) (len x)) as [Hin|Hout].
      * apply Hax. lia.
      * rewrite (at0_out x) by lia. apply Haz. lia.
  - intros m Hm. rewrite Hbz by (unfold len in *; lia). ring.
Qed.

Lemma convolve_fft_initialize_fresh (heap : nat -> sample)
    (xLength hLength : Z) :
  (0 < xLength)%Z -> (0 < hLength)%Z ->
  (out_length xLength hLength <= 2 ^ 30)%Z ->
  exists hd,
    convolve_fft_initialize heap xLength hLength = Ok hd /\
    fft_fresh hd xLength hLength /\ is_pow2 (fft_M hd).
Proof.
  unfold out_length. intros Hx Hh Hout.
  destruct (round_up_to_pow2_spec (xLength + hLength - 1))
    as (P & HP & Hpow & Hrange & Hmax); [lia|].
  unfold convolve_fft_initialize.
  destruct (Z.gtb_spec hLength 0) as [G1|G1]; [|lia].
  destruct (Z.gtb_spec xLength 0) as [G2|G2]; [|lia].
  cbn [assert obind].
  rewrite to_int_to_size_t, to_int_small
    by range_lia.
  rewrite HP. cbn [obind].
  rewrite (to_int_small (P + 2)) by range_lia.
  rewrite !to_size_t_small by range_lia.
  destruct (mallocf_some heap (P + 2)) as [X0 HX0];
    [unfold MAX_FLOATS; lia|].
  pose proof (mallocf_len heap (P + 2) X0 ltac:(lia) HX0) as HlenX0.
  rewrite HX0. cbn [defined obind].
  destruct (memsetf_rd X0 xLength 0 (P + 2 - xLength))
    as (X & HX & HlenX & HrdX); try lia.
  destruct (memsetf_rd X0 hLength 0 (P + 2 - hLength))
    as (H & HH & HlenH & HrdH); try lia.
  rewrite HX, HH. cbn [defined obind].
  eexists. split; [reflexivity|].
  cbn [fft_M]. split; [|exact Hpow]. unfold fft_fresh.
  cbn [fft_x_length fft_h_length fft_reverse fft_M fft_inputs0 fft_inputs1
       fft_fft_plan fft_fft_inverse_plan].
  repeat split; try lia.
  - intros j Hj. apply at0_of_rd_some. rewrite HrdX by lia.
    destruct (Z.leb_spec xLength j),
      (Z.ltb_spec j (xLength + (P + 2 - xLength))); try lia.
    reflexivity.
  - intros j Hj. apply at0_of_rd_some. rewrite HrdH by lia.
    destruct (Z.leb_spec hLength j),
      (Z.ltb_spec j (hLength + (P + 2 - hLength))); try lia.
    reflexivity.
Qed.

Lemma fftf_calc_forward_batch (fftf : fftf_backend) (P batch : Z)
    (b : farray) :
  fftf_calc fftf (fftf_init_batch FFTF_DIRECTION_FORWARD P batch) b
  = forward fftf P b.
Proof. reflexivity. Qed.

(** On a fresh handle, with a backend that satisfies the convolution
    theorem at the transform size, the execution is defined and stores the
    direct convolution. *)
Lemma convolve_fft_direct (fftf : fftf_backend) (hd : ConvolutionFFTHandle)
    (x h result : farray) :
  fft_fresh hd (len x) (len h) ->
  convolution_theorem fftf (fft_M hd) ->
  len result = (len x + len h - 1)%Z ->
  exists hd',
    convolve_fft fftf hd x h result = Some (direct_convolution x h, hd').
Proof.
  intros (HN & HM & Hrev & Hx & Hh & HP & Hplan & Hiplan & HlenX & HlenH
          & HzX & HzH) Hconv Hres.
  unfold convolve_fft. rewrite HN, HM, Hrev, Hplan, Hiplan.
  rewrite (to_int_small (len x)), (to_int_small (len h))
    by range_lia.
  rewrite !byte_count_size by lia.
  rewrite (to_int_small (len x + len h - 1))
    by range_lia.
  rewrite to_size_t_small by range_lia.
  destruct (memcpy_rd (fft_inputs0 hd) 0 x 0 (len x))
    as (Xb & HcpX & HlenXb & HrdX); try lia.
  destruct (memcpy_rd (fft_inputs1 hd) 0 h 0 (len h))
    as (Hb & HcpH & HlenHb & HrdH); try lia.
  rewrite HcpX, HcpH. cbn [bind].
  rewrite !fftf_calc_forward_batch.
  destruct (Hconv Xb Hb ltac:(lia) ltac:(lia))
    as (_ & c & Hmul & Hblen & Hcirc).
  rewrite Hmul. cbn [bind]. rewrite fftf_calc_backward.
  destruct (real_multiply_scalar_rd (backward fftf (fft_M hd) c) 0
              (len x + len h - 1) (reciprocal (fft_M hd)) result 0)
    as (r' & Hscale & Hlenr & Hrdr); try lia.
  rewrite Hscale. cbn [bind].
  assert (Hout : r' = direct_convolution x h).
  { apply farray_ext.
    - rewrite direct_convolution_len by lia. lia.
    - intros n Hn. rewrite Hrdr by lia.
      destruct (Z.leb_spec 0 n), (Z.ltb_spec n (0 + (len x + len h - 1)));
        try lia.
      cbn [andb]. replace (0 + (n - 0))%Z with n by lia.
      rewrite rd_in by lia. cbn [option_map].
      rewrite direct_convolution_rd by lia. f_equal.
      rewrite Hcirc by lia. rewrite reciprocal_cancel by lia.
      rewrite direct_sum_full by lia.
      apply (circular_zero_padded (fft_M hd) x h Xb Hb n); try lia.
      + intros j Hj. apply at0_eq_of_rd. rewrite HrdX by lia.
        destruct (Z.leb_spec 0 j), (Z.ltb_spec j (0 + len x)); try lia.
        cbn [andb]. f_equal; lia.
      + intros j Hj. rewrite <- (HzX j) by lia.
        apply at0_eq_of_rd. rewrite HrdX by lia.
        destruct (Z.leb_spec 0 j), (Z.ltb_spec j (0 + len x)); try lia;
          reflexivity.
      + intros j Hj. apply at0_eq_of_rd. rewrite HrdH by lia.
        destruct (Z.leb_spec 0 j), (Z.ltb_spec j (0 + len h)); try lia.
        cbn [andb]. f_equal; lia.
      + intros j Hj. rewrite <- (HzH j) by lia.
        apply at0_eq_of_rd. rewrite HrdH by lia.
        destruct (Z.leb_spec 0 j), (Z.ltb_spec j (0 + len h)); try lia;
          reflexivity. }
  rewrite Hout. eexists. reflexivity.
Qed.

(** The first execution on the handle that the initializer returns gives
    the direct convolution, for every signal and kernel with an output of
    at most 2^30 samples. *)
Lemma convolve_fft_first_call (fftf : fftf_backend) (heap : nat -> sample)
    (x h result : farray) :
  (0 < len x)%Z -> (0 < len h)%Z ->
  (out_length (len x) (len h) <= 2 ^ 30)%Z ->
  (forall hd, convolve_fft_initialize heap (len x) (len h) = Ok hd ->
              convolution_theorem fftf (fft_M hd)) ->
  len result = (len x + len h - 1)%Z ->
  exists hd hd1,
    convolve_fft_initialize heap (len x) (len h) = Ok hd /\
    convolve_fft fftf hd x h result = Some (direct_convolution x h, hd1).
Proof.
  intros Hx Hh Hout Hconv Hres.
  destruct (convolve_fft_initialize_fresh heap (len x) (len h) Hx Hh Hout)
    as (hd & Hinit & Hfresh & Hpow).
  destruct (convolve_fft_direct fftf hd x h result Hfresh (Hconv _ Hinit) Hres)
    as (hd1 & Hrun).
  exists hd, hd1. auto.
Qed.

(** Two samples by two, with the exact transform of size 4. *)
Lemma convolve_fft_first_call_run :
  exists hd hd1,
    convolve_fft_initialize zero_heap (len run_x) (len run_h) = Ok hd /\
    convolve_fft dft4 hd run_x run_h run_result
    = Some (direct_convolution run_x run_h, hd1).
Proof.
  apply (convolve_fft_first_call dft4 zero_heap run_x run_h run_result).
  - vm_compute. reflexivity.
  - vm_compute. reflexivity.
  - vm_compute. congruence.
  - intros hd Hinit.
    assert (Hhd : hd = fresh_fft_handle 2 2).
    { change (convolve_fft_initialize zero_heap 2 2 = Ok hd) in Hinit.
      assert (Hf : convolve_fft_initialize zero_heap 2 2
                   = Ok (fresh_fft_handle 2 2)) by reflexivity.
      congruence. }
    rewrite Hhd. exact dft4_convolution_theorem.
  - reflexivity.
Defined.

(** * Further properties *)

(** ** The direct convolver: the whole output *)

(** With a result buffer of exactly N+M-1 floats the direct convolver
    stores the direct convolution, whatever the buffer held. *)
Lemma convolve_simd_direct_convolution (t : target) (simd : bool)
    (x h result : farray) :
  (0 < len x)%Z -> (0 < len h)%Z ->
  (len x + len h - 1 <= INT_MAX)%Z ->
  len result = (len x + len h - 1)%Z ->
  convolve_simd t simd x (len x) h (len h) result
  = Some (direct_convolution x h).
Proof.
  intros Hx Hh Hfit Hres.
  destruct (convolve_simd_windowed t simd x h result Hx Hh Hfit ltac:(lia))
    as (out & Hrun & Hlen & Hrd & _).
  rewrite Hrun. f_equal. apply farray_ext.
  - rewrite direct_convolution_len by lia. lia.
  - intros n Hn. rewrite Hrd by lia.
    rewrite direct_convolution_rd by lia. reflexivity.
Qed.

(** ** Sums: truncation and reversal *)

(** Two initial sums agree when the terms between their ends vanish. *)
Lemma sum_from_truncate (f : Z -> sample) (a b : nat) :
  (a <= b)%nat ->
  (forall m, (Z.of_nat a <= m < Z.of_nat b)%Z -> f m = 0) ->
  sum_from f 0 b = sum_from f 0 a.
Proof.
  intros Hab Hz. replace b with (a + (b - a))%nat by lia.
  rewrite sum_from_app, (sum_from_zero f (b - a)); [ring|].
  intros m Hm. apply Hz. lia.
Qed.

Lemma sum_from_last (f : Z -> sample) (k : nat) (lo : Z) :
  sum_from f lo (S k) = sum_from f lo k + f (lo + Z.of_nat k)%Z.
Proof.
  replace (S k) with (k + 1)%nat by lia. rewrite sum_from_app.
  cbn [sum_from]. ring.
Qed.

Lemma sum_from_shift (f : Z -> sample) (d : Z) (k : nat) (lo : Z) :
  sum_from f (lo + d) k = sum_from (fun j => f (j + d)%Z) lo k.
Proof.
  revert lo. induction k as [|k IH]; intros lo; [reflexivity|].
  cbn [sum_from]. f_equal.
  replace (lo + d + 1)%Z with (lo + 1 + d)%Z by lia. apply IH.
Qed.

(** Summing from the other end. *)
Lemma sum_from_reverse (f : Z -> sample) (k : nat) :
  sum_from f 0 k = sum_from (fun j => f (Z.of_nat k - 1 - j)%Z) 0 k.
Proof.
  induction k as [|k IH]; [reflexivity|].
  rewrite sum_from_last. cbn [sum_from].
  replace (Z.of_nat (S k) - 1 - 0)%Z with (0 + Z.of_nat k)%Z by lia.
  rewrite Qcplus_comm. f_equal.
  rewrite (sum_from_shift _ 1 k 0). rewrite IH.
  apply sum_from_ext. intros m Hm. f_equal. lia.
Qed.

(** ** The direct convolver: commutativity *)

Lemma full_sum_triangle (x h : farray) (n : Z) :
  (0 <= n)%Z -> full_sum x h n = triangle_sum x h n.
Proof.
  intros Hn. unfold full_sum, triangle_sum.
  destruct (Nat.le_gt_cases (length h) (Z.to_nat (n + 1))) as [Hle|Hgt].
  - symmetry. apply sum_from_truncate; [exact Hle|].
    intros m Hm. unfold term. rewrite (at0_out h) by (unfold len; lia). ring.
  - apply sum_from_truncate; [lia|].
    intros m Hm. unfold term. rewrite (at0_out x) by lia. ring.
Qed.

Lemma triangle_sum_comm (x h : farray) (n : Z) :
  (0 <= n)%Z -> triangle_sum x h n = triangle_sum h x n.
Proof.
  intros Hn. unfold triangle_sum. rewrite sum_from_reverse.
  apply sum_from_ext. intros m Hm. unfold term.
  rewrite Z2Nat.id by lia.
  replace (n - (n + 1 - 1 - m))%Z with m by lia.
  replace (n + 1 - 1 - m)%Z with (n - m)%Z by lia. ring.
Qed.

Lemma direct_sum_comm (x h : farray) (n : Z) :
  (0 < len x)%Z -> (0 < len h)%Z -> (0 <= n < len x + len h - 1)%Z ->
  direct_sum x h n = direct_sum h x n.
Proof.
  intros Hx Hh Hn.
  rewrite !direct_sum_full by lia.
  rewrite !full_sum_triangle by lia. apply triangle_sum_comm. lia.
Qed.

(** X8. Over exact arithmetic (rational samples, nothing rounded),
    exchanging the signal and the kernel does not change what the direct
    convolver stores, on any target and with any values of the flag. The
    two calls add the same products in opposite orders, so the statement
    does not carry over to rounded sums. *)
Theorem convolve_simd_commutative (t t' : target) (simd simd' : bool)
    (x h result : farray) :
  (0 < len x)%Z -> (0 < len h)%Z ->
  (len x + len h - 1 <= INT_MAX)%Z ->
  (len x + len h - 1 <= len result)%Z ->
  convolve_simd t simd x (len x) h (len h) result
  = convolve_simd t' simd' h (len h) x (len x) result /\
  exists out, convolve_simd t simd x (len x) h (len h) result = Some out.
Proof.
  intros Hx Hh Hfit Hres.
  destruct (convolve_simd_windowed t simd x h result Hx Hh Hfit Hres)
    as (out & Hrun & Hlen & Hrd & Hrest).
  destruct (convolve_simd_windowed t' simd' h x result Hh Hx
              ltac:(lia) ltac:(lia))
    as (out' & Hrun' & Hlen' & Hrd' & Hrest').
  split; [|exists out; exact Hrun].
  rewrite Hrun, Hrun'. f_equal. apply farray_ext; [lia|].
  intros n Hn.
  destruct (Z.lt_ge_cases n (len x + len h - 1)) as [Hin|Hout].
  - rewrite Hrd, Hrd' by lia. f_equal. apply direct_sum_comm; lia.
  - rewrite Hrest, Hrest' by lia. reflexivity.
Qed.

(** The literal example, operands exchanged. *)
Lemma convolve_simd_commutative_witness :
  convolve_simd AVX true example_x (len example_x) example_h (len example_h)
    example_buffer
  = convolve_simd NEON false example_h (len example_h) example_x
      (len example_x) example_buffer /\
  exists out,
    convolve_simd AVX true example_x (len example_x) example_h
      (len example_h) example_buffer = Some out.
Proof.
  apply (convolve_simd_commutative AVX NEON true false example_x example_h
           example_buffer); vm_compute; congruence.
Defined.

(** ** The direct convolver: the identity kernel *)

Lemma direct_sum_unit (x : farray) (n : Z) :
  (0 <= n < len x)%Z -> direct_sum x unit_kernel n = at0 x n.
Proof.
  intros Hn. rewrite direct_sum_full by (cbn; lia).
  unfold full_sum, unit_kernel. cbn [length sum_from]. unfold term.
  replace (n - 0)%Z with n by lia.
  change (at0 [1] 0) with 1. ring.
Qed.

(** X9. Convolving by the kernel [1] returns the signal. *)
Theorem convolve_simd_unit_kernel (t : target) (simd : bool)
    (x result : farray) :
  (0 < len x <= INT_MAX)%Z -> len result = len x ->
  convolve_simd t simd x (len x) unit_kernel 1 result = Some x.
Proof.
  intros Hx Hres.
  change 1%Z with (len unit_kernel).
  rewrite convolve_simd_direct_convolution;
    try (change (len unit_kernel) with 1%Z; lia).
  f_equal. apply farray_ext.
  - rewrite direct_convolution_len by (cbn; lia).
    change (len unit_kernel) with 1%Z. lia.
  - intros n Hn.
    rewrite direct_convolution_len in Hn by (cbn; lia).
    change (len unit_kernel) with 1%Z in Hn.
    rewrite direct_convolution_rd
      by (change (len unit_kernel) with 1%Z; lia).
    rewrite direct_sum_unit by lia. symmetry. apply rd_in. lia.
Qed.

Lemma convolve_simd_unit_kernel_witness :
  convolve_simd AVX true example_x (len example_x) unit_kernel 1
    (firstn 3 example_buffer) = Some example_x.
Proof.
  apply (convolve_simd_unit_kernel AVX true example_x
           (firstn 3 example_buffer)); vm_compute; [split|]; congruence.
Defined.

(** ** The direct convolver: linearity in the kernel *)

Lemma sum_from_linear (a b : sample) (f g : Z -> sample) (k : nat) (lo : Z) :
  sum_from (fun m => a * f m + b * g m) lo k
  = a * sum_from f lo k + b * sum_from g lo k.
Proof.
  revert lo. induction k as [|k IH]; intros lo; cbn [sum_from];
    [ring|rewrite IH; ring].
Qed.

Lemma combine_kernels_length (a b : sample) (h1 h2 : farray) :
  length h1 = length h2 ->
  length (combine_kernels a h1 b h2) = length h1.
Proof.
  intros H. unfold combine_kernels.
  rewrite length_map, length_combine. lia.
Qed.

Lemma nth_error_combine_some (l1 l2 : farray) (k : nat) (u v : sample) :
  nth_error l1 k = Some u -> nth_error l2 k = Some v ->
  nth_error (List.combine l1 l2) k = Some (u, v).
Proof.
  revert k l2. induction l1 as [|p l1 IH]; intros [|k] [|q l2] E1 E2;
    try discriminate; cbn in *; [congruence|apply IH; assumption].
Qed.

Lemma combine_kernels_at0 (a b : sample) (h1 h2 : farray) (m : Z) :
  length h1 = length h2 ->
  at0 (combine_kernels a h1 b h2) m = a * at0 h1 m + b * at0 h2 m.
Proof.
  intros Hlen.
  destruct (Z.lt_ge_cases m 0) as [Hneg|Hpos].
  { rewrite !at0_out by lia. ring. }
  destruct (Z.lt_ge_cases m (len h1)) as [Hin|Hout].
  - unfold at0. rewrite !rd_nth_error by lia. unfold combine_kernels.
    rewrite nth_error_map.
    destruct (nth_error h1 (Z.to_nat m)) as [u|] eqn:E1;
      [|apply nth_error_None in E1; unfold len in *; lia].
    destruct (nth_error h2 (Z.to_nat m)) as [v|] eqn:E2;
      [|apply nth_error_None in E2; unfold len in *; lia].
    assert (Hc : nth_error (List.combine h1 h2) (Z.to_nat m) = Some (u, v)).
    { apply nth_error_combine_some; assumption. }
    rewrite Hc. reflexivity.
  - rewrite (at0_out (combine_kernels a h1 b h2))
      by (unfold len in *; rewrite combine_kernels_length by assumption; lia).
    rewrite (at0_out h1), (at0_out h2) by (unfold len in *; lia). ring.
Qed.

Lemma direct_sum_linear (a b : sample) (x h1 h2 : farray) (n : Z) :
  length h1 = length h2 ->
  (0 < len x)%Z -> (0 < len h1)%Z -> (0 <= n < len x + len h1 - 1)%Z ->
  direct_sum x (combine_kernels a h1 b h2) n
  = a * direct_sum x h1 n + b * direct_sum x h2 n.
Proof.
  intros Hlen Hx Hh Hn.
  pose proof (combine_kernels_length a b h1 h2 Hlen) as Hc.
  rewrite !direct_sum_full by (unfold len in *; lia).
  unfold full_sum. rewrite Hc, <- Hlen, <- sum_from_linear.
  apply sum_from_ext. intros m Hm. unfold term.
  rewrite combine_kernels_at0 by assumption. ring.
Qed.

(** X10. The direct convolver is linear in the kernel: on the kernel
    a*h1 + b*h2 it stores a times what it stores on h1 plus b times what it
    stores on h2. *)
Theorem convolve_simd_linear (t : target) (simd : bool) (a b : sample)
    (x h1 h2 result : farray) :
  length h1 = length h2 ->
  (0 < len x)%Z -> (0 < len h1)%Z ->
  (len x + len h1 - 1 <= INT_MAX)%Z ->
  (len x + len h1 - 1 <= len result)%Z ->
  exists out out1 out2,
    convolve_simd t simd x (len x) (combine_kernels a h1 b h2) (len h1) result
    = Some out /\
    convolve_simd t simd x (len x) h1 (len h1) result = Some out1 /\
    convolve_simd t simd x (len x) h2 (len h2) result = Some out2 /\
    forall n, (0 <= n < len x + len h1 - 1)%Z ->
      at0 out n = a * at0 out1 n + b * at0 out2 n.
Proof.
  intros Hlen Hx Hh Hfit Hres.
  pose proof (combine_kernels_length a b h1 h2 Hlen) as Hc.
  assert (Hlc : len (combine_kernels a h1 b h2) = len h1)
    by (unfold len; lia).
  assert (Hl2 : len h2 = len h1) by (unfold len; lia).
  destruct (convolve_simd_windowed t simd x (combine_kernels a h1 b h2)
              result Hx ltac:(lia) ltac:(lia) ltac:(lia))
    as (out & Hrun & _ & Hrd & _).
  destruct (convolve_simd_windowed t simd x h1 result Hx Hh Hfit Hres)
    as (out1 & Hrun1 & _ & Hrd1 & _).
  destruct (convolve_simd_windowed t simd x h2 result Hx ltac:(lia)
              ltac:(lia) ltac:(lia))
    as (out2 & Hrun2 & _ & Hrd2 & _).
  rewrite Hlc in Hrun. exists out, out1, out2.
  split; [exact Hrun|]. split; [exact Hrun1|]. split; [exact Hrun2|].
  intros n Hn.
  rewrite (at0_of_rd_some out n _ (Hrd n ltac:(lia))).
  rewrite (at0_of_rd_some out1 n _ (Hrd1 n ltac:(lia))).
  rewrite (at0_of_rd_some out2 n _ (Hrd2 n ltac:(lia))).
  apply direct_sum_linear; assumption.
Qed.

Lemma convolve_simd_linear_witness :
  exists out out1 out2,
    convolve_simd AVX true example_x (len example_x)
      (combine_kernels half example_h (1 + 1) example_h) (len example_h)
      example_buffer = Some out /\
    convolve_simd AVX true example_x (len example_x) example_h
      (len example_h) example_buffer = Some out1 /\
    convolve_simd AVX true example_x (len example_x) example_h
      (len example_h) example_buffer = Some out2 /\
    forall n, (0 <= n < len example_x + len example_h - 1)%Z ->
      at0 out n = half * at0 out1 n + (1 + 1) * at0 out2 n.
Proof.
  apply (convolve_simd_linear AVX true half (1 + 1) example_x example_h
           example_h example_buffer); vm_compute; congruence.
Defined.

(** ** The overlap-save initializer: precondition and block size *)

(** [hLength < xLength / 2] in integers. *)
Lemma below_half_iff (xLength hLength : Z) :
  (hLength < xLength / 2 <-> 2 * hLength + 2 <= xLength)%Z.
Proof.
  pose proof (Z.div_mod xLength 2 ltac:(lia)).
  pose proof (Z.mod_pos_bound xLength 2 ltac:(lia)). lia.
Qed.

(** X12. The overlap-save initializer checks the lengths before anything
    else, and [hLength < xLength / 2] is an integer division: whenever
    xLength < 2*hLength + 2 or hLength = 0 the call aborts on an assertion,
    and a handle is returned only when 0 < hLength and
    2*hLength + 2 <= xLength; that handle records the two lengths. (What
    the call does when memory or a plan is refused is X22.) *)
Theorem convolve_overlap_save_initialize_outcome (heap : nat -> sample)
    (xLength hLength : Z) :
  ((xLength < 2 * hLength + 2 \/ hLength = 0)%Z ->
   convolve_overlap_save_initialize heap xLength hLength = AssertionFailed) /\
  (forall hd,
     convolve_overlap_save_initialize heap xLength hLength = Ok hd ->
     (0 < hLength)%Z /\ (2 * hLength + 2 <= xLength)%Z /\
     os_x_length hd = xLength /\ os_h_length hd = hLength).
Proof.
  pose proof (below_half_iff xLength hLength) as Hhalf.
  split.
  - intros Hbad. unfold convolve_overlap_save_initialize.
    destruct (Z.ltb_spec hLength (xLength / 2)) as [G0|G0];
      [|reflexivity].
    cbn [assert obind].
    destruct (Z.gtb_spec xLength 0) as [G1|G1]; [|reflexivity].
    cbn [assert obind].
    destruct (Z.gtb_spec hLength 0) as [G2|G2]; [lia|reflexivity].
  - intros hd E.
    apply convolve_overlap_save_initialize_inv in E.
    destruct E as (Ex & Eh & _ & Hpos & Hpre).
    repeat split; try assumption; lia.
Qed.

(** X13. The handle that the overlap-save initializer returns: the block size
    is the power of two 2^(2 + floor(log2 M)), above 2*M and at most 4*M, so
    that the step L-(M-1) is above M+1; both buffers hold L+2 floats; the
    lengths are recorded and the reverse flag is clear. *)
Theorem convolve_overlap_save_initialize_block (heap : nat -> sample)
    (xLength hLength : Z) :
  (0 < hLength < 2 ^ 29)%Z -> (hLength < xLength / 2)%Z ->
  exists hd,
    convolve_overlap_save_initialize heap xLength hLength = Ok hd /\
    os_L hd = (2 ^ (2 + Z.log2 hLength))%Z /\ is_pow2 (os_L hd) /\
    (2 * hLength < os_L hd <= 4 * hLength)%Z /\
    (hLength + 1 < os_step hd)%Z /\
    len (os_H hd) = (os_L hd + 2)%Z /\
    len (os_fft_boiler_plate hd) = (os_L hd + 2)%Z /\
    os_x_length hd = xLength /\ os_h_length hd = hLength /\
    os_reverse hd = false.
Proof.
  intros HM Hpre.
  destruct (convolve_overlap_save_initialize_ok heap xLength hLength HM Hpre)
    as (H & boiler & Hinit & HlenH & HlenB).
  pose proof (os_block_size_bounds hLength ltac:(lia)) as HL.
  pose proof (os_block_size_max hLength HM) as HLmax.
  eexists. split; [exact Hinit|].
  unfold os_step.
  cbn [os_x_length os_h_length os_reverse os_L os_H os_fft_boiler_plate].
  rewrite to_int_to_size_t, to_int_small by range_lia.
  split; [reflexivity|]. split.
  - exists (2 + Z.log2 hLength)%Z. split; [|reflexivity].
    pose proof (Z.log2_nonneg hLength). lia.
  - repeat split; try assumption; lia.
Qed.

Lemma convolve_overlap_save_initialize_block_witness :
  exists hd,
    convolve_overlap_save_initialize zero_heap 300 128 = Ok hd /\
    os_L hd = (2 ^ (2 + Z.log2 128))%Z /\ is_pow2 (os_L hd) /\
    (2 * 128 < os_L hd <= 4 * 128)%Z /\
    (128 + 1 < os_step hd)%Z /\
    len (os_H hd) = (os_L hd + 2)%Z /\
    len (os_fft_boiler_plate hd) = (os_L hd + 2)%Z /\
    os_x_length hd = 300%Z /\ os_h_length hd = 128%Z /\
    os_reverse hd = false.
Proof.
  apply (convolve_overlap_save_initialize_block zero_heap 300 128);
    vm_compute; [split|]; reflexivity.
Defined.

(** ** The selector: when initialization aborts *)

(** X14. For positive lengths (kernel below 2^63 samples) and on every
    target, the lengths that the selector sends to overlap-save although
    they fail its precondition hLength < xLength/2 are exactly those with
    xLength = 2*hLength + 1 and xLength > 200: the test of the selector is
    xLength > 2*hLength, the precondition asks xLength >= 2*hLength + 2.
    For each of them [convolve_initialize] aborts on that assertion. *)
Theorem convolve_initialize_aborts (heap : nat -> sample) (t : target)
    (xLength hLength : Z) :
  (0 < xLength)%Z -> (0 < hLength < 2 ^ 63)%Z ->
  ((algorithm_choice t xLength hLength = kConvolutionAlgorithmOverlapSave /\
    ~ (hLength < xLength / 2)%Z)
   <-> (xLength = 2 * hLength + 1 /\ xLength > 200)%Z) /\
  ((xLength = 2 * hLength + 1 /\ xLength > 200)%Z ->
   convolve_initialize heap t xLength hLength = AssertionFailed).
Proof.
  intros Hx Hh.
  pose proof (below_half_iff xLength hLength) as Hhalf.
  unfold algorithm_choice, convolve_initialize, long_threshold.
  rewrite to_size_t_small by range_lia.
  destruct (Z.gtb_spec xLength (hLength * 2)) as [G1|G1].
  - destruct (Z.gtb_spec xLength 200) as [G2|G2].
    + split.
      * split; [intros [_ Hnot]; lia|intros [E _]; split; [reflexivity|lia]].
      * intros [E _]. unfold convolve_overlap_save_initialize.
        destruct (Z.ltb_spec hLength (xLength / 2)) as [G0|G0]; [lia|].
        reflexivity.
    + split; [|lia]. split; [intros [Habs _]; discriminate Habs|lia].
  - split; [|lia]. split; [|lia].
    intros [Habs _]. destruct (xLength >? medium_threshold t)%Z;
      discriminate Habs.
Qed.

Lemma convolve_initialize_aborts_witness :
  ((algorithm_choice NEON 1001 500 = kConvolutionAlgorithmOverlapSave /\
    ~ (500 < 1001 / 2)%Z)
   <-> (1001 = 2 * 500 + 1 /\ 1001 > 200)%Z) /\
  ((1001 = 2 * 500 + 1 /\ 1001 > 200)%Z ->
   convolve_initialize zero_heap NEON 1001 500 = AssertionFailed).
Proof.
  apply (convolve_initialize_aborts zero_heap NEON 1001 500); lia.
Defined.

(** ** Zero lengths *)

(** X15. A zero length never yields a result: when [convolve_initialize] returns
    a handle for it (the brute-force one, without any check), the execution
    on that handle aborts on the assertions of [convolve_simd], whatever the
    arrays. *)
Theorem convolve_zero_length_aborts (fftf : fftf_backend)
    (heap : nat -> sample) (t : target) (xLength hLength : Z)
    (hd : ConvolutionHandle) (x h result : farray) :
  (0 <= xLength)%Z -> (0 <= hLength < 2 ^ 63)%Z ->
  (xLength = 0 \/ hLength = 0)%Z ->
  convolve_initialize heap t xLength hLength = Ok hd ->
  algorithm hd = kConvolutionAlgorithmBruteForce /\
  convolve fftf t hd x h result = None.
Proof.
  intros Hx Hh Hzero. unfold convolve_initialize, long_threshold.
  rewrite to_size_t_small by range_lia.
  assert (Hrun : forall u,
             convolve fftf t
               (MkHandle kConvolutionAlgorithmBruteForce xLength hLength u)
               x h result = None).
  { intros u. unfold convolve. cbn [algorithm x_length h_length handle].
    unfold convolve_simd.
    destruct (Z.gtb_spec xLength 0), (Z.gtb_spec hLength 0);
      try lia; reflexivity. }
  destruct (Z.gtb_spec xLength (hLength * 2)) as [G1|G1].
  - assert (hLength = 0%Z) by lia. subst hLength.
    destruct (Z.gtb_spec xLength 200) as [G2|G2].
    + unfold convolve_overlap_save_initialize.
      destruct (0 <? xLength / 2)%Z; cbn [assert obind]; [|discriminate].
      destruct (xLength >? 0)%Z; cbn [assert obind]; discriminate.
    + intros [= <-]. split; [reflexivity|apply Hrun].
  - assert (xLength = 0%Z) by lia. subst xLength.
    assert (Hm : (0 >? medium_threshold t)%Z = false) by (destruct t; reflexivity).
    rewrite Hm. intros [= <-]. split; [reflexivity|apply Hrun].
Qed.

Lemma convolve_zero_length_aborts_witness :
  algorithm (MkHandle kConvolutionAlgorithmBruteForce 0 5 union_unset)
  = kConvolutionAlgorithmBruteForce /\
  convolve dft4 AVX (MkHandle kConvolutionAlgorithmBruteForce 0 5 union_unset)
    [] example_h example_buffer = None.
Proof.
  apply (convolve_zero_length_aborts dft4 zero_heap AVX 0 5
           (MkHandle kConvolutionAlgorithmBruteForce 0 5 union_unset)
           [] example_h example_buffer).
  - lia.
  - lia.
  - left. reflexivity.
  - reflexivity.
Defined.

(** ** Overlap-save: signals shorter than the step *)

(** X2. Whenever the precondition 0 < M < N/2 holds but the signal is shorter
    than the step L-(M-1), the initializer returns a handle and every
    execution on it is undefined: the first block copies [step] samples of
    x, more than x has. With [overlap_save_matches_direct] this makes
    step <= N the exact condition under which the convolver is defined. *)
Theorem convolve_overlap_save_short_signal (fftf : fftf_backend)
    (heap : nat -> sample) (x h result : farray) :
  (0 < len h < 2 ^ 29)%Z -> (len h < len x / 2)%Z ->
  (len x < os_block_size (len h) - (len h - 1))%Z ->
  exists hd,
    convolve_overlap_save_initialize heap (len x) (len h) = Ok hd /\
    os_step hd = (os_block_size (len h) - (len h - 1))%Z /\
    convolve_overlap_save fftf hd x h result = None.
Proof.
  intros HM Hpre Hshort.
  destruct (convolve_overlap_save_initialize_ready heap (len x) (len h)
              HM Hpre) as (hd & Hinit & Hready & HLeq).
  destruct Hready as (HN & HMl & _).
  pose proof (os_block_size_bounds (len h) ltac:(lia)) as HLb.
  pose proof (os_block_size_max (len h) HM) as HLm.
  assert (Hs : os_step hd = (os_block_size (len h) - (len h - 1))%Z).
  { unfold os_step. rewrite HMl, HLeq, to_int_to_size_t.
    apply to_int_small. range_lia. }
  exists hd. split; [exact Hinit|]. split; [exact Hs|].
  assert (Hx : (0 < len x)%Z).
  { pose proof (Z.div_mod (len x) 2 ltac:(lia)).
    pose proof (Z.mod_pos_bound (len x) 2 ltac:(lia)). lia. }
  apply convolve_overlap_save_overrun.
  - rewrite HN, HMl. rewrite to_size_t_small by range_lia. lia.
  - rewrite Hs. rewrite byte_count_size by lia. exact Hshort.
Qed.

Lemma convolve_overlap_save_short_signal_witness :
  exists hd,
    convolve_overlap_save_initialize zero_heap (len six_x) (len two_h)
    = Ok hd /\
    os_step hd = (os_block_size (len two_h) - (len two_h - 1))%Z /\
    convolve_overlap_save dft4 hd six_x two_h seven_result = None.
Proof.
  apply (convolve_overlap_save_short_signal dft4 zero_heap six_x two_h
           seven_result).
  - vm_compute. split; reflexivity.
  - vm_compute. reflexivity.
  - vm_compute. reflexivity.
Defined.

(** ** The spectral product *)

Lemma complex_multiply_na_step (a b : farray) (i : Z) :
  (0 <= i)%Z -> (i + 2 <= len a)%Z -> (i + 2 <= len b)%Z ->
  exists a',
    complex_multiply_na a b i = Some a' /\ len a' = len a /\
    rd a' i = Some (product_re a b i) /\
    rd a' (i + 1) = Some (product_im a b i) /\
    forall p, (0 <= p)%Z -> p <> i -> p <> (i + 1)%Z -> rd a' p = rd a p.
Proof.
  intros Hi Ha Hb. unfold complex_multiply_na.
  rewrite (rd_in a i), (rd_in a (i + 1)), (rd_in b i), (rd_in b (i + 1))
    by lia.
  cbn [bind].
  destruct (wr_some a i (at0 a i * at0 b i - at0 a (i + 1) * at0 b (i + 1)))
    as (a1 & Hw1); [lia|].
  rewrite Hw1. cbn [bind].
  pose proof (wr_len _ _ _ _ Hw1) as Hl1.
  destruct (wr_some a1 (i + 1)
              (at0 a i * at0 b (i + 1) + at0 a (i + 1) * at0 b i))
    as (a2 & Hw2); [lia|].
  exists a2. split; [exact Hw2|].
  pose proof (wr_len _ _ _ _ Hw2) as Hl2.
  split; [lia|]. split; [|split].
  - rewrite (wr_rd _ _ i _ _ Hw2) by lia.
    destruct (Z.eqb_spec i (i + 1)); [lia|].
    rewrite (wr_rd _ _ i _ _ Hw1) by lia. rewrite Z.eqb_refl. reflexivity.
  - rewrite (wr_rd _ _ (i + 1) _ _ Hw2) by lia. rewrite Z.eqb_refl.
    reflexivity.
  - intros p Hp Hp1 Hp2.
    rewrite (wr_rd _ _ p _ _ Hw2) by lia.
    destruct (Z.eqb_spec p (i + 1)); [lia|].
    rewrite (wr_rd _ _ p _ _ Hw1) by lia.
    destruct (Z.eqb_spec p i); [lia|reflexivity].
Qed.

Lemma spectrum_pairs_iter (H : farray) (cnt : nat) :
  forall (i : Z) (a : farray),
    (0 <= i)%Z -> (i + 2 * Z.of_nat cnt <= len a)%Z ->
    (i + 2 * Z.of_nat cnt <= len H)%Z ->
    exists c,
      iter_stride cnt i 2 (fun i X => complex_multiply_na X H i) a = Some c /\
      len c = len a /\
      (forall j, (0 <= j < Z.of_nat cnt)%Z ->
         rd c (i + 2 * j) = Some (product_re a H (i + 2 * j)) /\
         rd c (i + 2 * j + 1) = Some (product_im a H (i + 2 * j))) /\
      (forall p, (0 <= p)%Z -> (p < i \/ i + 2 * Z.of_nat cnt <= p)%Z ->
         rd c p = rd a p).
Proof.
  induction cnt as [|k IH]; intros i a Hi Ha HH.
  - exists a. split; [reflexivity|]. split; [reflexivity|].
    split; [intros j Hj; lia|reflexivity].
  - cbn [iter_stride].
    destruct (complex_multiply_na_step a H i Hi ltac:(lia) ltac:(lia))
      as (a1 & Hstep & Hl1 & Hre & Him & Hother).
    rewrite Hstep. cbn [bind].
    destruct (IH (i + 2)%Z a1 ltac:(lia) ltac:(lia) ltac:(lia))
      as (c & Hrun & Hlc & Hpairs & Hrest).
    exists c. split; [exact Hrun|]. split; [lia|]. split.
    + intros j Hj. destruct (Z.eq_dec j 0) as [->|Hj0].
      * replace (i + 2 * 0)%Z with i by lia.
        rewrite !Hrest by lia. split; assumption.
      * destruct (Hpairs (j - 1)%Z ltac:(lia)) as (Hr & Hm).
        replace (i + 2 + 2 * (j - 1))%Z with (i + 2 * j)%Z in * by lia.
        rewrite Hr, Hm. unfold product_re, product_im, at0.
        rewrite !Hother by lia. split; reflexivity.
    + intros p Hp Hout. rewrite Hrest by lia. apply Hother; lia.
Qed.

(** X5. On buffers of M+2 floats, M even, the spectral product is defined and
    replaces each of the M/2+1 complex numbers of X, the top-frequency
    coefficient included, by its product with the matching one of H; the
    size of X does not change. *)
Theorem spectrum_multiply_pairs (X H : farray) (M : Z) :
  (0 <= M)%Z -> (M + 2 <= INT_MAX)%Z -> (M mod 2 = 0)%Z ->
  len X = (M + 2)%Z -> len H = (M + 2)%Z ->
  exists c,
    spectrum_multiply X H M = Some c /\ len c = (M + 2)%Z /\
    forall j, (0 <= j <= M / 2)%Z ->
      at0 c (2 * j) = product_re X H (2 * j) /\
      at0 c (2 * j + 1) = product_im X H (2 * j).
Proof.
  intros HM Hfit Heven HlX HlH. unfold spectrum_multiply.
  rewrite to_int_small by range_lia.
  pose proof (Z.div_mod M 2 ltac:(lia)) as Hdm.
  pose proof (for_int_iter_stride
                (fun i X => complex_multiply_na X H i) 2 0
                (Z.to_nat (M / 2 + 1)) X) as Hloop.
  replace (0 + 2 * Z.of_nat (Z.to_nat (M / 2 + 1)))%Z with (M + 2)%Z
    in Hloop by lia.
  rewrite Hloop; try lia; try range_lia.
  destruct (spectrum_pairs_iter H (Z.to_nat (M / 2 + 1)) 0 X)
    as (c & Hrun & Hlc & Hpairs & _); try lia.
  exists c. split; [exact Hrun|]. split; [lia|].
  intros j Hj. destruct (Hpairs j ltac:(lia)) as (Hr & Hm).
  replace (0 + 2 * j)%Z with (2 * j)%Z in * by lia.
  split; apply at0_of_rd_some; assumption.
Qed.

Lemma spectrum_multiply_pairs_witness :
  exists c,
    spectrum_multiply (map sample_of_Z [3; 0; 1; -2; -1; 0]%Z)
      (map sample_of_Z [8; 0; 3; -5; -2; 0]%Z) 4 = Some c /\
    len c = (4 + 2)%Z /\
    forall j, (0 <= j <= 4 / 2)%Z ->
      at0 c (2 * j)
      = product_re (map sample_of_Z [3; 0; 1; -2; -1; 0]%Z)
          (map sample_of_Z [8; 0; 3; -5; -2; 0]%Z) (2 * j) /\
      at0 c (2 * j + 1)
      = product_im (map sample_of_Z [3; 0; 1; -2; -1; 0]%Z)
          (map sample_of_Z [8; 0; 3; -5; -2; 0]%Z) (2 * j).
Proof.
  apply (spectrum_multiply_pairs (map sample_of_Z [3; 0; 1; -2; -1; 0]%Z)
           (map sample_of_Z [8; 0; 3; -5; -2; 0]%Z) 4);
    vm_compute; congruence.
Defined.

(** ** The single-shot transform convolver on one sample by one *)

Lemma memcpy_len (dst : farray) (doff : Z) (src : farray) (soff n : Z)
    (d : farray) :
  memcpy dst doff src soff n = Some d -> len d = len dst.
Proof.
  unfold memcpy.
  destruct (Z.leb_spec 0 doff), (Z.leb_spec 0 soff), (Z.leb_spec 0 n),
    (Z.leb_spec (doff + n) (len dst)), (Z.leb_spec (soff + n) (len src));
    cbn [andb]; try discriminate.
  destruct (memcpy_rd dst doff src soff n) as (d' & Hcp & Hlen & _);
    try lia.
  unfold memcpy in Hcp.
  destruct (Z.leb_spec 0 doff), (Z.leb_spec 0 soff), (Z.leb_spec 0 n),
    (Z.leb_spec (doff + n) (len dst)), (Z.leb_spec (soff + n) (len src));
    cbn [andb] in Hcp; try lia.
  congruence.
Qed.

(** On buffers of three floats (transform size 1) the spectral product
    runs past the end: its second pair starts at the last float. *)
Lemma spectrum_multiply_size_one (a b : farray) :
  len a = 3%Z -> spectrum_multiply a b 1 = None.
Proof.
  intros Ha.
  destruct a as [|u0 [|u1 [|u2 [|u3 a]]]]; try discriminate Ha;
    [|exfalso; unfold len in Ha; cbn [length] in Ha; lia].
  destruct b as [|v0 [|v1 b]]; reflexivity.
Qed.

(** X4. For xLength = hLength = 1 the transform size is 1 and the buffers hold
    3 floats; the loop of the spectral product, [i < M + 2] in steps of 2,
    then visits i = 2 and touches X[3]: every execution is undefined,
    whatever the arrays, for a backend that keeps the size of the buffer. *)
Theorem convolve_fft_single_sample (fftf : fftf_backend)
    (heap : nat -> sample) (x h result : farray) :
  (forall b, len b = 3%Z -> len (forward fftf 1 b) = 3%Z) ->
  exists hd,
    convolve_fft_initialize heap 1 1 = Ok hd /\
    fft_M hd = 1%Z /\ len (fft_inputs0 hd) = 3%Z /\
    convolve_fft fftf hd x h result = None.
Proof.
  intros Hkeep. eexists. split; [reflexivity|].
  split; [reflexivity|]. split; [reflexivity|].
  unfold convolve_fft.
  cbn [fft_x_length fft_h_length fft_reverse fft_M fft_inputs0 fft_inputs1
       fft_fft_plan fft_fft_inverse_plan].
  destruct (memcpy _ 0 x 0 _) as [Xb|] eqn:EX; cbn [bind]; [|reflexivity].
  destruct (memcpy _ 0 h 0 _) as [Hb|] eqn:EH; cbn [bind]; [|reflexivity].
  apply memcpy_len in EX.
  rewrite !fftf_calc_forward_batch.
  rewrite spectrum_multiply_size_one; [reflexivity|].
  apply Hkeep. rewrite EX. reflexivity.
Qed.

Lemma convolve_fft_single_sample_witness :
  exists hd,
    convolve_fft_initialize zero_heap 1 1 = Ok hd /\
    fft_M hd = 1%Z /\ len (fft_inputs0 hd) = 3%Z /\
    convolve_fft idle_backend hd [1] [1] [0] = None.
Proof.
  apply (convolve_fft_single_sample idle_backend zero_heap [1] [1] [0]).
  intros b Hb. exact Hb.
Defined.

(** ** The direct convolver and the zero-extended signal *)

(** X11. Over exact arithmetic (rational samples, nothing rounded), the
    window [max(0, n-N+1), min(n, M-1)] of the direct convolver leaves out
    only terms that vanish: what it stores at n is the sum over every m in
    [0, M) of h[m] * x[n-m], x extended by zeros. *)
Theorem convolve_simd_zero_extended (t : target) (simd : bool)
    (x h result : farray) :
  (0 < len x)%Z -> (0 < len h)%Z ->
  (len x + len h - 1 <= INT_MAX)%Z ->
  (len x + len h - 1 <= len result)%Z ->
  exists out,
    convolve_simd t simd x (len x) h (len h) result = Some out /\
    forall n, (0 <= n < len x + len h - 1)%Z ->
      rd out n = Some (full_sum x h n).
Proof.
  intros Hx Hh Hfit Hres.
  destruct (convolve_simd_windowed t simd x h result Hx Hh Hfit Hres)
    as (out & Hrun & _ & Hrd & _).
  exists out. split; [exact Hrun|].
  intros n Hn. rewrite Hrd by lia. f_equal.
  apply direct_sum_full; assumption.
Qed.

Lemma convolve_simd_zero_extended_witness :
  exists out,
    convolve_simd NEON true example_x (len example_x) example_h
      (len example_h) example_buffer = Some out /\
    forall n, (0 <= n < len example_x + len example_h - 1)%Z ->
      rd out n = Some (full_sum example_x example_h n).
Proof.
  apply (convolve_simd_zero_extended NEON true example_x example_h
           example_buffer); vm_compute; congruence.
Defined.

(** ** The direct convolver and the size of the result buffer *)

(** An output index at or beyond the end of the buffer: the store, if the
    loop gets that far, is outside of it. *)
Lemma outer_loop_overrun (t : target) (simd : bool) (x h : farray)
    (xLength hLength : Z) (cnt : nat) :
  forall (n : Z) (result : farray),
    (0 <= n <= len result)%Z -> (len result < n + Z.of_nat cnt)%Z ->
    iter_stride cnt n 1
      (fun n result =>
         let beg := window_beg n xLength in
         let stop := window_end n hLength in
         sum <- inner_sum t simd x h n beg stop ;;
         wr result n sum)
      result = None.
Proof.
  induction cnt as [|c IH]; intros n result Hn Hover.
  - lia.
  - cbn [iter_stride]. cbn zeta.
    destruct (inner_sum t simd x h n _ _) as [sum|]; cbn [bind];
      [|reflexivity].
    destruct (wr result n sum) as [r1|] eqn:E; cbn [bind]; [|reflexivity].
    pose proof (wr_len _ _ _ _ E) as Hlen.
    assert (Hin : (n < len result)%Z).
    { destruct (Z.lt_ge_cases n (len result)) as [|Hout]; [assumption|].
      unfold wr in E. destruct (Z.ltb_spec n 0); [discriminate|].
      assert (Hnone : set_nth result (Z.to_nat n) sum = None).
      { assert (Hk : (length result <= Z.to_nat n)%nat)
          by (unfold len in Hout; lia).
        clear - Hk. revert Hk. generalize (Z.to_nat n) as k.
        induction result as [|u r IHr]; intros k Hk; [reflexivity|].
        destruct k as [|k]; [cbn [length] in Hk; lia|].
        cbn [set_nth]. rewrite IHr by (cbn [length] in Hk; lia).
        reflexivity. }
      congruence. }
    apply IH; lia.
Qed.

(** X24. The direct convolver stores at every n of [0, N+M-1), whatever the
    samples and the arithmetic: for N, M > 0 with N+M-1 within [int], a
    result buffer of fewer than N+M-1 floats makes every call undefined, on
    every target and with either value of the flag. *)
Theorem convolve_simd_short_buffer (t : target) (simd : bool)
    (x h result : farray) (xLength hLength : Z) :
  (0 < xLength)%Z -> (0 < hLength)%Z ->
  (xLength + hLength - 1 <= INT_MAX)%Z ->
  (len result < xLength + hLength - 1)%Z ->
  convolve_simd t simd x xLength h hLength result = None.
Proof.
  intros Hx Hh Hfit Hshort. unfold convolve_simd.
  destruct (Z.gtb_spec xLength 0) as [_|]; [|lia].
  destruct (Z.gtb_spec hLength 0) as [_|]; [|lia].
  cbn [andb].
  rewrite to_int_to_size_t, to_int_small by range_lia.
  rewrite for_int_unit by (try lia; range_lia).
  apply outer_loop_overrun; unfold len in *; lia.
Qed.

(** The literal example with room for four of its five samples. *)
Lemma convolve_simd_short_buffer_witness :
  convolve_simd AVX true example_x 3 example_h 3 [0; 0; 0; 0] = None.
Proof.
  apply (convolve_simd_short_buffer AVX true example_x example_h
           [0; 0; 0; 0] 3 3).
  - lia.
  - lia.
  - unfold INT_MAX. lia.
  - vm_compute. reflexivity.
Defined.

(** * The transform backend on its own *)

(** ** The product of two spectra *)

Lemma pointwise_product_len (A B : farray) (L : Z) :
  (0 <= L)%Z -> len (pointwise_product A B L) = (L + 2)%Z.
Proof.
  intros HL. unfold pointwise_product, len.
  rewrite length_map, length_seq. lia.
Qed.

Lemma pointwise_product_rd (A B : farray) (L n : Z) :
  (0 <= n < L + 2)%Z ->
  rd (pointwise_product A B L) n
  = Some (if Z.even n then product_re A B n else product_im A B (n - 1)).
Proof.
  intros Hn. rewrite rd_nth_error by lia. unfold pointwise_product.
  rewrite nth_error_map, nth_error_seq.
  destruct (Nat.ltb_spec (Z.to_nat n) (Z.to_nat (L + 2))) as [Hlt|Hge];
    [|lia].
  cbn [option_map Nat.add]. rewrite Z2Nat.id by lia. reflexivity.
Qed.

(** The loop of the code computes the product of the spectra. *)
Lemma spectrum_multiply_product (X H : farray) (M : Z) :
  (0 <= M)%Z -> (M + 2 <= INT_MAX)%Z -> (M mod 2 = 0)%Z ->
  len X = (M + 2)%Z -> len H = (M + 2)%Z ->
  spectrum_multiply X H M = Some (pointwise_product X H M).
Proof.
  intros HM Hfit Heven HlX HlH. unfold spectrum_multiply.
  rewrite to_int_small by range_lia.
  pose proof (Z.div_mod M 2 ltac:(lia)) as Hdm.
  pose proof (for_int_iter_stride
                (fun i X => complex_multiply_na X H i) 2 0
                (Z.to_nat (M / 2 + 1)) X) as Hloop.
  replace (0 + 2 * Z.of_nat (Z.to_nat (M / 2 + 1)))%Z with (M + 2)%Z
    in Hloop by lia.
  rewrite Hloop; try lia; try range_lia.
  destruct (spectrum_pairs_iter H (Z.to_nat (M / 2 + 1)) 0 X)
    as (c & Hrun & Hlc & Hpairs & _); try lia.
  rewrite Hrun. f_equal. apply farray_ext.
  - rewrite pointwise_product_len by lia. lia.
  - intros n Hn. rewrite pointwise_product_rd by lia.
    pose proof (Z.div_mod n 2 ltac:(lia)) as Hn2.
    pose proof (Z.mod_pos_bound n 2 ltac:(lia)) as Hnb.
    destruct (Hpairs (n / 2)%Z) as (Hr & Hm).
    { split; [apply Z.div_pos; lia|].
      rewrite Z2Nat.id by lia. apply Z.div_lt_upper_bound; lia. }
    destruct (Z.even n) eqn:E.
    + apply Zeven_bool_iff in E. apply Zeven_ex_iff in E as [q Hq].
      replace (n / 2)%Z with q in * by (subst n; rewrite Z.mul_comm, Z.div_mul; lia).
      replace (0 + 2 * q)%Z with n in Hr by lia. exact Hr.
    + assert (Hodd : Z.odd n = true) by (rewrite <- Z.negb_even, E; reflexivity).
      apply Zodd_bool_iff in Hodd. apply Zodd_ex_iff in Hodd as [q Hq].
      assert (Hq' : (n / 2 = q)%Z).
      { subst n. rewrite Z.mul_comm, Z.div_add_l by lia.
        change (1 / 2)%Z with 0%Z. lia. }
      rewrite Hq' in *.
      replace (0 + 2 * q + 1)%Z with n in Hm by lia.
      replace (0 + 2 * q)%Z with (n - 1)%Z in Hm by lia. exact Hm.
Qed.

(** ** Exact transforms *)

(** With an exact transform of an even size, the backend and the loop of
    the code together satisfy the convolution theorem. *)
Lemma exact_transform_convolution_theorem (fftf : fftf_backend) (L : Z) :
  (0 <= L)%Z -> (L + 2 <= INT_MAX)%Z -> (L mod 2 = 0)%Z ->
  exact_transform fftf L -> convolution_theorem fftf L.
Proof.
  intros HL Hfit Heven Hexact a b Ha Hb.
  destruct (Hexact a b Ha Hb) as (Hfa & Hback & Hcirc).
  destruct (Hexact b b Hb Hb) as (Hfb & _).
  split; [exact Hfa|].
  exists (pointwise_product (forward fftf L a) (forward fftf L b) L).
  split; [|split; assumption].
  apply spectrum_multiply_product; assumption.
Qed.

Lemma pow2_even (p : Z) : is_pow2 p -> (2 <= p)%Z -> (p mod 2 = 0)%Z.
Proof.
  intros (k & Hk & ->) Hp.
  assert (Hk1 : (1 <= k)%Z).
  { destruct (Z.eq_dec k 0) as [->|]; [cbn in Hp; lia|lia]. }
  replace k with (1 + (k - 1))%Z by lia.
  rewrite Z.pow_add_r by lia. change (2 ^ 1)%Z with 2%Z.
  rewrite Z.mul_comm. apply Z.mod_mul. lia.
Qed.

(** The transform of size 4 is exact. *)
Lemma dft4_exact_transform : exact_transform dft4 4.
Proof.
  intros a b Ha Hb.
  destruct a as [|u0 [|u1 [|u2 [|u3 [|u4 [|u5 [|u6 a]]]]]]];
    try discriminate Ha;
    [|exfalso; unfold len in Ha; cbn [length] in Ha; lia].
  destruct b as [|v0 [|v1 [|v2 [|v3 [|v4 [|v5 [|v6 b]]]]]]];
    try discriminate Hb;
    [|exfalso; unfold len in Hb; cbn [length] in Hb; lia].
  split; [reflexivity|]. split; [reflexivity|].
  intros n Hn.
  assert (Hc : (n = 0 \/ n = 1 \/ n = 2 \/ n = 3)%Z) by lia.
  rewrite sample_of_Z_4.
  destruct Hc as [ -> | [ -> | [ -> | -> ] ] ];
    cbv - [Qcplus Qcmult Qcminus Qcopp Q2Qc];
    ring.
Qed.

(** ** The backend that is no transform *)

Lemma plain_backend_buffer_transform (L : Z) :
  (0 <= L)%Z -> buffer_transform plain_backend L.
Proof.
  intros HL. unfold buffer_transform, plain_backend. cbn [forward backward].
  split; [|split].
  - intros a Ha. unfold len in *. rewrite length_app, length_firstn.
    cbn [length]. lia.
  - intros a b Ha Hb Hagree. f_equal.
    apply nth_error_ext. intros k.
    destruct (Nat.ltb_spec k (Z.to_nat L)) as [Hk|Hk].
    + rewrite !nth_error_firstn.
      destruct (Nat.ltb_spec k (Z.to_nat L)) as [_|Hge]; [|lia].
      pose proof (Hagree (Z.of_nat k) ltac:(lia)) as E.
      rewrite <- (Nat2Z.id k).
      rewrite <- !rd_nth_error by lia.
      rewrite !rd_in by (unfold len in *; lia). f_equal. exact E.
    + rewrite (proj2 (nth_error_None _ _)), (proj2 (nth_error_None _ _));
        [reflexivity| |]; rewrite length_firstn; lia.
  - intros c Hc. exact Hc.
Qed.

(** * The blocks of the overlap-save convolver, for any backend *)

Lemma os_window_len (x : farray) (Mz Lz i : Z) :
  (0 <= Lz)%Z -> len (os_window x Mz Lz i) = (Lz + 2)%Z.
Proof.
  intros HL. unfold os_window, len.
  rewrite length_app, length_map, length_seq. cbn [length]. lia.
Qed.

Lemma os_window_at0 (x : farray) (Mz Lz i j : Z) :
  (0 <= j < Lz)%Z ->
  at0 (os_window x Mz Lz i) j = at0 x (i + j - (Mz - 1)).
Proof.
  intros Hj. apply at0_of_rd_some. rewrite rd_nth_error by lia.
  unfold os_window. rewrite nth_error_app1
    by (rewrite length_map, length_seq; lia).
  rewrite nth_error_map, nth_error_seq.
  destruct (Nat.ltb_spec (Z.to_nat j) (Z.to_nat Lz)) as [_|Hge]; [|lia].
  cbn [option_map Nat.add]. rewrite Z2Nat.id by lia. reflexivity.
Qed.

Lemma zero_padded_len (h : farray) (Lz : Z) :
  (len h <= Lz + 2)%Z -> len (zero_padded h Lz) = (Lz + 2)%Z.
Proof.
  intros Hh. unfold zero_padded, len in *.
  rewrite length_app, repeat_length. lia.
Qed.

Lemma zero_padded_kernel (h : farray) (Lz m : Z) :
  (0 <= m < len h)%Z -> at0 (zero_padded h Lz) m = at0 h m.
Proof.
  intros Hm. unfold at0. rewrite !rd_nth_error by lia.
  unfold zero_padded. rewrite nth_error_app1 by (unfold len in Hm; lia).
  reflexivity.
Qed.

Lemma zero_padded_zero (h : farray) (Lz m : Z) :
  (len h <= m)%Z -> at0 (zero_padded h Lz) m = 0.
Proof.
  intros Hm. unfold at0. rewrite rd_nth_error by (unfold len in Hm; lia).
  unfold zero_padded. rewrite nth_error_app2 by (unfold len in Hm; lia).
  destruct (nth_error _ _) as [v|] eqn:E; [|reflexivity].
  apply nth_error_In, repeat_spec in E. exact E.
Qed.

Section OverlapSaveWindows.

Variable fftf : fftf_backend.
Variables x h : farray.
Variable hd : ConvolutionOverlapSaveHandle.

Hypothesis HN : os_x_length hd = len x.
Hypothesis HM : os_h_length hd = len h.
Hypothesis HMpos : (0 < len h)%Z.
Hypothesis HL : (2 * len h < os_L hd <= 2 ^ 30)%Z.
Hypothesis HLeven : (os_L hd mod 2 = 0)%Z.
Hypothesis HNmax : (len x < 2 ^ 62)%Z.
Hypothesis Hstep : (os_L hd - (len h - 1) <= len x)%Z.
Hypothesis Hplan : os_fft_plan hd = fftf_init FFTF_DIRECTION_FORWARD (os_L hd).
Hypothesis Hiplan :
  os_fft_inverse_plan hd = fftf_init FFTF_DIRECTION_BACKWARD (os_L hd).
Hypothesis Hbt : buffer_transform fftf (os_L hd).

Local Abbreviation N := (len x).
Local Abbreviation M := (len h).
Local Abbreviation L := (os_L hd).
Local Abbreviation step := (os_L hd - (len h - 1))%Z.

(** The kernel, zero-padded to the block size, in the scratch buffer. *)
Variable hbuf : farray.
Hypothesis Hhbuf_len : len hbuf = (L + 2)%Z.
Hypothesis Hhbuf_kernel :
  forall m, (0 <= m < M)%Z -> at0 hbuf m = at0 h m.
Hypothesis Hhbuf_zero :
  forall m, (M <= m < L)%Z -> at0 hbuf m = 0.

(** The spectrum of the scratch buffer is that of the padded kernel,
    whatever the two floats behind the L samples hold. *)
Lemma os_kernel_spectrum :
  forward fftf L hbuf = forward fftf L (zero_padded h L).
Proof.
  destruct Hbt as (_ & Hreads & _).
  apply Hreads; [exact Hhbuf_len|apply zero_padded_len; lia|].
  intros j Hj. destruct (Z.lt_ge_cases j M) as [Hin|Hout].
  - rewrite Hhbuf_kernel, zero_padded_kernel by lia. reflexivity.
  - rewrite Hhbuf_zero, zero_padded_zero by lia. reflexivity.
Qed.

(** Transform, product with the spectrum of the kernel, inverse transform
    and scaling turn the window into [step] samples of its block. *)
Lemma os_transform_block (i : Z) (b1 : farray) :
  len b1 = (L + 2)%Z ->
  (forall j, (0 <= j < L)%Z -> at0 b1 j = at0 x (i + j - (M - 1))) ->
  exists c b3,
    spectrum_multiply (fftf_calc fftf (os_fft_plan hd) b1)
      (forward fftf L hbuf) L = Some c /\
    real_multiply_scalar (fftf_calc fftf (os_fft_inverse_plan hd) c)
      (M - 1) (to_size_t step) (reciprocal L)
      (fftf_calc fftf (os_fft_inverse_plan hd) c) (M - 1) = Some b3 /\
    len b3 = (L + 2)%Z /\
    forall j, (0 <= j < step)%Z ->
      rd b3 (M - 1 + j)
      = Some (block_sample fftf L (os_window x M L i) (zero_padded h L)
                (M - 1 + j)).
Proof.
  intros Hlen Hwin. rewrite Hplan, Hiplan. unfold fftf_calc, fftf_init.
  cbn [plan_direction plan_length].
  rewrite os_kernel_spectrum.
  destruct Hbt as (Hkeep & Hreads & Hback).
  rewrite (Hreads b1 (os_window x M L i)).
  2: exact Hlen.
  2: apply os_window_len; lia.
  2: { intros j Hj. rewrite Hwin, os_window_at0 by lia. reflexivity. }
  set (A := forward fftf L (os_window x M L i)).
  set (B := forward fftf L (zero_padded h L)).
  assert (HlA : len A = (L + 2)%Z)
    by (apply Hkeep, os_window_len; lia).
  assert (HlB : len B = (L + 2)%Z)
    by (apply Hkeep, zero_padded_len; lia).
  rewrite spectrum_multiply_product
    by (try assumption; try lia; unfold INT_MAX; lia).
  exists (pointwise_product A B L).
  assert (Hlc : len (backward fftf L (pointwise_product A B L)) = (L + 2)%Z)
    by (apply Hback, pointwise_product_len; lia).
  rewrite to_size_t_small by range_lia.
  destruct (real_multiply_scalar_rd (backward fftf L (pointwise_product A B L))
              (M - 1) step (reciprocal L)
              (backward fftf L (pointwise_product A B L)) (M - 1))
    as (b3 & Hscale & Hlen3 & Hrd3); try lia.
  exists b3. split; [reflexivity|]. split; [exact Hscale|]. split; [lia|].
  intros j Hj. rewrite Hrd3 by lia.
  destruct (Z.leb_spec (M - 1) (M - 1 + j)),
    (Z.ltb_spec (M - 1 + j) (M - 1 + step)); try lia.
  cbn [andb].
  replace (M - 1 + (M - 1 + j - (M - 1)))%Z with (M - 1 + j)%Z by lia.
  rewrite rd_in by lia. reflexivity.
Qed.

(** One block: the samples [i, min(i + step, N+M-1)) of the result become
    those of the block of the window at [i]. *)
Lemma os_block_window (i : Z) (s : os_state) :
  len (st_boiler s) = (L + 2)%Z ->
  (0 <= i < N + M - 1)%Z -> (i = 0 \/ step <= i)%Z ->
  (N + M - 1 <= len (st_result s))%Z ->
  exists s',
    os_block fftf hd (forward fftf L hbuf) x M L step i s = Some s' /\
    len (st_boiler s') = (L + 2)%Z /\
    len (st_result s') = len (st_result s) /\
    forall n, (0 <= n < len (st_result s))%Z ->
      rd (st_result s') n
      = if ((i <=? n) && (n <? Z.min (i + step) (N + M - 1)))%Z%bool
        then Some (block_sample fftf L (os_window x M L i)
                     (zero_padded h L) (M - 1 + (n - i)))
        else rd (st_result s) n.
Proof.
  intros Hb Hi Hmult Hres. unfold os_block.
  destruct (os_fill_window x h hd HN HMpos HL HNmax Hstep i (st_boiler s)
              Hb Hi Hmult)
    as (b1 & Hfill & Hlen1 & Hwin).
  rewrite Hfill. cbn [bind].
  destruct (os_transform_block i b1 Hlen1 Hwin)
    as (c & b3 & Hmul & Hscale & Hlen3 & Hrd3).
  rewrite Hmul. cbn [bind]. rewrite Hscale. cbn [bind].
  destruct (os_store_block x h hd HN HM HMpos HL HNmax i b3 (st_result s)
              Hlen3 Hi Hres)
    as (r' & Hstore & Hlen' & Hrd').
  rewrite Hstore. cbn [bind].
  eexists. split; [reflexivity|]. cbn [st_boiler st_result].
  split; [exact Hlen3|]. split; [exact Hlen'|].
  intros n Hn. rewrite Hrd' by lia.
  destruct ((i <=? n) && (n <? Z.min (i + step) (N + M - 1)))%Z%bool eqn:E;
    [|reflexivity].
  apply andb_true_iff in E as [E1 E2].
  apply Z.leb_le in E1. apply Z.ltb_lt in E2.
  rewrite Hrd3 by lia. reflexivity.
Qed.

(** [cnt] consecutive blocks from the [k]-th on. *)
Lemma os_block_windows (cnt : nat) :
  forall (k : Z) (s : os_state),
    (0 <= k)%Z ->
    len (st_boiler s) = (L + 2)%Z ->
    ((0 < cnt)%nat -> (step * k + step * (Z.of_nat cnt - 1) < N + M - 1)%Z) ->
    (N + M - 1 <= len (st_result s))%Z ->
    exists s',
      iter_stride cnt (step * k) step
        (os_block fftf hd (forward fftf L hbuf) x M L step) s = Some s' /\
      len (st_boiler s') = (L + 2)%Z /\
      len (st_result s') = len (st_result s) /\
      forall n, (0 <= n < len (st_result s))%Z ->
        rd (st_result s') n
        = if ((step * k <=? n)
              && (n <? Z.min (step * k + step * Z.of_nat cnt)
                        (N + M - 1)))%Z%bool
          then Some (os_sample fftf x h L n) else rd (st_result s) n.
Proof.
  induction cnt as [|c IH]; intros k s Hk Hb Hlast Hres.
  - exists s. split; [reflexivity|]. split; [exact Hb|].
    split; [reflexivity|]. intros n Hn.
    destruct (Z.leb_spec (step * k) n),
      (Z.ltb_spec n (Z.min (step * k + step * Z.of_nat 0) (N + M - 1)));
      try reflexivity; lia.
  - cbn [iter_stride].
    assert (Hspos : (0 < step)%Z) by lia.
    pose proof (Hlast ltac:(lia)) as Hlast'.
    pose proof (Z.mul_nonneg_nonneg step k ltac:(lia) Hk) as Hsk.
    pose proof (Z.mul_nonneg_nonneg step (Z.of_nat (S c) - 1)
                  ltac:(lia) ltac:(lia)) as Hsc.
    assert (Hi : (0 <= step * k < N + M - 1)%Z) by lia.
    assert (Hmult : (step * k = 0 \/ step <= step * k)%Z).
    { destruct (Z.eq_dec k 0) as [->|Hk0]; [left; lia|right].
      replace step with (step * 1)%Z at 1 by lia.
      apply Z.mul_le_mono_nonneg_l; lia. }
    destruct (os_block_window (step * k) s Hb Hi Hmult Hres)
      as (s1 & Hblock & Hb1 & Hr1 & Hrd1).
    rewrite Hblock. cbn [bind].
    replace (step * k + step)%Z with (step * (k + 1))%Z by ring.
    destruct (IH (k + 1)%Z s1) as (s2 & Hrun & Hb2 & Hr2 & Hrd2);
      try lia; try nia.
    exists s2. split; [exact Hrun|]. split; [exact Hb2|].
    split; [lia|]. intros n Hn.
    rewrite Hrd2 by lia. rewrite Hrd1 by lia.
    destruct (Z.leb_spec (step * (k + 1)) n),
      (Z.ltb_spec n (Z.min (step * (k + 1) + step * Z.of_nat c) (N + M - 1))),
      (Z.leb_spec (step * k) n),
      (Z.ltb_spec n (Z.min (step * k + step) (N + M - 1))),
      (Z.ltb_spec n (Z.min (step * k + step * Z.of_nat (S c)) (N + M - 1)));
      cbn [andb]; try reflexivity; try lia; try nia.
    f_equal. unfold os_sample. cbn zeta.
    assert (Hq : (n / step = k)%Z).
    { symmetry. apply (Z.div_unique n step k (n - step * k)); lia. }
    assert (Hr : (n mod step = n - step * k)%Z).
    { symmetry. apply (Z.mod_unique n step k (n - step * k)); lia. }
    rewrite Hq, Hr. reflexivity.
Qed.

End OverlapSaveWindows.

(** On a ready handle whose step does not exceed the signal, the execution
    is defined for every backend that treats its buffer as a transform
    does; each sample of the output is the sample of its block, and the
    handle is left ready. *)
Lemma convolve_overlap_save_windows (fftf : fftf_backend)
    (hd : ConvolutionOverlapSaveHandle) (x h result : farray) :
  os_ready hd (len x) (len h) ->
  (len x < 2 ^ 62)%Z ->
  (os_L hd - (len h - 1) <= len x)%Z ->
  (os_L hd mod 2 = 0)%Z ->
  buffer_transform fftf (os_L hd) ->
  len result = (len x + len h - 1)%Z ->
  exists out hd',
    convolve_overlap_save fftf hd x h result = Some (out, hd') /\
    os_ready hd' (len x) (len h) /\ os_L hd' = os_L hd /\
    len out = (len x + len h - 1)%Z /\
    forall n, (0 <= n < len x + len h - 1)%Z ->
      rd out n = Some (os_sample fftf x h (os_L hd) n).
Proof.
  intros (HN & HM & Hrev & HMpos & HL & Hplan & Hiplan & HlenB & HlenH)
    HNmax Hstep Heven Hbt Hres.
  assert (Hxpos : (0 < len x)%Z) by lia.
  unfold convolve_overlap_save. rewrite Hrev, HM, HN.
  rewrite (byte_count_size (len h)) by lia.
  (* the kernel, padded with zeros *)
  destruct (memcpy_rd (os_fft_boiler_plate hd) 0 h 0 (len h))
    as (b0 & Hcp & Hlen0 & Hrd0); try lia.
  rewrite Hcp. cbn [bind].
  rewrite (to_size_t_small (os_L hd - len h))
    by range_lia.
  destruct (memsetf_rd b0 (len h) 0 (os_L hd - len h))
    as (hbuf & Hset & Hlenh & Hrdh); try lia.
  rewrite Hset. cbn [bind].
  assert (Hkernel : forall m, (0 <= m < len h)%Z -> at0 hbuf m = at0 h m).
  { intros m Hm. apply at0_eq_of_rd. rewrite Hrdh by lia.
    destruct (Z.leb_spec (len h) m); [lia|]. cbn [andb].
    rewrite Hrd0 by lia.
    destruct (Z.leb_spec 0 m), (Z.ltb_spec m (0 + len h)); try lia.
    cbn [andb]. f_equal; lia. }
  assert (Hzero : forall m, (len h <= m < os_L hd)%Z -> at0 hbuf m = 0).
  { intros m Hm. apply at0_of_rd_some. rewrite Hrdh by lia.
    destruct (Z.leb_spec (len h) m),
      (Z.ltb_spec m (len h + (os_L hd - len h))); try lia.
    reflexivity. }
  assert (Hlenhbuf : len hbuf = (os_L hd + 2)%Z) by lia.
  (* its spectrum *)
  rewrite Hplan, !fftf_calc_forward.
  assert (Hlenf : len (forward fftf (os_L hd) hbuf) = (os_L hd + 2)%Z)
    by (apply (proj1 Hbt); exact Hlenhbuf).
  rewrite (to_int_small (os_L hd + 2))
    by range_lia.
  rewrite (byte_count_size (os_L hd + 2)) by lia.
  replace (os_L hd + 2)%Z with (len (forward fftf (os_L hd) hbuf))
    by exact Hlenf.
  rewrite memcpy_whole by lia. cbn [bind].
  (* the blocks *)
  rewrite to_int_to_size_t.
  rewrite (to_int_small (os_L hd - (len h - 1)))
    by range_lia.
  rewrite (to_size_t_small (len x + len h - 1))
    by range_lia.
  set (step := (os_L hd - (len h - 1))%Z).
  set (R := (len x + len h - 1)%Z).
  destruct (block_count_spec R step) as (Hup & Hlow & Hcnt);
    [unfold step; lia|unfold R; lia|].
  rewrite (loop_size_t_iter _ R step ltac:(unfold step; lia)
             (block_count R step));
    try lia;
    [|unfold size_t_modulus, step, R in *; nia].
  destruct (os_block_windows fftf x h hd HN HM HMpos HL Heven HNmax Hstep
              Hplan Hiplan Hbt hbuf Hlenhbuf Hkernel Hzero
              (block_count R step) 0%Z
              (MkState (forward fftf (os_L hd) hbuf) result))
    as (s' & Hrun & Hb' & Hr' & Hrd').
  - lia.
  - cbn [st_boiler]. exact Hlenf.
  - intros _. fold step. fold R. lia.
  - cbn [st_result]. lia.
  - fold step in Hrun. rewrite Z.mul_0_r in Hrun. rewrite Hrun. cbn [bind].
    cbn [st_result st_boiler] in *.
    eexists. eexists. split; [reflexivity|].
    split; [|split; [reflexivity|split; [lia|]]].
    + unfold os_ready.
      cbn [os_x_length os_h_length os_reverse os_L os_H os_fft_boiler_plate
           os_fft_plan os_fft_inverse_plan].
      repeat split; try assumption; try lia.
    + intros n Hn. rewrite Hrd' by lia.
      fold step. fold R. rewrite Z.mul_0_r.
      destruct (Z.leb_spec 0 n),
        (Z.ltb_spec n (Z.min (0 + step * Z.of_nat (block_count R step)) R));
        cbn [andb]; try lia.
      reflexivity.
Qed.

(** The exact transform of size 4 treats its buffer as [buffer_transform]
    asks. *)
Lemma dft4_buffer_transform : buffer_transform dft4 4.
Proof.
  unfold buffer_transform. split; [|split].
  - intros a Ha.
    destruct a as [|u0 [|u1 [|u2 [|u3 [|u4 [|u5 [|u6 a]]]]]]];
      try discriminate Ha;
      [reflexivity|exfalso; unfold len in Ha; cbn [length] in Ha; lia].
  - intros a b Ha Hb Hagree.
    destruct a as [|u0 [|u1 [|u2 [|u3 [|u4 [|u5 [|u6 a]]]]]]];
      try discriminate Ha;
      [|exfalso; unfold len in Ha; cbn [length] in Ha; lia].
    destruct b as [|v0 [|v1 [|v2 [|v3 [|v4 [|v5 [|v6 b]]]]]]];
      try discriminate Hb;
      [|exfalso; unfold len in Hb; cbn [length] in Hb; lia].
    pose proof (Hagree 0%Z ltac:(lia)) as E0.
    pose proof (Hagree 1%Z ltac:(lia)) as E1.
    pose proof (Hagree 2%Z ltac:(lia)) as E2.
    pose proof (Hagree 3%Z ltac:(lia)) as E3.
    cbv [at0 rd Z.ltb Z.compare Z.to_nat Pos.to_nat Pos.iter_op Nat.add
         nth_error] in E0, E1, E2, E3.
    subst. reflexivity.
  - intros c Hc.
    destruct c as [|u0 [|u1 [|u2 [|u3 [|u4 [|u5 [|u6 c]]]]]]];
      try discriminate Hc;
      [reflexivity|exfalso; unfold len in Hc; cbn [length] in Hc; lia].
Qed.

(** * The spectral product of a build with SIMD *)

Lemma iter_stride_app {St : Type} (body : Z -> St -> option St) (stride : Z)
    (a b : nat) :
  forall (m : Z) (s : St),
    iter_stride (a + b) m stride body s
    = bind (iter_stride a m stride body s)
        (fun s' => iter_stride b (m + stride * Z.of_nat a)%Z stride body s').
Proof.
  induction a as [|a IH]; intros m s.
  - cbn [Nat.add iter_stride bind]. f_equal. cbn. lia.
  - cbn [Nat.add iter_stride].
    destruct (body m s) as [s1|]; cbn [bind]; [|reflexivity].
    rewrite IH.
    destruct (iter_stride a (m + stride) stride body s1); cbn [bind];
      [|reflexivity].
    f_equal. rewrite Nat2Z.inj_succ. ring.
Qed.

(** Vectors of [q] pairs, one after the other, are all the pairs. *)
Lemma iter_stride_vectors {St : Type} (body : Z -> St -> option St)
    (width : Z) (q cnt : nat) :
  width = (2 * Z.of_nat q)%Z ->
  forall (m : Z) (s : St),
    iter_stride cnt m width (fun i s' => iter_stride q i 2 body s') s
    = iter_stride (cnt * q) m 2 body s.
Proof.
  intros Hw. induction cnt as [|c IH]; intros m s.
  - reflexivity.
  - cbn [iter_stride Nat.mul]. rewrite iter_stride_app.
    destruct (iter_stride q m 2 body s) as [s1|]; cbn [bind]; [|reflexivity].
    rewrite IH. f_equal. lia.
Qed.

Lemma complex_multiply_na_some (a b : farray) (i : Z) (a' : farray) :
  complex_multiply_na a b i = Some a' ->
  (0 <= i)%Z /\ (i + 2 <= len a)%Z /\ len a' = len a.
Proof.
  unfold complex_multiply_na. intros E.
  destruct (rd a i) as [re1|] eqn:E1; cbn [bind] in E; [|discriminate].
  destruct (rd a (i + 1)) as [im1|] eqn:E2; cbn [bind] in E; [|discriminate].
  destruct (rd b i) as [re2|]; cbn [bind] in E; [|discriminate].
  destruct (rd b (i + 1)) as [im2|]; cbn [bind] in E; [|discriminate].
  destruct (wr a i _) as [a1|] eqn:E3; cbn [bind] in E; [|discriminate].
  apply wr_len in E3. apply wr_len in E.
  assert (Hi : (0 <= i)%Z).
  { destruct (Z.lt_ge_cases i 0) as [Hneg|]; [|assumption].
    rewrite rd_out in E1 by lia. discriminate. }
  assert (Hi1 : (i + 1 < len a)%Z).
  { destruct (Z.lt_ge_cases (i + 1) (len a)) as [|Hout]; [assumption|].
    rewrite rd_out in E2 by lia. discriminate. }
  split; [exact Hi|]. split; lia.
Qed.

(** Pairs that reach beyond the buffer: the product is undefined. *)
Lemma pairs_overrun (H : farray) (cnt : nat) :
  forall (i : Z) (a : farray),
    (0 <= i <= len a)%Z -> (len a < i + 2 * Z.of_nat cnt)%Z ->
    iter_stride cnt i 2 (fun j a' => complex_multiply_na a' H j) a = None.
Proof.
  induction cnt as [|c IH]; intros i a Hi Hover.
  - lia.
  - cbn [iter_stride].
    destruct (complex_multiply_na a H i) as [a1|] eqn:E; cbn [bind];
      [|reflexivity].
    apply complex_multiply_na_some in E as (_ & Hin & Hlen).
    apply IH; lia.
Qed.

(** Where the size is a multiple of the vector width, the vector loop
    covers the pairs below [M] and the scalar loop the last one: together
    they are the scalar loop of the build without SIMD, on any buffers. *)
Lemma spectrum_multiply_simd_multiple (float_step : Z) (X H : farray)
    (M : Z) :
  (0 < float_step)%Z -> (float_step mod 2 = 0)%Z ->
  (0 <= M)%Z -> (M mod float_step = 0)%Z -> (M + 2 <= INT_MAX)%Z ->
  spectrum_multiply_simd float_step X H M = spectrum_multiply X H M.
Proof.
  intros Hfs Heven HM Hmult Hfit.
  unfold spectrum_multiply_simd, spectrum_multiply, complex_multiply.
  rewrite to_int_small by range_lia.
  set (body := fun (i : Z) (X0 : farray) => complex_multiply_na X0 H i).
  set (q := Z.to_nat (float_step / 2)).
  set (cnt := Z.to_nat (M / float_step)).
  assert (Hw : float_step = (2 * Z.of_nat q)%Z).
  { pose proof (Z.div_mod float_step 2 ltac:(lia)) as Hd.
    assert (0 <= float_step / 2)%Z by (apply Z.div_pos; lia).
    unfold q. rewrite Z2Nat.id by lia. lia. }
  assert (HMc : M = (float_step * Z.of_nat cnt)%Z).
  { pose proof (Z.div_mod M float_step ltac:(lia)) as Hd.
    assert (0 <= M / float_step)%Z by (apply Z.div_pos; lia).
    unfold cnt. rewrite Z2Nat.id by lia. lia. }
  pose proof (for_int_iter_stride
                (fun i X0 => iter_stride q i 2 body X0) float_step 0 cnt X)
    as Hv.
  replace (0 + float_step * Z.of_nat cnt)%Z with M in Hv by lia.
  rewrite Hv by (try assumption; range_lia).
  rewrite (iter_stride_vectors body float_step q cnt Hw).
  assert (Hpairs : (2 * Z.of_nat (cnt * q) = M)%Z).
  { rewrite Nat2Z.inj_mul.
    transitivity (2 * Z.of_nat q * Z.of_nat cnt)%Z; [ring|].
    rewrite <- Hw. symmetry. exact HMc. }
  pose proof (for_int_iter_stride body 2 0 (cnt * q + 1) X) as Hs.
  replace (0 + 2 * Z.of_nat (cnt * q + 1))%Z with (M + 2)%Z in Hs by lia.
  rewrite Hs by (try lia; range_lia).
  rewrite iter_stride_app.
  destruct (iter_stride (cnt * q) 0 2 body X) as [X1|]; cbn [bind];
    [|reflexivity].
  replace (0 + 2 * Z.of_nat (cnt * q))%Z with M by lia.
  pose proof (for_int_iter_stride body 2 M 1 X1) as Hl.
  replace (M + 2 * Z.of_nat 1)%Z with (M + 2)%Z in Hl by lia.
  apply Hl; try lia; range_lia.
Qed.

(** On a transform shorter than a vector, the first vector reaches beyond
    the M + 2 floats. *)
Lemma spectrum_multiply_simd_overrun (float_step : Z) (X H : farray)
    (M : Z) :
  (0 < M)%Z -> (M + 2 < float_step)%Z -> (float_step mod 2 = 0)%Z ->
  len X = (M + 2)%Z ->
  spectrum_multiply_simd float_step X H M = None.
Proof.
  intros HM Hshort Heven HlX.
  unfold spectrum_multiply_simd, for_int.
  destruct (Z.to_nat (M - 0)) as [|fuel] eqn:Ef; [lia|].
  cbn [loop]. destruct (Z.ltb_spec 0 M) as [_|]; [|lia].
  unfold complex_multiply.
  rewrite pairs_overrun; [reflexivity| |].
  - lia.
  - pose proof (Z.div_mod float_step 2 ltac:(lia)) as Hd.
    assert (0 <= float_step / 2)%Z by (apply Z.div_pos; lia).
    rewrite Z2Nat.id by lia. lia.
Qed.

Lemma loop_size_t_ext {St : Type} (f g : Z -> St -> option St)
    (stop step : Z) :
  (forall i s, f i s = g i s) ->
  forall (fuel : nat) (i : Z) (s : St),
    loop_size_t fuel i stop step f s = loop_size_t fuel i stop step g s.
Proof.
  intros Hfg. induction fuel as [|fuel IH]; intros i s; cbn [loop_size_t].
  - reflexivity.
  - destruct (i <? stop)%Z; [|reflexivity].
    rewrite Hfg. destruct (g i s); cbn [bind]; [apply IH|reflexivity].
Qed.

(** ** Sizes that are multiples of the vector width *)

(** X18. Over exact arithmetic and for every vector width FLOAT_STEP (a
    positive even number of floats): on a handle whose transform size M is
    a multiple of FLOAT_STEP, with M + 2 within [int], a build with SIMD
    computes in [convolve_fft] what the build without SIMD computes: the
    same result and the same handle, undefined in the same cases, for every
    backend and all arrays. What is stated of [convolve_fft] here therefore
    holds for a build with SIMD at these sizes. *)
Theorem convolve_fft_simd_agrees (float_step : Z) (fftf : fftf_backend)
    (hd : ConvolutionFFTHandle) (x h result : farray) :
  (0 < float_step)%Z -> (float_step mod 2 = 0)%Z ->
  (0 <= fft_M hd)%Z -> (fft_M hd mod float_step = 0)%Z ->
  (fft_M hd + 2 <= INT_MAX)%Z ->
  convolve_fft_simd float_step fftf hd x h result
  = convolve_fft fftf hd x h result.
Proof.
  intros Hfs Heven HM Hmult Hfit. unfold convolve_fft_simd, convolve_fft.
  destruct (memcpy (fft_inputs0 hd) 0 x 0 _) as [Xb|]; cbn [bind];
    [|reflexivity].
  destruct (if fft_reverse hd then _ else _) as [Hb|]; cbn [bind];
    [|reflexivity].
  rewrite spectrum_multiply_simd_multiple by assumption. reflexivity.
Qed.

(** Vectors of four floats on the transform of size 4. *)
Lemma convolve_fft_simd_agrees_witness :
  convolve_fft_simd 4 dft4 (fresh_fft_handle 2 2) run_x run_h run_result
  = convolve_fft dft4 (fresh_fft_handle 2 2) run_x run_h run_result.
Proof.
  apply (convolve_fft_simd_agrees 4 dft4 (fresh_fft_handle 2 2)
           run_x run_h run_result).
  - lia.
  - reflexivity.
  - vm_compute. congruence.
  - reflexivity.
  - vm_compute. congruence.
Defined.

(** X19. The same for [convolve_overlap_save]: on a handle whose block size
    L is a multiple of FLOAT_STEP, with L + 2 within [int], a build with
    SIMD computes what the build without SIMD computes, for every backend
    and all arrays. *)
Theorem convolve_overlap_save_simd_agrees (float_step : Z)
    (fftf : fftf_backend) (hd : ConvolutionOverlapSaveHandle)
    (x h result : farray) :
  (0 < float_step)%Z -> (float_step mod 2 = 0)%Z ->
  (0 <= os_L hd)%Z -> (os_L hd mod float_step = 0)%Z ->
  (os_L hd + 2 <= INT_MAX)%Z ->
  convolve_overlap_save_simd float_step fftf hd x h result
  = convolve_overlap_save fftf hd x h result.
Proof.
  intros Hfs Heven HL Hmult Hfit.
  unfold convolve_overlap_save_simd, convolve_overlap_save.
  destruct (if os_reverse hd then _ else _) as [b0|]; cbn [bind];
    [|reflexivity].
  destruct (memsetf b0 _ _ _) as [b1|]; cbn [bind]; [|reflexivity].
  destruct (memcpy (os_H hd) 0 _ 0 _) as [H|]; cbn [bind]; [|reflexivity].
  rewrite (loop_size_t_ext
             (os_block_simd float_step fftf hd H x (os_h_length hd)
                (os_L hd)
                (to_int (to_size_t (os_L hd - (os_h_length hd - 1)))))
             (os_block fftf hd H x (os_h_length hd) (os_L hd)
                (to_int (to_size_t (os_L hd - (os_h_length hd - 1)))))).
  - reflexivity.
  - intros i s. unfold os_block_simd, os_block.
    destruct (os_fill hd x _ _ _ i _); cbn [bind]; [|reflexivity].
    rewrite spectrum_multiply_simd_multiple by assumption. reflexivity.
Qed.

(** Vectors of eight floats on blocks of eight: fifteen samples by two. *)
Lemma convolve_overlap_save_simd_agrees_witness :
  convolve_overlap_save_simd 8 plain_backend (fresh_os_handle 15 2)
    fifteen_x two_h sixteen_result
  = convolve_overlap_save plain_backend (fresh_os_handle 15 2)
      fifteen_x two_h sixteen_result.
Proof.
  apply (convolve_overlap_save_simd_agrees 8 plain_backend
           (fresh_os_handle 15 2) fifteen_x two_h sixteen_result).
  - lia.
  - reflexivity.
  - vm_compute. congruence.
  - reflexivity.
  - vm_compute. congruence.
Defined.

(** ** Sizes below the vector width *)

Lemma dft4_forward_len (L : Z) (b : farray) :
  len (forward dft4 L b) = len b.
Proof.
  cbn [forward dft4]. unfold dft4_forward.
  destruct b as [|u0 [|u1 [|u2 [|u3 [|u4 [|u5 [|u6 b]]]]]]];
    try reflexivity.
  destruct (L =? 4)%Z; reflexivity.
Qed.

Lemma os_fill_len (hd : ConvolutionOverlapSaveHandle) (x : farray)
    (M L step i : Z) (boiler b : farray) :
  os_fill hd x M L step i boiler = Some b -> len b = len boiler.
Proof.
  unfold os_fill.
  destruct (i >? 0)%Z.
  - destruct (_ <=? _)%Z.
    + apply memcpy_len.
    + destruct (memcpy boiler 0 x _ _) as [b1|] eqn:E1; cbn [bind];
        [|discriminate].
      intros E2. apply memsetf_inv in E2 as [_ E2].
      apply memcpy_len in E1. lia.
  - destruct (memsetf boiler 0 0 _) as [b1|] eqn:E1; cbn [bind];
      [|discriminate].
    intros E2. apply memcpy_len in E2.
    apply memsetf_inv in E1 as [_ E1]. lia.
Qed.

(** X20. A build with SIMD on a transform shorter than its vectors: on the
    handle that [convolve_fft_initialize] returns (output of at most 2^30
    samples), when M + 2 < FLOAT_STEP for the transform size M, every
    execution of [convolve_fft] is undefined, for all arrays and for a
    backend that keeps the size of the buffer: the first step of the vector
    loop reaches beyond the M + 2 floats. With vectors of eight floats
    these are the outputs of at most four samples. *)
Theorem convolve_fft_simd_short (float_step : Z) (fftf : fftf_backend)
    (heap : nat -> sample) (xLength hLength : Z)
    (hd : ConvolutionFFTHandle) (x h result : farray) :
  convolve_fft_initialize heap xLength hLength = Ok hd ->
  (out_length xLength hLength <= 2 ^ 30)%Z ->
  (fft_M hd + 2 < float_step)%Z -> (float_step mod 2 = 0)%Z ->
  (forall b, len b = (fft_M hd + 2)%Z ->
             len (forward fftf (fft_M hd) b) = (fft_M hd + 2)%Z) ->
  convolve_fft_simd float_step fftf hd x h result = None.
Proof.
  intros Hinit Hout Hshort Heven Hkeep.
  pose proof (convolve_fft_initialize_inv _ _ _ _ Hinit)
    as (_ & _ & _ & Hx & Hh).
  destruct (convolve_fft_initialize_fresh heap xLength hLength
              ltac:(lia) ltac:(lia) Hout) as (hd' & Hinit' & Hfresh & _).
  assert (hd' = hd) by congruence. subst hd'.
  destruct Hfresh as (_ & _ & _ & _ & _ & HP & Hplan & _ & HlX & _).
  unfold convolve_fft_simd.
  destruct (memcpy (fft_inputs0 hd) 0 x 0 _) as [Xb|] eqn:EX; cbn [bind];
    [|reflexivity].
  destruct (if fft_reverse hd then _ else _) as [Hb|]; cbn [bind];
    [|reflexivity].
  apply memcpy_len in EX.
  rewrite Hplan, !fftf_calc_forward_batch.
  rewrite spectrum_multiply_simd_overrun; try assumption;
    [reflexivity|lia|].
  apply Hkeep. lia.
Qed.

(** Two samples by two with vectors of eight floats: the buffers hold six. *)
Lemma convolve_fft_simd_short_witness :
  convolve_fft_simd 8 dft4 (fresh_fft_handle 2 2) run_x run_h run_result
  = None.
Proof.
  apply (convolve_fft_simd_short 8 dft4 zero_heap 2 2 (fresh_fft_handle 2 2)
           run_x run_h run_result).
  - reflexivity.
  - vm_compute. congruence.
  - vm_compute. reflexivity.
  - reflexivity.
  - intros b Hb. rewrite dft4_forward_len. exact Hb.
Defined.

(** X21. The same for [convolve_overlap_save]: on the handle that
    [convolve_overlap_save_initialize] returns (kernel below 2^29 samples,
    signal below 2^62), when L + 2 < FLOAT_STEP for the block size L, every
    execution is undefined, for all arrays and for a backend that keeps the
    size of the buffer. With vectors of eight floats these are the handles
    for a kernel of one sample (L = 4), the ones that the selector builds
    for such a kernel and a signal of more than 200 samples. *)
Theorem convolve_overlap_save_simd_short (float_step : Z)
    (fftf : fftf_backend) (heap : nat -> sample) (xLength hLength : Z)
    (hd : ConvolutionOverlapSaveHandle) (x h result : farray) :
  convolve_overlap_save_initialize heap xLength hLength = Ok hd ->
  (hLength < 2 ^ 29)%Z -> (xLength < 2 ^ 62)%Z ->
  (os_L hd + 2 < float_step)%Z -> (float_step mod 2 = 0)%Z ->
  (forall b, len b = (os_L hd + 2)%Z ->
             len (forward fftf (os_L hd) b) = (os_L hd + 2)%Z) ->
  convolve_overlap_save_simd float_step fftf hd x h result = None.
Proof.
  intros Hinit Hh29 Hx62 Hshort Heven Hkeep.
  pose proof (convolve_overlap_save_initialize_inv _ _ _ _ Hinit)
    as (_ & _ & _ & Hh & Hpre).
  destruct (convolve_overlap_save_initialize_ready heap xLength hLength
              ltac:(lia) Hpre) as (hd' & Hinit' & Hready & HLeq).
  assert (hd' = hd) by congruence. subst hd'.
  destruct Hready as (HN & HM & Hrev & _ & HL & Hplan & Hiplan & HlB & HlH).
  pose proof (proj1 (below_half_iff xLength hLength) Hpre) as Hx.
  unfold convolve_overlap_save_simd. rewrite Hrev, HM, HN.
  destruct (memcpy (os_fft_boiler_plate hd) 0 h 0 _) as [b0|] eqn:E0;
    cbn [bind]; [|reflexivity].
  destruct (memsetf b0 hLength 0 _) as [b1|] eqn:E1; cbn [bind];
    [|reflexivity].
  apply memcpy_len in E0. apply memsetf_inv in E1 as [_ E1].
  rewrite Hplan, !fftf_calc_forward.
  destruct (memcpy (os_H hd) 0 _ 0 _) as [H|]; cbn [bind]; [|reflexivity].
  rewrite (to_size_t_small (xLength + hLength - 1)) by range_lia.
  destruct (Z.to_nat (xLength + hLength - 1)) as [|fuel] eqn:Ef; [lia|].
  cbn [loop_size_t].
  destruct (Z.ltb_spec 0 (xLength + hLength - 1)) as [_|]; [|lia].
  unfold os_block_simd at 1. cbn [st_boiler st_result].
  destruct (os_fill hd x hLength (os_L hd) _ 0 _) as [b2|] eqn:E2;
    cbn [bind]; [|reflexivity].
  apply os_fill_len in E2.
  rewrite Hplan, fftf_calc_forward.
  rewrite spectrum_multiply_simd_overrun; try assumption;
    [reflexivity|lia|].
  apply Hkeep. rewrite E2. apply Hkeep. lia.
Qed.

(** The handle of the selector for 204 samples by one, with vectors of
    eight floats: the blocks hold six. *)
Lemma convolve_overlap_save_simd_short_witness :
  convolve_overlap_save_simd 8 dft4 (fresh_os_handle 204 1)
    ramp_x one_h ramp_result = None.
Proof.
  apply (convolve_overlap_save_simd_short 8 dft4 zero_heap 204 1
           (fresh_os_handle 204 1) ramp_x one_h ramp_result).
  - reflexivity.
  - lia.
  - lia.
  - vm_compute. reflexivity.
  - reflexivity.
  - intros b Hb. rewrite dft4_forward_len. exact Hb.
Defined.

(** * The initializers on a host that may refuse *)

(** On a host that grants everything they are the initializers of the
    embedding. *)
Lemma convolve_overlap_save_initialize_plentiful (heap : nat -> sample)
    (xLength hLength : Z) :
  convolve_overlap_save_initialize_on plentiful heap xLength hLength
  = convolve_overlap_save_initialize heap xLength hLength.
Proof. reflexivity. Qed.

Lemma convolve_fft_initialize_plentiful (heap : nat -> sample)
    (xLength hLength : Z) :
  convolve_fft_initialize_on plentiful heap xLength hLength
  = convolve_fft_initialize heap xLength hLength.
Proof. reflexivity. Qed.

(** X22. [convolve_overlap_save_initialize] on a host that may refuse
    memory or plans, with the precondition met (0 < hLength < xLength/2,
    hLength < 2^29). When its five requests are granted it returns the
    handle. A refused buffer (H or the scratch buffer) or a refused plan
    aborts on the assertion that follows the request. The cell [handle.L]
    is the one request whose result is not checked: when it is refused, H
    having been granted, the null pointer is written through and the
    behaviour is undefined. *)
Theorem convolve_overlap_save_initialize_refused (granted : host)
    (heap : nat -> sample) (xLength hLength : Z) :
  (0 < hLength < 2 ^ 29)%Z -> (hLength < xLength / 2)%Z ->
  (exists hd,
     convolve_overlap_save_initialize heap xLength hLength = Ok hd) /\
  convolve_overlap_save_initialize_on granted heap xLength hLength
  = if negb (granted 0%nat) then AssertionFailed
    else if negb (granted 1%nat) then Undefined
    else if negb (granted 2%nat && granted 3%nat && granted 4%nat)
         then AssertionFailed
    else convolve_overlap_save_initialize heap xLength hLength.
Proof.
  intros HM Hpre.
  split.
  { destruct (convolve_overlap_save_initialize_ok heap xLength hLength HM
                Hpre) as (H & boiler & Hinit & _).
    eexists. exact Hinit. }
  unfold convolve_overlap_save_initialize_on,
    convolve_overlap_save_initialize.
  destruct (Z.ltb_spec hLength (xLength / 2)) as [G0|G0]; [|lia].
  assert (Hx : (0 < xLength)%Z).
  { destruct (Z.lt_ge_cases 0 xLength) as [Hc|Hc]; [exact Hc|].
    pose proof (Z.div_le_upper_bound xLength 2 0 ltac:(lia) ltac:(lia)). lia. }
  destruct (Z.gtb_spec xLength 0) as [G1|G1]; [|lia].
  destruct (Z.gtb_spec hLength 0) as [G2|G2]; [|lia].
  cbn [assert obind].
  rewrite (to_int_small hLength)
    by range_lia.
  unfold shift_fuel. rewrite shift_loop_log2;
    [|cbn; lia|lia|unfold INT_MAX; cbn; lia].
  cbn [defined obind]. rewrite Z.shiftl_1_l. fold (os_block_size hLength).
  pose proof (os_block_size_bounds hLength ltac:(lia)) as HL.
  pose proof (os_block_size_max hLength HM) as HLmax.
  set (L := os_block_size hLength) in *.
  rewrite (to_int_small L) by range_lia.
  rewrite (to_int_small (L + 2)) by range_lia.
  rewrite !to_size_t_small by range_lia.
  unfold mallocf_checked, mallocf_on, checked, malloc_cell_on, fftf_init_on.
  destruct (mallocf_some heap (L + 2)) as [H0 HH0]; [unfold MAX_FLOATS; lia|].
  pose proof (mallocf_len heap (L + 2) H0 ltac:(lia) HH0) as HlenH0.
  rewrite HH0.
  destruct (memsetf_some H0 hLength 0 (L - hLength)) as (H & HH & HlenH);
    try lia.
  destruct (granted 0%nat); cbn [negb obind]; [|reflexivity].
  rewrite HH. cbn [defined obind].
  destruct (granted 1%nat); cbn [negb obind]; [|reflexivity].
  destruct (granted 2%nat); cbn [negb andb obind]; [|reflexivity].
  destruct (granted 3%nat); cbn [negb andb obind assert]; [|reflexivity].
  destruct (granted 4%nat); cbn [negb andb obind assert]; reflexivity.
Qed.

(** The cell [handle.L] refused, for 300 samples by 128. *)
Lemma convolve_overlap_save_initialize_refused_witness :
  (exists hd, convolve_overlap_save_initialize zero_heap 300 128 = Ok hd) /\
  convolve_overlap_save_initialize_on (refusing 1) zero_heap 300 128
  = if negb (refusing 1 0%nat) then AssertionFailed
    else if negb (refusing 1 1%nat) then Undefined
    else if negb (refusing 1 2%nat && refusing 1 3%nat && refusing 1 4%nat)
         then AssertionFailed
    else convolve_overlap_save_initialize zero_heap 300 128.
Proof.
  apply (convolve_overlap_save_initialize_refused (refusing 1) zero_heap
           300 128).
  - lia.
  - vm_compute. reflexivity.
Defined.

(** X23. [convolve_fft_initialize] on a host that may refuse memory or
    plans, for positive lengths and an output of at most 2^30 samples. None
    of its four allocations is checked ([handle.M], X, H, [handle.inputs]):
    when one of them is refused the null pointer is written through and the
    behaviour is undefined. Only the two plans are asserted: with the
    allocations granted, a refused plan aborts. With the six requests
    granted the handle is returned. *)
Theorem convolve_fft_initialize_refused (granted : host)
    (heap : nat -> sample) (xLength hLength : Z) :
  (0 < xLength)%Z -> (0 < hLength)%Z ->
  (out_length xLength hLength <= 2 ^ 30)%Z ->
  (exists hd, convolve_fft_initialize heap xLength hLength = Ok hd) /\
  convolve_fft_initialize_on granted heap xLength hLength
  = if negb (granted 0%nat && granted 1%nat && granted 2%nat
             && granted 3%nat)
    then Undefined
    else if negb (granted 4%nat && granted 5%nat) then AssertionFailed
    else convolve_fft_initialize heap xLength hLength.
Proof.
  intros Hx Hh Hout.
  split.
  { destruct (convolve_fft_initialize_ok heap xLength hLength Hx Hh Hout)
      as (P & X & H & _ & Hinit & _).
    eexists. exact Hinit. }
  unfold out_length in Hout.
  destruct (round_up_to_pow2_spec (xLength + hLength - 1))
    as (P & HP & Hpow & Hrange & Hmax); [lia|].
  unfold convolve_fft_initialize_on, convolve_fft_initialize.
  destruct (Z.gtb_spec hLength 0) as [G1|G1]; [|lia].
  destruct (Z.gtb_spec xLength 0) as [G2|G2]; [|lia].
  cbn [assert obind].
  rewrite to_int_to_size_t, to_int_small
    by range_lia.
  rewrite HP. cbn [obind].
  rewrite (to_int_small (P + 2)) by range_lia.
  rewrite (to_size_t_small (P + 2))
    by range_lia.
  rewrite !to_size_t_small by range_lia.
  unfold mallocf_on, malloc_cell_on, fftf_init_on.
  destruct (mallocf_some heap (P + 2)) as [X0 HX0];
    [unfold MAX_FLOATS; lia|].
  pose proof (mallocf_len heap (P + 2) X0 ltac:(lia) HX0) as HlenX0.
  rewrite HX0.
  destruct (memsetf_some X0 xLength 0 (P + 2 - xLength))
    as (X & HX & HlenX); try lia.
  destruct (memsetf_some X0 hLength 0 (P + 2 - hLength))
    as (H & HH & HlenH); try lia.
  destruct (granted 0%nat); cbn [negb andb obind]; [|reflexivity].
  destruct (granted 1%nat); cbn [negb andb defined obind]; [|reflexivity].
  rewrite HX. cbn [defined obind].
  destruct (granted 2%nat); cbn [negb andb defined obind]; [|reflexivity].
  rewrite HH. cbn [defined obind].
  destruct (granted 3%nat); cbn [negb andb obind]; [|reflexivity].
  destruct (granted 4%nat); cbn [negb andb obind assert]; [|reflexivity].
  destruct (granted 5%nat); cbn [negb andb obind assert]; reflexivity.
Qed.

(** The buffer H refused, for two samples by two. *)
Lemma convolve_fft_initialize_refused_witness :
  (exists hd, convolve_fft_initialize zero_heap 2 2 = Ok hd) /\
  convolve_fft_initialize_on (refusing 2) zero_heap 2 2
  = if negb (refusing 2 0%nat && refusing 2 1%nat && refusing 2 2%nat
             && refusing 2 3%nat)
    then Undefined
    else if negb (refusing 2 4%nat && refusing 2 5%nat) then AssertionFailed
    else convolve_fft_initialize zero_heap 2 2.
Proof.
  apply (convolve_fft_initialize_refused (refusing 2) zero_heap 2 2).
  - lia.
  - lia.
  - vm_compute. congruence.
Defined.

(** * The transform-based convolvers with an exact transform

    The statements of this part are about the build without [SIMD], whose
    spectral product is [spectrum_multiply], and over exact arithmetic. *)

Lemma exact_transform_at_pow2 (fftf : fftf_backend) (P : Z) :
  is_pow2 P -> (2 <= P <= 2 ^ 30)%Z ->
  exact_transform fftf P -> convolution_theorem fftf P.
Proof.
  intros Hpow HP Hexact.
  apply exact_transform_convolution_theorem; try assumption.
  - lia.
  - unfold INT_MAX. lia.
  - apply pow2_even; [assumption|lia].
Qed.

Lemma os_block_size_pow2 (M : Z) : (0 < M)%Z -> is_pow2 (os_block_size M).
Proof.
  intros HM. exists (2 + Z.log2 M)%Z. split; [|reflexivity].
  pose proof (Z.log2_nonneg M). lia.
Qed.

(** ** The single-shot transform convolver *)

(** X3. On the build without SIMD and over exact arithmetic, for an output
    of 2 to 2^30 samples and a backend that is an exact transform at the
    size the initializer chose, the first execution of the single-shot
    transform convolver on the handle its initializer returns stores the
    direct convolution of x and h, N+M-1 samples. One sample by one
    (transform size 1) is not covered: there the execution is undefined. *)
Theorem single_shot_stores_convolution (fftf : fftf_backend)
    (heap : nat -> sample) (x h result : farray) :
  (0 < len x)%Z -> (0 < len h)%Z ->
  (2 <= out_length (len x) (len h) <= 2 ^ 30)%Z ->
  (forall hd, convolve_fft_initialize heap (len x) (len h) = Ok hd ->
              exact_transform fftf (fft_M hd)) ->
  len result = (len x + len h - 1)%Z ->
  exists hd hd1,
    convolve_fft_initialize heap (len x) (len h) = Ok hd /\
    convolve_fft fftf hd x h result = Some (direct_convolution x h, hd1) /\
    len (direct_convolution x h) = (len x + len h - 1)%Z.
Proof.
  intros Hx Hh Hout Hexact Hres.
  destruct (convolve_fft_initialize_fresh heap (len x) (len h) Hx Hh
              ltac:(lia)) as (hd & Hinit & Hfresh & Hpow).
  pose proof Hfresh as (_ & _ & _ & _ & _ & HP & _).
  assert (Hconv : convolution_theorem fftf (fft_M hd)).
  { apply exact_transform_at_pow2; [exact Hpow| |exact (Hexact hd Hinit)].
    unfold out_length in Hout. lia. }
  destruct (convolve_fft_direct fftf hd x h result Hfresh Hconv Hres)
    as (hd1 & Hrun).
  exists hd, hd1. split; [exact Hinit|]. split; [exact Hrun|].
  apply direct_convolution_len; assumption.
Qed.

(** Two samples by two, with the exact transform of size 4. *)
Lemma single_shot_stores_convolution_witness :
  exists hd hd1,
    convolve_fft_initialize zero_heap (len run_x) (len run_h) = Ok hd /\
    convolve_fft dft4 hd run_x run_h run_result
    = Some (direct_convolution run_x run_h, hd1) /\
    len (direct_convolution run_x run_h) = (len run_x + len run_h - 1)%Z.
Proof.
  apply (single_shot_stores_convolution dft4 zero_heap run_x run_h
           run_result).
  - vm_compute. reflexivity.
  - vm_compute. reflexivity.
  - vm_compute. split; congruence.
  - intros hd Hinit.
    assert (Hhd : hd = fresh_fft_handle 2 2).
    { change (convolve_fft_initialize zero_heap 2 2 = Ok hd) in Hinit.
      assert (Hf : convolve_fft_initialize zero_heap 2 2
                   = Ok (fresh_fft_handle 2 2)) by reflexivity.
      congruence. }
    rewrite Hhd. exact dft4_exact_transform.
  - reflexivity.
Defined.

(** ** The reverse flag: convolution by the reversed kernel *)

Lemma len_rev (h : farray) : len (rev h) = len h.
Proof. unfold len. rewrite length_rev. reflexivity. Qed.

Lemma option_map_fst_some {A B : Type} (r : option (A * B)) (a : A) :
  option_map fst r = Some a -> exists b, r = Some (a, b).
Proof.
  destruct r as [[a' b]|]; cbn; [|discriminate].
  intros [= ->]. exists b. reflexivity.
Qed.

(** X6. On the build without SIMD and over exact arithmetic, for an output
    of 2 to 2^30 samples and a backend that is an exact transform at the
    size the initializer chose: with the reverse flag set on a fresh
    handle, the single-shot transform convolver stores the direct
    convolution of x by the reversed kernel, that is the cross-correlation
    of x and h. *)
Theorem convolve_fft_reverse_flag (fftf : fftf_backend)
    (heap : nat -> sample) (x h result : farray) :
  (0 < len x)%Z -> (0 < len h)%Z ->
  (2 <= out_length (len x) (len h) <= 2 ^ 30)%Z ->
  (forall hd, convolve_fft_initialize heap (len x) (len h) = Ok hd ->
              exact_transform fftf (fft_M hd)) ->
  len result = (len x + len h - 1)%Z ->
  exists hd hd1,
    convolve_fft_initialize heap (len x) (len h) = Ok hd /\
    convolve_fft fftf (fft_set_reverse true hd) x h result
    = Some (direct_convolution x (rev h), hd1).
Proof.
  intros Hx Hh Hout Hexact Hres.
  destruct (convolve_fft_initialize_fresh heap (len x) (len h) Hx Hh
              ltac:(lia)) as (hd & Hinit & Hfresh & Hpow).
  pose proof Hfresh as (HN & HM & Hrev & _ & _ & HP & Hplan & Hiplan & HlX
                        & HlH & HzX & HzH).
  assert (Hconv : convolution_theorem fftf (fft_M hd)).
  { apply exact_transform_at_pow2; [exact Hpow| |exact (Hexact hd Hinit)].
    unfold out_length in Hout. lia. }
  assert (Hfresh' : fft_fresh (fft_set_reverse false hd) (len x)
                      (len (rev h))).
  { rewrite len_rev. unfold fft_fresh, fft_set_reverse.
    cbn [fft_x_length fft_h_length fft_reverse fft_M fft_inputs0 fft_inputs1
         fft_fft_plan fft_fft_inverse_plan].
    repeat split; try assumption; try lia. }
  destruct (convolve_fft_direct fftf (fft_set_reverse false hd) x (rev h)
              result Hfresh' Hconv
              ltac:(rewrite len_rev; exact Hres))
    as (hd0 & Hrun).
  pose proof (convolve_fft_reverse fftf hd x h result
                ltac:(rewrite HM; range_lia) (eq_sym HM)) as Heq.
  rewrite Hrun in Heq. cbn [option_map fst] in Heq.
  destruct (option_map_fst_some _ _ Heq) as (hd1 & Hrun1).
  exists hd, hd1. split; assumption.
Qed.

(** Two samples by the kernel [3, 5], which is not its own reverse. *)
Lemma convolve_fft_reverse_flag_witness :
  exists hd hd1,
    convolve_fft_initialize zero_heap (len run_x) (len run_h) = Ok hd /\
    convolve_fft dft4 (fft_set_reverse true hd) run_x run_h run_result
    = Some (direct_convolution run_x (rev run_h), hd1).
Proof.
  apply (convolve_fft_reverse_flag dft4 zero_heap run_x run_h run_result).
  - vm_compute. reflexivity.
  - vm_compute. reflexivity.
  - vm_compute. split; congruence.
  - intros hd Hinit.
    assert (Hhd : hd = fresh_fft_handle 2 2).
    { change (convolve_fft_initialize zero_heap 2 2 = Ok hd) in Hinit.
      assert (Hf : convolve_fft_initialize zero_heap 2 2
                   = Ok (fresh_fft_handle 2 2)) by reflexivity.
      congruence. }
    rewrite Hhd. exact dft4_exact_transform.
  - reflexivity.
Defined.

(** ** From initialization to execution *)

(** X16. On the build for neither AVX nor NEON, without SIMD, and over exact
    arithmetic: on a handle that [convolve_initialize] returns for the
    lengths of x and h (both positive, output of at most 2^30 samples),
    [convolve] stores the direct convolution of x and h whichever algorithm
    was selected, provided that the backend is an exact transform at the
    transform size of the handle, if it has one, and, for overlap-save,
    that the step does not exceed the signal. *)
Theorem convolve_after_initialize (fftf : fftf_backend)
    (heap : nat -> sample) (hd : ConvolutionHandle)
    (x h result : farray) :
  (0 < len x)%Z -> (0 < len h)%Z -> (len x + len h - 1 <= 2 ^ 30)%Z ->
  convolve_initialize heap Generic (len x) (len h) = Ok hd ->
  (forall s, transform_size hd = Some s -> exact_transform fftf s) ->
  (forall os, handle hd = union_os os -> (os_step os <= len x)%Z) ->
  len result = (len x + len h - 1)%Z ->
  exists hd', convolve fftf Generic hd x h result
              = Some (direct_convolution x h, hd').
Proof.
  intros Hx Hh Hout Hinit Hexact Hstep Hres.
  unfold convolve_initialize in Hinit.
  destruct (len x >? to_size_t (len h * 2))%Z.
  - destruct (Z.gtb_spec (len x) long_threshold) as [Hlong|Hshort].
    + destruct (convolve_overlap_save_initialize heap (len x) (len h))
        as [os| |] eqn:Hos; cbn [obind] in Hinit; try discriminate.
      injection Hinit as <-.
      pose proof (convolve_overlap_save_initialize_inv _ _ _ _ Hos)
        as (_ & _ & _ & HM & Hpre).
      assert (HM29 : (0 < len h < 2 ^ 29)%Z).
      { split; [lia|].
        pose proof (Z.div_mod (len x) 2 ltac:(lia)).
        pose proof (Z.mod_pos_bound (len x) 2 ltac:(lia)). lia. }
      destruct (convolve_overlap_save_initialize_ready heap (len x) (len h)
                  HM29 Hpre) as (os' & Hos' & Hready & HL).
      assert (os' = os) by congruence. subst os'.
      specialize (Hexact (os_L os) eq_refl).
      specialize (Hstep os eq_refl). unfold os_step in Hstep.
      destruct Hready as (HN & HMl & Hr).
      rewrite HMl in Hstep.
      pose proof (os_block_size_bounds (len h) ltac:(lia)) as HLb.
      pose proof (os_block_size_max (len h) HM29) as HLm.
      rewrite to_int_to_size_t, to_int_small in Hstep by (rewrite HL; range_lia).
      assert (Hconv : convolution_theorem fftf (os_L os)).
      { apply exact_transform_at_pow2; [| |exact Hexact].
        - rewrite HL. apply os_block_size_pow2. lia.
        - rewrite HL. lia. }
      destruct (convolve_overlap_save_direct fftf os x h result
                  (conj HN (conj HMl Hr)) ltac:(lia) Hstep Hconv Hres)
        as (os1 & Hrun & _).
      unfold convolve. cbn [algorithm handle x_length h_length].
      rewrite Hrun. cbn [bind fst snd]. eexists. reflexivity.
    + injection Hinit as <-. unfold convolve.
      cbn [algorithm handle x_length h_length].
      rewrite convolve_simd_direct_convolution by (try assumption; range_lia).
      cbn [bind]. eexists. reflexivity.
  - destruct (Z.gtb_spec (len x) (medium_threshold Generic)) as [Hmed|Hsmall].
    + destruct (convolve_fft_initialize heap (len x) (len h))
        as [fft| |] eqn:Hfft; cbn [obind] in Hinit; try discriminate.
      injection Hinit as <-.
      destruct (convolve_fft_initialize_fresh heap (len x) (len h) Hx Hh Hout)
        as (fft' & Hfft' & Hfresh & Hpow).
      assert (fft' = fft) by congruence. subst fft'.
      specialize (Hexact (fft_M fft) eq_refl).
      pose proof Hfresh as (_ & _ & _ & _ & _ & HP & _).
      assert (Hconv : convolution_theorem fftf (fft_M fft)).
      { apply exact_transform_at_pow2; [exact Hpow| |exact Hexact].
        cbn [medium_threshold] in Hmed. lia. }
      destruct (convolve_fft_direct fftf fft x h result Hfresh Hconv Hres)
        as (fft1 & Hrun).
      unfold convolve. cbn [algorithm handle x_length h_length].
      rewrite Hrun. cbn [bind fst snd]. eexists. reflexivity.
    + injection Hinit as <-. unfold convolve.
      cbn [algorithm handle x_length h_length].
      rewrite convolve_simd_direct_convolution by (try assumption; range_lia).
      cbn [bind]. eexists. reflexivity.
Qed.

(** A signal of 204 samples by a kernel of one: the selector builds an
    overlap-save handle with blocks of four samples, and the execution runs
    51 blocks through the exact transform of size 4. *)
Lemma convolve_after_initialize_witness :
  exists hd',
    convolve dft4 Generic
      (MkHandle kConvolutionAlgorithmOverlapSave 204 1
         (union_os (fresh_os_handle 204 1)))
      ramp_x one_h ramp_result
    = Some (direct_convolution ramp_x one_h, hd').
Proof.
  apply (convolve_after_initialize dft4 zero_heap
           (MkHandle kConvolutionAlgorithmOverlapSave 204 1
              (union_os (fresh_os_handle 204 1)))
           ramp_x one_h ramp_result).
  - vm_compute. reflexivity.
  - vm_compute. reflexivity.
  - vm_compute. congruence.
  - vm_compute. reflexivity.
  - intros s Hs.
    assert (Es : s = 4%Z) by (vm_compute in Hs; congruence).
    rewrite Es. exact dft4_exact_transform.
  - intros os Hos. injection Hos as <-. vm_compute. congruence.
  - reflexivity.
Defined.

(** * The overlap-save convolver, block by block *)

(** X1. On the build without SIMD: where the step L-(M-1) does not exceed
    the signal (0 < M < N/2, M < 2^29, N < 2^62), and for every backend
    that keeps the L+2 floats of its buffer and whose forward direction
    reads the first L of them only, the overlap-save convolver on a fresh
    handle is defined and stores N+M-1 samples. The sample at n belongs to
    the block that starts at i = step * (n / step): it is the sample
    M-1 + n mod step of the backward transform of the pair-by-pair product
    of two spectra, that of the window X[i, i + L) of
    X = [zeros(M-1), x, zeros] and that of the zero-padded kernel, divided
    by L. Every output index thus receives the sample of its own block,
    and nothing that an earlier block or an earlier execution left in the
    buffers enters: an execution on the handle that the first one leaves,
    on other samples of the same lengths, stores the blocks of those. *)
Theorem overlap_save_stores_blocks (fftf : fftf_backend)
    (heap : nat -> sample) (x h result x' h' result' : farray) :
  (0 < len h < 2 ^ 29)%Z -> (len h < len x / 2)%Z -> (len x < 2 ^ 62)%Z ->
  (os_block_size (len h) - (len h - 1) <= len x)%Z ->
  buffer_transform fftf (os_block_size (len h)) ->
  len result = (len x + len h - 1)%Z ->
  len x' = len x -> len h' = len h -> len result' = len result ->
  exists hd out hd1 out' hd2,
    convolve_overlap_save_initialize heap (len x) (len h) = Ok hd /\
    convolve_overlap_save fftf hd x h result = Some (out, hd1) /\
    len out = (len x + len h - 1)%Z /\
    (forall n, (0 <= n < len x + len h - 1)%Z ->
       rd out n = Some (os_sample fftf x h (os_block_size (len h)) n)) /\
    convolve_overlap_save fftf hd1 x' h' result' = Some (out', hd2) /\
    len out' = (len x + len h - 1)%Z /\
    (forall n, (0 <= n < len x + len h - 1)%Z ->
       rd out' n = Some (os_sample fftf x' h' (os_block_size (len h)) n)).
Proof.
  intros HM Hpre HN Hstep Hbt Hres Hx' Hh' Hres'.
  destruct (convolve_overlap_save_initialize_ready heap (len x) (len h)
              HM Hpre) as (hd & Hinit & Hready & HLeq).
  pose proof (os_block_size_bounds (len h) ltac:(lia)) as HLb.
  assert (Heven : (os_block_size (len h) mod 2 = 0)%Z).
  { apply pow2_even; [apply os_block_size_pow2; lia|lia]. }
  destruct (convolve_overlap_save_windows fftf hd x h result Hready HN)
    as (out & hd1 & Hrun1 & Hready1 & HL1 & Hlen1 & Hrd1);
    try (rewrite HLeq; assumption); [exact Hres|].
  rewrite <- Hx', <- Hh' in Hready1.
  destruct (convolve_overlap_save_windows fftf hd1 x' h' result' Hready1)
    as (out' & hd2 & Hrun2 & _ & _ & Hlen2 & Hrd2).
  - lia.
  - rewrite HL1, HLeq, Hx', Hh'. exact Hstep.
  - rewrite HL1, HLeq. exact Heven.
  - rewrite HL1, HLeq. exact Hbt.
  - lia.
  - exists hd, out, hd1, out', hd2.
    rewrite HLeq in Hrd1. rewrite HL1, HLeq in Hrd2.
    rewrite Hx', Hh' in Hlen2, Hrd2.
    repeat (split; [assumption|]). assumption.
Qed.

(** Fifteen samples by two: blocks of eight with a step of seven, so that
    each window repeats the last sample of the one before, and the third
    block holds the last two samples of the output. *)
Lemma overlap_save_stores_blocks_witness :
  exists hd out hd1 out' hd2,
    convolve_overlap_save_initialize zero_heap (len fifteen_x) (len two_h)
    = Ok hd /\
    convolve_overlap_save plain_backend hd fifteen_x two_h sixteen_result
    = Some (out, hd1) /\
    len out = (len fifteen_x + len two_h - 1)%Z /\
    (forall n, (0 <= n < len fifteen_x + len two_h - 1)%Z ->
       rd out n = Some (os_sample plain_backend fifteen_x two_h
                          (os_block_size (len two_h)) n)) /\
    convolve_overlap_save plain_backend hd1 (rev fifteen_x) (rev two_h)
      sixteen_result = Some (out', hd2) /\
    len out' = (len fifteen_x + len two_h - 1)%Z /\
    (forall n, (0 <= n < len fifteen_x + len two_h - 1)%Z ->
       rd out' n = Some (os_sample plain_backend (rev fifteen_x) (rev two_h)
                           (os_block_size (len two_h)) n)).
Proof.
  apply (overlap_save_stores_blocks plain_backend zero_heap fifteen_x two_h
           sixteen_result (rev fifteen_x) (rev two_h) sixteen_result).
  - vm_compute. split; reflexivity.
  - vm_compute. reflexivity.
  - vm_compute. reflexivity.
  - vm_compute. congruence.
  - apply plain_backend_buffer_transform. vm_compute. congruence.
  - reflexivity.
  - reflexivity.
  - reflexivity.
  - reflexivity.
Defined.
